(** * Assembly similarity scorer: [calculate_similarity.py]

    A shallow embedding of the scoring functions of
    [calculate_similarity.py] ([normalize_assembly_line],
    [extract_instructions], [calculate_similarity]) together with the
    parts of the Python runtime they rest on: [str] methods, the [re]
    pattern used for labels, [difflib.SequenceMatcher], binary64
    arithmetic and [round].

    The second half embeds the code around the scorer: the script
    [extract_assembly.py], which splits a dump into one directory for
    each problem, and the batch driver [process_all_problems] and the
    report [generate_report] of [calculate_similarity.py], over parsed
    JSON documents.  The script, the report and the module [Driver] run
    in an environment that tells which calls to the operating system
    and to [print] raise. *)

From Stdlib Require Import ZArith QArith Qpower Qround Lia Lqa String Ascii.
From stdpp Require Import base option list list_numbers gmap sorting.

Open Scope Z_scope.

(** ** Python values *)

(** A Python [str] is a sequence of Unicode code points. *)
Definition char := N.
Definition str := list char.

(** Reading a Rocq string literal as a [str], one code point per
    character of the literal. *)
Definition py (s : string) : str := N_of_ascii <$> list_ascii_of_string s.

(** Exceptions that the modelled code can raise. *)
Inductive exn :=
| FileNotFoundError
| PermissionError
| IsADirectoryError
| UnicodeDecodeError
| ValueError
| IndexError
| ZeroDivisionError.

(** The outcome of running a piece of Python: a value, an exception, or
    no outcome within the number of loop turns that the model allows. *)
Inductive res (A : Type) :=
| Ok (a : A)
| Raise (e : exn)
| Diverge.
Arguments Ok {A} a.
Arguments Raise {A} e.
Arguments Diverge {A}.

Definition res_bind {A B} (f : A → res B) (m : res A) : res B :=
  match m with
  | Ok a => f a
  | Raise e => Raise e
  | Diverge => Diverge
  end.

Definition of_option {A} (o : option A) : res A :=
  match o with
  | Some a => Ok a
  | None => Diverge
  end.

#[global] Instance res_mret : MRet res := @Ok.
#[global] Instance res_mbind : MBind res := @res_bind.

(** ** [str] methods *)

Module Str.

Definition hash : char := 35%N.
Definition semicolon : char := 59%N.
Definition dot : char := 46%N.
Definition colon : char := 58%N.
Definition underscore : char := 95%N.
Definition newline : char := 10%N.

(** [str.isspace] on one code point: the characters Python counts as
    whitespace, which are also the ones [str.strip], [str.split] and
    the pattern class [\s] use. *)
Definition isspace (c : char) : bool :=
  ((9 <=? c) && (c <=? 13) || (28 <=? c) && (c <=? 32)
   || (c =? 133) || (c =? 160) || (c =? 5760)
   || (8192 <=? c) && (c <=? 8202) || (c =? 8232) || (c =? 8233)
   || (c =? 8239) || (c =? 8287) || (c =? 12288))%N.

(** [c in s] *)
Definition contains (c : char) (s : str) : bool := bool_decide (c ∈ s).

(** [s.index(c)]: the position of the first [c], [ValueError] when
    there is none. *)
Fixpoint index (c : char) (s : str) : res nat :=
  match s with
  | [] => Raise ValueError
  | x :: s' => if decide (x = c) then Ok 0%nat else n ← index c s'; Ok (S n)
  end.

(** [s[:n]] for a non-negative [n]. *)
Definition slice_to (n : nat) (s : str) : str := take n s.

Fixpoint drop_while (p : char → bool) (s : str) : str :=
  match s with
  | [] => []
  | c :: s' => if p c then drop_while p s' else s
  end.

Fixpoint take_while (p : char → bool) (s : str) : str :=
  match s with
  | [] => []
  | c :: s' => if p c then c :: take_while p s' else []
  end.

Definition lstrip (s : str) : str := drop_while isspace s.
Definition rstrip (s : str) : str := reverse (drop_while isspace (reverse s)).

(** [s.strip()] *)
Definition strip (s : str) : str := rstrip (lstrip s).

(** [s.startswith(c)] for a one-character prefix. *)
Definition startswith (c : char) (s : str) : bool :=
  match s with
  | x :: _ => bool_decide (x = c)
  | [] => false
  end.

(** [s.split()]: the maximal runs of non-whitespace characters, in
    order.  [cur] is the run being read, most recent character first. *)
Fixpoint split_from (cur : str) (s : str) : list str :=
  match s with
  | [] => match cur with [] => [] | _ => [reverse cur] end
  | c :: s' =>
      if isspace c
      then match cur with
           | [] => split_from [] s'
           | _ => reverse cur :: split_from [] s'
           end
      else split_from (c :: cur) s'
  end.

Definition split (s : str) : list str := split_from [] s.

End Str.

(** ** The label pattern of [extract_instructions] *)

Module Re.

(** The fragment of [re] syntax that the label pattern uses. *)
Inductive regex :=
| Empty
| Eps
| Class (p : char → bool)
| Cat (r1 r2 : regex)
| Star (r : regex).

Fixpoint nullable (r : regex) : bool :=
  match r with
  | Empty => false
  | Eps => true
  | Class _ => false
  | Cat r1 r2 => nullable r1 && nullable r2
  | Star _ => true
  end.

(** What is left of [r] to match once [c] has been read. *)
Fixpoint deriv (c : char) (r : regex) : list regex :=
  match r with
  | Empty | Eps => []
  | Class p => if p c then [Eps] else []
  | Cat r1 r2 =>
      ((λ r1', Cat r1' r2) <$> deriv c r1)
      ++ (if nullable r1 then deriv c r2 else [])
  | Star r1 => (λ r1', Cat r1' (Star r1)) <$> deriv c r1
  end.

(** The pattern matches the whole of [s]. *)
Fixpoint fullmatch_any (rs : list regex) (s : str) : bool :=
  match s with
  | [] => existsb nullable rs
  | c :: s' => fullmatch_any (rs ≫= deriv c) s'
  end.

Definition fullmatch (r : regex) (s : str) : bool := fullmatch_any [r] s.

(** [re.match('^' r '$', s)]: without [re.MULTILINE], [^] is the start
    of the string and [$] is its end or the position just before a
    final newline. *)
Definition match_anchored (r : regex) (s : str) : bool :=
  fullmatch r s
  || match reverse s with
     | c :: s' => bool_decide (c = Str.newline) && fullmatch r (reverse s')
     | [] => false
     end.

Definition in_range (lo hi : N) (c : char) : bool := ((lo <=? c) && (c <=? hi))%N.
Definition is_lower : char → bool := in_range 97 122.
Definition is_upper : char → bool := in_range 65 90.
Definition is_digit : char → bool := in_range 48 57.

(** [[.a-zA-Z_]] *)
Definition label_first (c : char) : bool :=
  bool_decide (c = Str.dot) || is_lower c || is_upper c
  || bool_decide (c = Str.underscore).

(** [[a-zA-Z0-9_.]] *)
Definition label_rest (c : char) : bool :=
  is_lower c || is_upper c || is_digit c
  || bool_decide (c = Str.underscore) || bool_decide (c = Str.dot).

(** [[.a-zA-Z_][a-zA-Z0-9_.]*:\s*] *)
Definition label_pattern : regex :=
  Cat (Class label_first)
    (Cat (Star (Class label_rest))
       (Cat (Class (λ c, bool_decide (c = Str.colon)))
          (Star (Class Str.isspace)))).

(** [re.match(r'^[.a-zA-Z_][a-zA-Z0-9_.]*:\s*$', s)] is not [None]. *)
Definition is_label (s : str) : bool := match_anchored label_pattern s.

End Re.

(** ** [normalize_assembly_line] and [extract_instructions] *)

Definition normalize_assembly_line (line : str) : res str :=
  line ← (if Str.contains Str.hash line
          then i ← Str.index Str.hash line; Ok (Str.slice_to i line)
          else Ok line);
  line ← (if Str.contains Str.semicolon line
          then i ← Str.index Str.semicolon line; Ok (Str.slice_to i line)
          else Ok line);
  let line := Str.strip line in
  Ok line.

(** One turn of the loop of [extract_instructions]; [instructions] is the
    list built so far. *)
Definition extract_step (instructions : list str) (line : str) : res (list str) :=
  normalized ← normalize_assembly_line line;
  if bool_decide (normalized = []) then Ok instructions
  else if Re.is_label normalized then Ok instructions
  else if Str.startswith Str.dot normalized then Ok instructions
  else
    let parts := Str.split normalized in
    match parts with
    | [] => Ok instructions
    | _ =>
        p0 ← match parts !! 0%nat with Some p => Ok p | None => Raise IndexError end;
        Ok (instructions ++ [p0])
    end.

Fixpoint for_each {A B} (body : B → A → res B) (xs : list A) (acc : B) : res B :=
  match xs with
  | [] => Ok acc
  | x :: xs' => acc' ← body acc x; for_each body xs' acc'
  end.

Definition extract_instructions (lines : list str) : res (list str) :=
  for_each extract_step lines [].

(** ** Reference definitions for the string functions *)

(** The part of [s] before the first [c]; all of [s] when it has no [c]. *)
Fixpoint before (c : char) (s : str) : str :=
  match s with
  | [] => []
  | x :: s' => if decide (x = c) then [] else x :: before c s'
  end.

(** The normalized line as a composition: cut the [#] comment, cut the
    [;] comment, strip. *)
Definition normal_form (line : str) : str :=
  Str.strip (before Str.semicolon (before Str.hash line)).

(** The first whitespace-delimited token of [s]. *)
Definition first_token (s : str) : str :=
  Str.take_while (λ c, negb (Str.isspace c)) (Str.lstrip s).

(** A line contributes a mnemonic when its normalization is not empty,
    is not a label and does not start with a dot. *)
Definition is_instruction_line (line : str) : bool :=
  negb (bool_decide (normal_form line = []))
  && negb (Re.is_label (normal_form line))
  && negb (Str.startswith Str.dot (normal_form line)).

(** The kinds of line that contribute no mnemonic. *)
Definition is_blank_or_comment (line : str) : Prop := normal_form line = [].
Definition is_label_line (line : str) : Prop := Re.is_label (normal_form line) = true.
Definition is_directive_line (line : str) : Prop :=
  Str.startswith Str.dot (normal_form line) = true.

(** The mnemonics of a text, in the order of its lines. *)
Definition instruction_tokens (lines : list str) : list str :=
  (λ line, first_token (normal_form line)) <$> filter (λ line, is_instruction_line line) lines.



(** ** Binary64 arithmetic

    A Python [float] is modelled by the rational number it denotes.  Every
    operation computes the exact result and rounds it to 53 significant
    bits, ties to even.  The exponent range is not bounded: there are no
    infinities, NaNs or subnormal numbers, which the scorer cannot reach
    with lists that fit in memory. *)

Module Float.

Definition float : Type := Q.

Definition pow2 (e : Z) : Q := (2 ^ e)%Q.

(** The exponent [k] with [2^k <= x < 2^(k+1)], for a positive [x]. *)
Definition ilog2 (x : Q) : Z :=
  let k := Z.log2 (Qnum x) - Z.log2 (Zpos (Qden x)) in
  if Qle_bool (pow2 k) x then k else k - 1.

(** The integer nearest to [x], the even one when two are as near. *)
Definition rne (x : Q) : Z :=
  let f := Qfloor x in
  match (x - inject_Z f ?= 1 # 2)%Q with
  | Lt => f
  | Gt => f + 1
  | Eq => if Z.even f then f else f + 1
  end.

(** Rounding of a positive rational to 53 significant bits. *)
Definition round_pos (x : Q) : Q :=
  let e := ilog2 x - 52 in
  (inject_Z (rne (x / pow2 e)) * pow2 e)%Q.

(** Rounding to 53 significant bits. *)
Definition nearest (x : Q) : Q :=
  match (x ?= 0)%Q with
  | Eq => 0%Q
  | Gt => round_pos x
  | Lt => (- round_pos (- x))%Q
  end.

(** The binary64 value nearest to [x], as a fraction in lowest terms. *)
Definition rnd (x : Q) : float := Qred (nearest x).

(** [float(n)] for an [int] [n], as the mixed operations apply it. *)
Definition of_int (n : Z) : float := rnd (inject_Z n).

Definition add (x y : float) : float := rnd (x + y).
Definition mul (x y : float) : float := rnd (x * y).

(** [x / y] *)
Definition div (x y : float) : res float :=
  if Qeq_bool y 0 then Raise ZeroDivisionError else Ok (rnd (x / y)).

(** [round(x, ndigits)] for [ndigits >= 0]: the decimal with [ndigits]
    places nearest to the exact value of [x], ties to even, read back as
    a float. *)
Definition round (x : float) (ndigits : Z) : float :=
  rnd (inject_Z (rne (x * inject_Z (10 ^ ndigits))) / inject_Z (10 ^ ndigits)).

(** The literals of the program. *)
Definition c0_0 : float := 0%Q.
Definition c1_0 : float := 1%Q.
Definition c2_0 : float := 2%Q.
Definition c0_6 : float := rnd (6 # 10).
Definition c0_4 : float := rnd (4 # 10).

End Float.

(** ** [difflib.SequenceMatcher]

    The class that [calculate_similarity] imports from the standard
    library, as it behaves for [SequenceMatcher(None, a, b)]: no junk
    predicate, automatic junk heuristic on. *)

Module Difflib.
Section sequence_matcher.
Context `{Countable A}.

(** A [Match(a, b, size)] tuple. *)
Definition block : Type := Z * Z * Z.

Definition block_size (m : block) : Z := m.2.

(** [a[i]], [None] standing for [IndexError]. *)
Definition item (a : list A) (i : Z) : option A :=
  if decide (0 ≤ i) then a !! Z.to_nat i
  else if decide (0 ≤ Z.of_nat (length a) + i)
       then a !! Z.to_nat (Z.of_nat (length a) + i)
       else None.

(** [a[i] == b[j]] *)
Definition same_item (a : list A) (i : Z) (b : list A) (j : Z) : bool :=
  match item a i, item b j with
  | Some x, Some y => bool_decide (x = y)
  | _, _ => false
  end.

(** The first loop of [__chain_b], from position [i] on: every element of
    [b] gets the ascending list of the positions at which it occurs. *)
Fixpoint index_positions (i : Z) (b : list A) (b2j : gmap A (list Z)) :
    gmap A (list Z) :=
  match b with
  | [] => b2j
  | elt :: b' =>
      index_positions (i + 1) b' (<[elt := default [] (b2j !! elt) ++ [i]]> b2j)
  end.

(** [isjunk] is [None]: the junk set stays empty. *)
Definition bjunk : gset A := ∅.

(** The last part of [__chain_b]: when [b] has 200 elements or more, the
    elements that occur more than [n // 100 + 1] times are deleted from
    [b2j]. *)
Definition purge_popular (autojunk : bool) (n : Z) (b2j : gmap A (list Z)) :
    gmap A (list Z) :=
  if autojunk && bool_decide (200 ≤ n)
  then let ntest := n `div` 100 + 1 in
       filter (λ kv, ¬ (ntest < Z.of_nat (length kv.2))) b2j
  else b2j.

Definition chain_b (autojunk : bool) (b : list A) : gmap A (list Z) :=
  purge_popular autojunk (Z.of_nat (length b)) (index_positions 0 b ∅).

(** The inner loop of [find_longest_match] for one [i]: [js] are the
    positions of [a[i]] in [b] that remain to be visited. *)
Fixpoint scan_row (i blo bhi : Z) (j2len : gmap Z Z) (js : list Z)
    (newj2len : gmap Z Z) (best : block) : gmap Z Z * block :=
  match js with
  | [] => (newj2len, best)
  | j :: js' =>
      if decide (j < blo) then scan_row i blo bhi j2len js' newj2len best
      else if decide (bhi ≤ j) then (newj2len, best)
      else
        let k := default 0 (j2len !! (j - 1)) + 1 in
        let newj2len := <[j := k]> newj2len in
        let best := if decide (block_size best < k)
                    then (i - k + 1, j - k + 1, k) else best in
        scan_row i blo bhi j2len js' newj2len best
  end.

(** The outer loop: the longest block made of elements that are keys of
    [b2j]. *)
Definition scan_rows (a : list A) (b2j : gmap A (list Z)) (alo ahi blo bhi : Z) :
    gmap Z Z * block :=
  foldl (λ '(j2len, best) i,
           match item a i with
           | Some x => scan_row i blo bhi j2len (default [] (b2j !! x)) ∅ best
           | None => (∅, best)
           end)
    (∅, (alo, blo, 0)) (seqZ alo (ahi - alo)).

(** [isbjunk(b[j])] *)
Definition isbjunk_at (b : list A) (j : Z) : bool :=
  match item b j with
  | Some y => bool_decide (y ∈ bjunk)
  | None => false
  end.

(** The loops that grow the block to the left: while both ends are
    inside the window, the element before the block has junk status
    [junk] and the two elements agree.  The loop body runs at most
    [besti - alo] times. *)
Fixpoint extend_left (n : nat) (junk : bool) (a b : list A) (alo blo : Z)
    (best : block) : block :=
  match n with
  | O => best
  | S n' =>
      let '(besti, bestj, bestsize) := best in
      if bool_decide (alo < besti) && bool_decide (blo < bestj)
         && bool_decide (isbjunk_at b (bestj - 1) = junk)
         && same_item a (besti - 1) b (bestj - 1)
      then extend_left n' junk a b alo blo (besti - 1, bestj - 1, bestsize + 1)
      else best
  end.

(** The loops that grow the block to the right; the body runs at most
    [ahi - (besti + bestsize)] times. *)
Fixpoint extend_right (n : nat) (junk : bool) (a b : list A) (ahi bhi : Z)
    (best : block) : block :=
  match n with
  | O => best
  | S n' =>
      let '(besti, bestj, bestsize) := best in
      if bool_decide (besti + bestsize < ahi) && bool_decide (bestj + bestsize < bhi)
         && bool_decide (isbjunk_at b (bestj + bestsize) = junk)
         && same_item a (besti + bestsize) b (bestj + bestsize)
      then extend_right n' junk a b ahi bhi (besti, bestj, bestsize + 1)
      else best
  end.

Definition extend (junk : bool) (a b : list A) (alo ahi blo bhi : Z) (best : block) :
    block :=
  let best := extend_left (Z.to_nat (best.1.1 - alo)) junk a b alo blo best in
  extend_right (Z.to_nat (ahi - (best.1.1 + best.2))) junk a b ahi bhi best.

(** [find_longest_match(alo, ahi, blo, bhi)] *)
Definition find_longest_match (a b : list A) (b2j : gmap A (list Z))
    (alo ahi blo bhi : Z) : block :=
  let best := (scan_rows a b2j alo ahi blo bhi).2 in
  let best := extend false a b alo ahi blo bhi best in
  extend true a b alo ahi blo bhi best.

(** The [while queue] loop of [get_matching_blocks].  The head of [queue]
    is the entry that [queue.pop()] returns; [None] when [fuel] turns of
    the loop were not enough to empty the queue. *)
Fixpoint blocks_loop (fuel : nat) (a b : list A) (b2j : gmap A (list Z))
    (queue : list (Z * Z * Z * Z)) (matching_blocks : list block) :
    option (list block) :=
  match queue with
  | [] => Some matching_blocks
  | (alo, ahi, blo, bhi) :: queue =>
      match fuel with
      | O => None
      | S fuel' =>
          let '(i, j, k) := find_longest_match a b b2j alo ahi blo bhi in
          if decide (k ≠ 0) then
            let matching_blocks := matching_blocks ++ [(i, j, k)] in
            let queue := if decide (alo < i ∧ blo < j)
                         then (alo, i, blo, j) :: queue else queue in
            let queue := if decide (i + k < ahi ∧ j + k < bhi)
                         then (i + k, ahi, j + k, bhi) :: queue else queue in
            blocks_loop fuel' a b b2j queue matching_blocks
          else blocks_loop fuel' a b b2j queue matching_blocks
      end
  end.

(** Tuples compare lexicographically. *)
Definition block_leb (x y : block) : bool :=
  let '(i1, j1, k1) := x in
  let '(i2, j2, k2) := y in
  bool_decide (i1 < i2)
  || bool_decide (i1 = i2)
     && (bool_decide (j1 < j2) || bool_decide (j1 = j2) && bool_decide (k1 ≤ k2)).

(** One turn of the loop that merges adjacent blocks. *)
Definition collapse_step (st : block * list block) (x : block) : block * list block :=
  let '((i1, j1, k1), non_adjacent) := st in
  let '(i2, j2, k2) := x in
  if decide (i1 + k1 = i2 ∧ j1 + k1 = j2)
  then ((i1, j1, k1 + k2), non_adjacent)
  else ((i2, j2, k2),
        if decide (k1 ≠ 0) then non_adjacent ++ [(i1, j1, k1)] else non_adjacent).

Definition collapse (la lb : Z) (matching_blocks : list block) : list block :=
  let '((i1, j1, k1), non_adjacent) := foldl collapse_step ((0, 0, 0), []) matching_blocks in
  let non_adjacent :=
    if decide (k1 ≠ 0) then non_adjacent ++ [(i1, j1, k1)] else non_adjacent in
  non_adjacent ++ [(la, lb, 0)].

(** The number of loop turns allowed to [get_matching_blocks]. *)
Definition loop_budget (a : list A) : nat := 2 * length a + 1.

(** [get_matching_blocks()] *)
Definition get_matching_blocks (autojunk : bool) (a b : list A) : option (list block) :=
  let la := Z.of_nat (length a) in
  let lb := Z.of_nat (length b) in
  matching_blocks ← blocks_loop (loop_budget a) a b (chain_b autojunk b) [(0, la, 0, lb)] [];
  let matching_blocks := merge_sort (λ x y, block_leb x y) matching_blocks in
  Some (collapse la lb matching_blocks).

(** [sum(triple[-1] for triple in self.get_matching_blocks())] *)
Definition matches (autojunk : bool) (a b : list A) : option Z :=
  blocks ← get_matching_blocks autojunk a b;
  Some (foldr Z.add 0 (block_size <$> blocks)).

(** [_calculate_ratio(matches, length)] *)
Definition calculate_ratio (matches length : Z) : res Float.float :=
  if decide (length ≠ 0)
  then Float.div (Float.mul Float.c2_0 (Float.of_int matches)) (Float.of_int length)
  else Ok Float.c1_0.

(** [SequenceMatcher(None, a, b).ratio()] *)
Definition ratio (a b : list A) : res Float.float :=
  matches ← of_option (matches true a b);
  calculate_ratio matches (Z.of_nat (length a) + Z.of_nat (length b)).

End sequence_matcher.
End Difflib.


(** ** [calculate_similarity] *)

(** The dictionary that [calculate_similarity] returns. *)
Record SimilarityResult := {
  line_similarity : Float.float;
  instruction_similarity : Float.float;
  overall_similarity : Float.float;
}.

(** What [open(path, 'r', encoding='utf-8')] and [readlines()] give for a
    path: the lines of the file, or the exception that one of the two
    raises ([FileNotFoundError] when nothing exists at the path). *)
Inductive file :=
| Lines (lines : list str)
| Unreadable (e : exn).

Definition filesystem : Type := str → file.

Definition open_readlines (fs : filesystem) (path : str) : res (list str) :=
  match fs path with
  | Lines lines => Ok lines
  | Unreadable e => Raise e
  end.

Definition calculate_similarity (fs : filesystem) (file1_path file2_path : str) :
    res SimilarityResult :=
  match (lines1 ← open_readlines fs file1_path;
         lines2 ← open_readlines fs file2_path;
         Ok (lines1, lines2)) with
  | Raise FileNotFoundError =>
      Ok {| line_similarity := Float.c0_0;
            instruction_similarity := Float.c0_0;
            overall_similarity := Float.c0_0 |}
  | Raise e => Raise e
  | Diverge => Diverge
  | Ok (lines1, lines2) =>
      normalized_lines1 ← mapM normalize_assembly_line lines1;
      normalized_lines2 ← mapM normalize_assembly_line lines2;
      let normalized_lines1 := filter (λ line, line ≠ []) normalized_lines1 in
      let normalized_lines2 := filter (λ line, line ≠ []) normalized_lines2 in
      line_similarity ← Difflib.ratio normalized_lines1 normalized_lines2;
      instructions1 ← extract_instructions lines1;
      instructions2 ← extract_instructions lines2;
      instruction_similarity ←
        (if bool_decide (instructions1 ≠ []) || bool_decide (instructions2 ≠ [])
         then Difflib.ratio instructions1 instructions2
         else Ok Float.c0_0);
      let overall_similarity :=
        Float.add (Float.mul line_similarity Float.c0_6)
                  (Float.mul instruction_similarity Float.c0_4) in
      Ok {| line_similarity := Float.round line_similarity 4;
            instruction_similarity := Float.round instruction_similarity 4;
            overall_similarity := Float.round overall_similarity 4 |}
  end.

(** ** Reference definitions for the scorer *)

(** The non-empty normalized lines of a text, in order. *)
Definition normalized_lines (lines : list str) : list str :=
  filter (λ line, line ≠ []) (normal_form <$> lines).

(** The result of the missing-file fallback. *)
Definition zero_result : SimilarityResult :=
  {| line_similarity := 0%Q;
     instruction_similarity := 0%Q;
     overall_similarity := 0%Q |}.

(** The three fields lie between 0.0 and 1.0. *)
Definition in_unit_interval (r : SimilarityResult) : Prop :=
  (0 <= line_similarity r <= 1
   ∧ 0 <= instruction_similarity r <= 1
   ∧ 0 <= overall_similarity r <= 1)%Q.

(** The instruction ratio with its guard for two empty sequences. *)
Definition instruction_ratio (instructions1 instructions2 : list str) :
    res Float.float :=
  if bool_decide (instructions1 ≠ []) || bool_decide (instructions2 ≠ [])
  then Difflib.ratio instructions1 instructions2
  else Ok Float.c0_0.

(** The result for two texts that were read: both ratios at full
    precision, their weighted sum, and the three of them rounded. *)
Definition score (lines1 lines2 : list str) : res SimilarityResult :=
  line_ratio ← Difflib.ratio (normalized_lines lines1) (normalized_lines lines2);
  inst_ratio ← instruction_ratio (instruction_tokens lines1) (instruction_tokens lines2);
  Ok {| line_similarity := Float.round line_ratio 4;
        instruction_similarity := Float.round inst_ratio 4;
        overall_similarity :=
          Float.round (Float.add (Float.mul line_ratio Float.c0_6)
                                 (Float.mul inst_ratio Float.c0_4)) 4 |}.

(** Edits of one line that leave the instruction alone: a comment
    introduced by [#] or [;] appended before the line terminator [t], or
    other whitespace around the same text. *)
Inductive same_modulo_noise : str → str → Prop :=
| noise_comment (body cmt t : str) (c : char) :
    c = Str.hash ∨ c = Str.semicolon →
    forallb Str.isspace t = true →
    same_modulo_noise (body ++ t) (body ++ c :: cmt ++ t)
| noise_whitespace (w1 w2 w1' w2' core : str) :
    forallb Str.isspace w1 = true → forallb Str.isspace w2 = true →
    forallb Str.isspace w1' = true → forallb Str.isspace w2' = true →
    same_modulo_noise (w1 ++ core ++ w2) (w1' ++ core ++ w2').

(** ** Example inputs *)

Definition generated_path : str := py "sample_0_generated.s".
Definition unoptimized_path : str := py "unoptimized.s".

(** A directory that holds the two files and nothing else. *)
Definition two_files (generated unoptimized : list str) : filesystem :=
  λ path, if decide (path = generated_path) then Lines generated
          else if decide (path = unoptimized_path) then Lines unoptimized
          else Unreadable FileNotFoundError.

(** The same directory with an edited copy of the generated file. *)
Definition edited_path : str := py "sample_0_edited.s".

Definition three_files (generated edited unoptimized : list str) : filesystem :=
  λ path, if decide (path = edited_path) then Lines edited
          else two_files generated unoptimized path.

(** Two lines, the first with its line terminator, and the same lines
    with a comment added to the first and the whitespace of the second
    changed. *)
Definition plain_lines : list str :=
  [py "mov eax, 1" ++ [Str.newline]; py "  ret"].
Definition noisy_lines : list str :=
  [py "mov eax, 1# load" ++ [Str.newline]; py "ret   "].

(** Four one-instruction lines, and the same lines in another order. *)
Definition four_lines : list str := [py "push"; py "mov"; py "add"; py "ret"].
Definition four_lines_reordered : list str := [py "add"; py "mov"; py "ret"; py "push"].

(** A directory in which the generated file exists but may not be read. *)
Definition protected_file (unoptimized : list str) : filesystem :=
  λ path, if decide (path = generated_path) then Unreadable PermissionError
          else if decide (path = unoptimized_path) then Lines unoptimized
          else Unreadable FileNotFoundError.

(** ** Invariants of [find_longest_match] and [get_matching_blocks]

    Predicates and measures in which the facts about the matcher are
    stated. *)

Section difflib_invariants.
Context `{Countable A}.

(** The entries of a row [i] of lengths are positive and fit in the
    window above and to the left of their position. *)
Definition row_ok (alo blo i : Z) (j2len : gmap Z Z) : Prop :=
  ∀ j v, j2len !! j = Some v → 1 ≤ v ≤ i - alo + 1 ∧ v ≤ j - blo + 1.

(** A block lies in the window [alo, top) x [blo, bhi). *)
Definition best_ok (alo blo bhi top : Z) (best : Difflib.block) : Prop :=
  alo ≤ best.1.1 ∧ best.1.1 + best.2 ≤ top
  ∧ blo ≤ best.1.2 ∧ best.1.2 + best.2 ≤ bhi ∧ 0 ≤ best.2.

Definition region_ok (r : Z * Z * Z * Z) : Prop :=
  r.1.1.1 ≤ r.1.1.2 ∧ r.1.2 ≤ r.2.

(** The number of elements of [a], respectively [b], inside the windows
    that wait in the queue. *)
Definition a_span (queue : list (Z * Z * Z * Z)) : Z :=
  foldr (λ r s, (r.1.1.2 - r.1.1.1) + s) 0 queue.

Definition b_span (queue : list (Z * Z * Z * Z)) : Z :=
  foldr (λ r s, (r.2 - r.1.2) + s) 0 queue.

(** The sum of the sizes of a list of blocks. *)
Definition total (blocks : list Difflib.block) : Z :=
  foldr Z.add 0 (Difflib.block_size <$> blocks).

(** The positions of [x] in [b], counted from [i], in ascending order. *)
Fixpoint positions_from (i : Z) (x : A) (b : list A) : list Z :=
  match b with
  | [] => []
  | y :: b' => (if decide (y = x) then [i] else []) ++ positions_from (i + 1) x b'
  end.

(** [x] is a key of [b2j]. *)
Definition is_key (b2j : gmap A (list Z)) (x : A) : bool :=
  bool_decide (is_Some (b2j !! x)).

(** The number of consecutive keys of [b2j] that end at position [n] of
    [a]. *)
Fixpoint run (a : list A) (b2j : gmap A (list Z)) (n : nat) : Z :=
  match a !! n with
  | Some x =>
      if is_key b2j x
      then match n with O => 0 | S n' => run a b2j n' end + 1
      else 0
  | None => 0
  end.

Definition runZ (a : list A) (b2j : gmap A (list Z)) (t : Z) : Z :=
  if decide (0 ≤ t) then run a b2j (Z.to_nat t) else 0.

(** Row [i] of the lengths when [a] is matched against itself: no entry
    exceeds the run of keys that ends at the smaller of its two
    positions, and the entry on the diagonal is that run. *)
Definition diag_row (a : list A) (b2j : gmap A (list Z)) (i : Z) (j2len : gmap Z Z) :
    Prop :=
  (∀ j v, j2len !! j = Some v → v ≤ runZ a b2j (Z.min i j))
  ∧ j2len !! i = (if decide (0 < runZ a b2j i) then Some (runZ a b2j i) else None).

(** The best block after the rows before [top]: it lies on the diagonal
    and is as long as every run that ends before [top]. *)
Definition diag_best (a : list A) (b2j : gmap A (list Z)) (i top : Z)
    (best : Difflib.block) : Prop :=
  best.1.1 = best.1.2 ∧ 0 ≤ best.1.1 ∧ best.1.1 + best.2 ≤ top
  ∧ (∀ t, t < i → runZ a b2j t ≤ best.2).

(** [a[i0 : i0 + n] == b[j0 : j0 + n]]: the [n] elements of [a] from
    [i0] on are the [n] elements of [b] from [j0] on. *)
Definition common_block (a b : list A) (i0 j0 n : Z) : Prop :=
  0 ≤ i0 ∧ 0 ≤ j0
  ∧ ∀ t, 0 ≤ t < n →
      ∃ x, a !! Z.to_nat (i0 + t) = Some x ∧ b !! Z.to_nat (j0 + t) = Some x.

(** [a] occurs in [b] as a block of adjacent elements. *)
Definition contiguous_in (a b : list A) : Prop := ∃ pre post, b = pre ++ a ++ post.

(** Pairs of sequences for which the number of matched elements is the
    same in both orders: equal sequences, sequences without a common
    element, and sequences of fewer than 200 elements (the length from
    which [__chain_b] discards popular elements) of which one occurs in
    the other as a block. *)
Definition order_independent (a b : list A) : Prop :=
  a = b
  ∨ (∀ x, x ∈ a → x ∉ b)
  ∨ ((contiguous_in a b ∨ contiguous_in b a)
     ∧ (length a < 200)%nat ∧ (length b < 200)%nat).

End difflib_invariants.

Arguments total : simpl never.

(** * The extraction script: [extract_assembly.py] *)

(** ** [str] methods that take a string argument *)

Module Substr.

(** [s.startswith(prefix)] *)
Fixpoint startswith (prefix s : str) : bool :=
  match prefix, s with
  | [], _ => true
  | _ :: _, [] => false
  | x :: prefix', y :: s' => bool_decide (x = y) && startswith prefix' s'
  end.

(** [s.endswith(suffix)] *)
Definition endswith (suffix s : str) : bool :=
  bool_decide (drop (length s - length suffix) s = suffix).

(** [s.find(sep)]: the lowest index at which [sep] occurs in [s]. *)
Fixpoint find (sep s : str) : option nat :=
  if startswith sep s then Some 0%nat
  else match s with
       | [] => None
       | _ :: s' => S <$> find sep s'
       end.

(** [s.rfind(sep)]: the highest index at which [sep] occurs in [s]. *)
Fixpoint rfind (sep s : str) : option nat :=
  match s with
  | [] => if startswith sep [] then Some 0%nat else None
  | _ :: s' =>
      match rfind sep s' with
      | Some i => Some (S i)
      | None => if startswith sep s then Some 0%nat else None
      end
  end.

(** [sub in s] *)
Definition contains (sub s : str) : bool := bool_decide (is_Some (find sub s)).

(** [s.split(sep, 1)] for a non-empty [sep]: [s] cut at the first [sep],
    or [s] alone when there is none. *)
Definition split1 (sep s : str) : list str :=
  match find sep s with
  | Some i => [take i s; drop (i + length sep) s]
  | None => [s]
  end.

(** [s.rsplit(sep, 1)] for a non-empty [sep]: [s] cut at the last [sep]. *)
Definition rsplit1 (sep s : str) : list str :=
  match rfind sep s with
  | Some i => [take i s; drop (i + length sep) s]
  | None => [s]
  end.

Definition slash : char := 47%N.

(** [os.path.join(a, b)] of [posixpath]: an absolute [b] replaces [a];
    otherwise the two are joined by one slash, which is left out when
    [a] is empty or ends with a slash already. *)
Definition join (a b : str) : str :=
  if startswith [slash] b then b
  else if bool_decide (a = []) || endswith [slash] a then a ++ b
  else a ++ [slash] ++ b.

End Substr.

(** ** Exceptions and outcomes of the scripts *)

Module Py.

(** The exceptions that the operations on parsed JSON values raise,
    [LoadError] for whichever exception [open] or [json.load] raises on
    a file that cannot be read as JSON, and [EffectError] for whichever
    exception [os.makedirs], [open], [write], [json.dump], the close of
    a file or [print] raises when the operating system or the encoding
    of a text refuses. *)
Inductive error :=
| TypeError
| AttributeError
| KeyError
| IndexError
| LoadError
| EffectError.

Inductive result (A : Type) :=
| Return (a : A)
| Throw (e : error).
Arguments Return {A} a.
Arguments Throw {A} e.

Definition result_bind {A B} (f : A → result B) (m : result A) : result B :=
  match m with
  | Return a => f a
  | Throw e => Throw e
  end.

#[global] Instance result_mret : MRet result := @Return.
#[global] Instance result_mbind : MBind result := @result_bind.

(** [l[i]] on a list *)
Definition item {A} (l : list A) (i : nat) : result A :=
  match l !! i with
  | Some x => Return x
  | None => Throw IndexError
  end.

End Py.

(** ** Parsed JSON documents *)

Module Json.

Import Py.

(** A JSON number with a fraction or an exponent is a Python [float];
    [json.load] also reads [NaN], [Infinity] and [-Infinity]. *)
Inductive number :=
| Finite (q : Q)
| Infinite (negative : bool)
| NaN.

(** What [json.load] returns: [None], [bool], [int], [float], [str],
    [list], or a [dict] with string keys.  A [dict] keeps its keys in
    the order of their first insertion; here it is the list of its
    items in that order, each key once. *)
#[warnings="-register-all"]
Inductive value :=
| Null
| Bool (b : bool)
| Int (n : Z)
| Float (x : number)
| String (s : str)
| Array (items : list value)
| Object (members : list (str * value)).

Abbreviation dict := (list (str * value)).

(** [d.get(key)] on a [dict], as an option *)
Fixpoint lookup (key : str) (d : dict) : option value :=
  match d with
  | [] => None
  | (k, v) :: d' => if decide (k = key) then Some v else lookup key d'
  end.

(** [d[key] = v] on a [dict]: the value of an existing key is replaced
    where it stands, a new key goes last. *)
Fixpoint store (key : str) (v : value) (d : dict) : dict :=
  match d with
  | [] => [(key, v)]
  | (k, w) :: d' => if decide (k = key) then (k, v) :: d' else (k, w) :: store key v d'
  end.

Definition keys (d : dict) : list str := d.*1.

Definition is_string (key : str) (v : value) : bool :=
  match v with
  | String s => bool_decide (s = key)
  | _ => false
  end.

(** [key in x] for a string [key]: a key of a [dict], an element of a
    [list], a substring of a [str]; other values are not iterable. *)
Definition contains (key : str) (x : value) : result bool :=
  match x with
  | Object d => Return (bool_decide (is_Some (lookup key d)))
  | Array l => Return (existsb (is_string key) l)
  | String s => Return (Substr.contains key s)
  | _ => Throw TypeError
  end.

(** [x[key]] for a string [key] *)
Definition getitem (key : str) (x : value) : result value :=
  match x with
  | Object d =>
      match lookup key d with
      | Some v => Return v
      | None => Throw KeyError
      end
  | _ => Throw TypeError
  end.

(** [x[key] = v] for a string [key] *)
Definition setitem (key : str) (v : value) (x : value) : result value :=
  match x with
  | Object d => Return (Object (store key v d))
  | _ => Throw TypeError
  end.

(** [x.items()] *)
Definition items (x : value) : result dict :=
  match x with
  | Object d => Return d
  | _ => Throw AttributeError
  end.

(** [x.get(key, default)] *)
Definition get (key : str) (dflt : value) (x : value) : result value :=
  match x with
  | Object d => Return (default dflt (lookup key d))
  | _ => Throw AttributeError
  end.

(** [x == False]: [False] equals itself and the numbers zero. *)
Definition eq_False (x : value) : bool :=
  match x with
  | Bool b => negb b
  | Int n => bool_decide (n = 0)
  | Float (Finite q) => Qeq_bool q 0
  | _ => false
  end.

(** The truth value of [x] in a condition. *)
Definition truthy (x : value) : bool :=
  match x with
  | Null => false
  | Bool b => b
  | Int n => negb (bool_decide (n = 0))
  | Float (Finite q) => negb (Qeq_bool q 0)
  | Float _ => true
  | String s => negb (bool_decide (s = []))
  | Array l => negb (bool_decide (l = []))
  | Object d => negb (bool_decide (d = []))
  end.

End Json.

(** ** String formatting *)

Module Format.

Definition space : char := 32%N.
Definition zero : char := 48%N.

(** The decimal digits of [u], most significant first. *)
Fixpoint of_uint (u : Decimal.uint) : str :=
  match u with
  | Decimal.Nil => []
  | Decimal.D0 u => 48%N :: of_uint u
  | Decimal.D1 u => 49%N :: of_uint u
  | Decimal.D2 u => 50%N :: of_uint u
  | Decimal.D3 u => 51%N :: of_uint u
  | Decimal.D4 u => 52%N :: of_uint u
  | Decimal.D5 u => 53%N :: of_uint u
  | Decimal.D6 u => 54%N :: of_uint u
  | Decimal.D7 u => 55%N :: of_uint u
  | Decimal.D8 u => 56%N :: of_uint u
  | Decimal.D9 u => 57%N :: of_uint u
  end.

(** [str(n)], also [f"{n}"], for an [int] that is not negative. *)
Definition decimal (n : N) : str := of_uint (N.to_uint n).

(** [f"{s:<width}"]: [s] with spaces after it up to [width]. *)
Definition ljust (width : nat) (s : str) : str :=
  s ++ replicate (width - length s) space.

(** [f"{x:.4f}"]: the decimal with four places nearest to the exact
    value of [x], ties to even, with the sign of [x]. *)
Definition fixed4 (x : Float.float) : str :=
  let magnitude := if Qle_bool 0 x then x else (- x)%Q in
  let n := Z.to_N (Float.rne (magnitude * inject_Z 10000)) in
  let fraction := decimal (n mod 10000) in
  (if Qle_bool 0 x then [] else py "-")
  ++ decimal (n / 10000) ++ py "."
  ++ replicate (4 - length fraction) zero ++ fraction.

(** [sep.join(lines)] *)
Fixpoint join (sep : str) (lines : list str) : str :=
  match lines with
  | [] => []
  | [line] => line
  | line :: lines' => line ++ sep ++ join sep lines'
  end.

End Format.

(** ** The script *)

Module ExtractAssembly.

Import Py.

(** What the script has done, in the order in which it did it: every
    event is one call that returned.
    - [MakeDirs path]: [os.makedirs(path, exist_ok=True)], which makes
      the directory [path] and those of its ancestors that are missing;
    - [Open path]: [open(path, 'w')]; the file exists and is empty;
    - [WriteText path text]: [f.write(text)] and the close of the file,
      which now holds [text];
    - [WriteJson path document]: [json.dump(document, f, indent=2,
      ensure_ascii=False)] and the close of the file;
    - [Print text]: [print(text)]. *)
Inductive event :=
| MakeDirs (path : str)
| Open (path : str)
| WriteText (path : str) (text : str)
| WriteJson (path : str) (document : Json.value)
| Print (text : str).

(** The events so far and the three counters of the script. *)
Record state := State {
  events : list event;
  total_problems : Z;
  compiled_problems : Z;
  files_generated : Z
}.

(** A piece of the script: it changes the state and returns a value or
    raises; the state reached when it raises is kept, as the files
    written before an exception stay on disk. *)
Definition script (A : Type) : Type := state → state * result A.

Definition script_ret {A} (a : A) : script A := λ s, (s, Return a).

Definition script_bind {A B} (f : A → script B) (m : script A) : script B :=
  λ s, match m s with
       | (s', Return a) => f a s'
       | (s', Throw e) => (s', Throw e)
       end.

#[global] Instance script_mret : MRet script := @script_ret.
#[global] Instance script_mbind : MBind script := @script_bind.

Definition lift {A} (r : result A) : script A := λ s, (s, r).

Definition record (e : event) (s : state) : state :=
  State (events s ++ [e]) (total_problems s) (compiled_problems s) (files_generated s).

Definition count_problem : script unit :=
  λ s, (State (events s) (total_problems s + 1) (compiled_problems s)
          (files_generated s), Return ()).

Definition count_compiled : script unit :=
  λ s, (State (events s) (total_problems s) (compiled_problems s + 1)
          (files_generated s), Return ()).

Definition count_file : script unit :=
  λ s, (State (events s) (total_problems s) (compiled_problems s)
          (files_generated s + 1), Return ()).

(** [for x in xs: acc = body(acc, x)] *)
Fixpoint for_items {A B} (body : B → A → script B) (xs : list A) (acc : B) : script B :=
  match xs with
  | [] => mret acc
  | x :: xs' => acc ← body acc x; for_items body xs' acc
  end.

Definition fence_open : str := py "```assembly".
Definition fence_open_line : str := py "```assembly" ++ [Str.newline].
Definition fence : str := py "```".

Arguments fence_open : simpl never.
Arguments fence_open_line : simpl never.
Arguments fence : simpl never.

(** Lines 89-92: the markdown code block markers around the reference
    assembly are removed. *)
Definition strip_code_fence (unopt_asm : str) : result str :=
  unopt_asm ← (if Substr.startswith fence_open unopt_asm
               then item (Substr.split1 fence_open_line unopt_asm) 1
               else Return unopt_asm);
  unopt_asm ← (if Substr.endswith fence unopt_asm
               then item (Substr.rsplit1 fence unopt_asm) 0
               else Return unopt_asm);
  Return unopt_asm.

(** [unopt_asm.startswith] exists on a [str] only. *)
Definition strip_code_fence_of (unopt_asm : Json.value) : result Json.value :=
  match unopt_asm with
  | Json.String s => s ← strip_code_fence s; Return (Json.String s)
  | _ => Throw AttributeError
  end.

Definition generated_assembly : str := py "generated_assembly".
Definition generated_assembly_file : str := py "generated_assembly_file".
Definition unoptimized_assembly : str := py "unoptimized_assembly".
Definition compilation_failed : str := py "compilation_failed".

Arguments generated_assembly : simpl never.
Arguments generated_assembly_file : simpl never.
Arguments unoptimized_assembly : simpl never.
Arguments compilation_failed : simpl never.

(** [f"sample_{sample_id}_generated.s"] *)
Definition sample_file (sample_id : str) : str :=
  py "sample_" ++ sample_id ++ py "_generated.s".

(** [f"problem_{problem_id}"] *)
Definition problem_folder (problem_id : str) : str := py "problem_" ++ problem_id.

(** [f"  Generated file: {filename}"] *)
Definition generated_file_line (filename : str) : str :=
  py "  Generated file: " ++ filename.

(** [f"{'='*60}"] *)
Definition rule : str := replicate 60 61%N.

Arguments rule : simpl never.

(** [f"{n}"] for a counter *)
Definition counter (n : Z) : str := Format.decimal (Z.to_N n).

(** Lines 62-66: every field of the sample but the assembly text. *)
Definition copy_fields (sample_data : Json.dict) : Json.dict :=
  foldl (λ sample_info '(key, val),
           if bool_decide (key ≠ generated_assembly)
           then Json.store key val sample_info
           else sample_info)
        [] sample_data.

(** The file named on the command line: absent, present but not
    loadable as JSON, or a document. *)
Inductive input :=
| Missing
| Unloadable
| Document (data : Json.value).

(** How the script ends. *)
Inductive status :=
| Completed
| Exited (code : Z)
| Crashed (e : error).

Definition initial : state := State [] 0 0 0.

(** Line 16: the second argument, or the default directory. *)
Definition output_dir (argv : list str) : str :=
  match argv !! 2%nat with
  | Some dir => dir
  | None => py "assembly_output"
  end.

Section environment.

(** The environment of a run: [fails done e] tells whether, after the
    events [done], the call that [e] stands for raises instead of
    returning.  Nothing is assumed of it: a directory that cannot be
    made, a file that cannot be opened, a text that cannot be encoded,
    a full disk or a closed standard output are all environments. *)
Context (fails : list event → event → bool).

(** One call to the operating system or to [print]. *)
Definition perform (e : event) : script unit :=
  λ s, if fails (events s) e then (s, Throw EffectError) else (record e s, Return ()).

(** [with open(path, 'w') as f: f.write(text)]: [write] accepts a [str]
    only; the file is open, and so empty, when it refuses.  When the
    write or the close raises, what the file holds is not known. *)
Definition write_text (path : str) (text : Json.value) : script unit :=
  _ ← perform (Open path);
  match text with
  | Json.String s => perform (WriteText path s)
  | _ => lift (Throw TypeError)
  end.

(** [with open(path, 'w', encoding='utf-8') as f: json.dump(document, f,
    indent=2, ensure_ascii=False)] *)
Definition write_json (path : str) (document : Json.value) : script unit :=
  _ ← perform (Open path);
  perform (WriteJson path document).

(** Lines 60-82, one turn of the loop over the samples.  [sample_info]
    is the object stored in [samples_data] under [sample_id]: the
    assignment on line 82 changes that stored object. *)
Definition process_sample (problem_dir : str) (samples_data : Json.dict)
    (sample : str * Json.value) : script Json.dict :=
  let '(sample_id, sample_data) := sample in
  fields ← lift (Json.items sample_data);
  let sample_info := copy_fields fields in
  let samples_data := Json.store sample_id (Json.Object sample_info) samples_data in
  present ← lift (Json.contains generated_assembly sample_data);
  if present : bool
  then
    generated_asm ← lift (Json.getitem generated_assembly sample_data);
    let gen_filename := Substr.join problem_dir (sample_file sample_id) in
    _ ← write_text gen_filename generated_asm;
    _ ← perform (Print (generated_file_line gen_filename));
    _ ← count_file;
    let sample_info :=
      Json.store generated_assembly_file (Json.String (sample_file sample_id))
        sample_info in
    mret (Json.store sample_id (Json.Object sample_info) samples_data)
  else mret samples_data.

(** Lines 44-118, one turn of the loop over the problems. *)
Definition process_problem (output_dir : str) (problem : str * Json.value) :
    script unit :=
  let '(problem_id, problem_data) := problem in
  _ ← count_problem;
  failed ← lift (Json.get compilation_failed Json.Null problem_data);
  if Json.eq_False failed
  then
    _ ← count_compiled;
    _ ← perform (Print (py "Processing problem " ++ problem_id ++ py "..."));
    let problem_dir := Substr.join output_dir (problem_folder problem_id) in
    _ ← perform (MakeDirs problem_dir);
    present ← lift (Json.contains (py "samples") problem_data);
    samples_data ←
      (if present : bool
       then
         samples ← lift (Json.getitem (py "samples") problem_data);
         samples ← lift (Json.items samples);
         for_items (process_sample problem_dir) samples []
       else mret []);
    present ← lift (Json.contains unoptimized_assembly problem_data);
    _ ← (if present : bool
         then
           unopt_asm ← lift (Json.getitem unoptimized_assembly problem_data);
           unopt_asm ← lift (strip_code_fence_of unopt_asm);
           let unopt_filename := Substr.join problem_dir (py "unoptimized.s") in
           _ ← write_text unopt_filename unopt_asm;
           _ ← perform (Print (generated_file_line unopt_filename));
           count_file
         else mret ());
    failed ← lift (Json.get compilation_failed Json.Null problem_data);
    best_sample_id ← lift (Json.get (py "best_sample_id") Json.Null problem_data);
    overall_correct ← lift (Json.get (py "overall_correct") Json.Null problem_data);
    best_speedup ← lift (Json.get (py "best_speedup") Json.Null problem_data);
    let samples_json :=
      Json.Object
        [(py "problem_id", Json.String problem_id);
         (compilation_failed, failed);
         (py "best_sample_id", best_sample_id);
         (py "overall_correct", overall_correct);
         (py "best_speedup", best_speedup);
         (py "unoptimized_assembly_file", Json.String (py "unoptimized.s"));
         (py "samples", Json.Object samples_data)] in
    let samples_json_file := Substr.join problem_dir (py "samples.json") in
    _ ← write_json samples_json_file samples_json;
    _ ← perform (Print (generated_file_line samples_json_file));
    _ ← count_file;
    perform (Print [])
  else mret ().

(** Lines 39-43, one turn of the outer loop. *)
Definition process_group (output_dir : str) (group : str * Json.value) : script unit :=
  let '(key, value) := group in
  present ← lift (Json.contains (py "problems") value);
  if present : bool
  then
    problems ← lift (Json.getitem (py "problems") value);
    problems ← lift (Json.items problems);
    for_items (λ _, process_problem output_dir) problems ()
  else mret ().

(** Lines 30-118: the output directory is created and the document is
    walked. *)
Definition extract (data : Json.value) (output_dir : str) : script unit :=
  _ ← perform (MakeDirs output_dir);
  _ ← perform (Print (py "Output directory: " ++ output_dir ++ [Str.newline]));
  groups ← lift (Json.items data);
  for_items (λ _, process_group output_dir) groups ().

(** Lines 120-126: the statistics. *)
Definition summary (output_dir : str) : script unit :=
  λ s,
    (_ ← perform (Print rule);
     _ ← perform (Print (py "Complete!"));
     _ ← perform (Print (py "Total problems: " ++ counter (total_problems s)));
     _ ← perform (Print (py "Successfully compiled problems: "
                         ++ counter (compiled_problems s)));
     _ ← perform (Print (py "Total files generated: " ++ counter (files_generated s)));
     _ ← perform (Print (py "All files saved to directory: '" ++ output_dir ++ py "'"));
     perform (Print rule)) s.

(** Lines 9-11 *)
Definition usage : script unit :=
  _ ← perform (Print (py "Usage: python extract_assembly.py <json_file_path> "
                      ++ py "[output_directory]"));
  _ ← perform (Print (py "Example: python extract_assembly.py untitled.json"));
  perform (Print (py "Example: python extract_assembly.py data.json output_folder")).

(** The script ends as [ending] says once [m] has returned, and in the
    exception of [m] when it raises. *)
Definition ends (m : script unit) (ending : status) : state * status :=
  match m initial with
  | (s, Return _) => (s, ending)
  | (s, Throw e) => (s, Crashed e)
  end.

(** The whole script, run with the command line [argv] where [file]
    tells what each path holds. *)
Definition main (argv : list str) (file : str → input) : state * status :=
  match argv with
  | _ :: json_file :: _ =>
      match file json_file with
      | Missing =>
          ends (perform (Print (py "Error: File '" ++ json_file
                                ++ py "' does not exist!")))
               (Exited 1)
      | Unloadable =>
          ends (perform (Print (py "Reading file: " ++ json_file))) (Crashed LoadError)
      | Document data =>
          ends (_ ← perform (Print (py "Reading file: " ++ json_file));
                _ ← extract data (output_dir argv);
                summary (output_dir argv))
               Completed
      end
  | _ => ends usage (Exited 1)
  end.

End environment.

(** The environment in which every call returns. *)
Definition calm : list event → event → bool := λ _ _, false.

(** *** Reference definitions *)

(** The path that an event is about. *)
Definition path_of (e : event) : option str :=
  match e with
  | MakeDirs p | Open p | WriteText p _ | WriteJson p _ => Some p
  | Print _ => None
  end.

Definition is_write (e : event) : bool :=
  match e with
  | WriteText _ _ | WriteJson _ _ => true
  | _ => false
  end.

Definition is_write_json (e : event) : bool :=
  match e with
  | WriteJson _ _ => true
  | _ => false
  end.

(** The number of writes of a file that were completed, and of
    [samples.json] documents among them.  A path that is written twice
    counts twice. *)
Definition written (s : state) : Z := Z.of_nat (length (filter is_write (events s))).
Definition documents (s : state) : Z :=
  Z.of_nat (length (filter is_write_json (events s))).

(** The path arguments of the script: those of [os.makedirs] are the
    output directory and [os.path.join(output_dir, "problem_<id>")];
    those of [open] are a file name joined to the latter. *)
Definition file_in_problem_dir (output_dir path : str) (names : str → Prop) : Prop :=
  ∃ problem_id name,
    path = Substr.join (Substr.join output_dir (problem_folder problem_id)) name
    ∧ names name.

Definition assembly_name (name : str) : Prop :=
  name = py "unoptimized.s" ∨ ∃ sample_id, name = sample_file sample_id.

Definition path_ok (output_dir : str) (e : event) : Prop :=
  match e with
  | MakeDirs p =>
      p = output_dir ∨ ∃ problem_id, p = Substr.join output_dir (problem_folder problem_id)
  | Open p =>
      file_in_problem_dir output_dir p (λ name, assembly_name name ∨ name = py "samples.json")
  | WriteText p _ => file_in_problem_dir output_dir p assembly_name
  | WriteJson p _ => file_in_problem_dir output_dir p (λ name, name = py "samples.json")
  | Print _ => True
  end.

(** A sample as [samples.json] records it: an object without the
    assembly text. *)
Definition sample_info_ok (v : Json.value) : Prop :=
  ∃ info, v = Json.Object info ∧ Json.lookup generated_assembly info = None.

Definition samples_ok (samples_data : Json.dict) : Prop :=
  Forall (λ kv, sample_info_ok kv.2) samples_data.

(** A [samples.json] document: the seven fields of lines 102-110 in
    their order, for a problem that compiled. *)
Definition document_ok (document : Json.value) : Prop :=
  ∃ problem_id failed best_sample_id overall_correct best_speedup samples_data,
    document =
      Json.Object
        [(py "problem_id", Json.String problem_id);
         (compilation_failed, failed);
         (py "best_sample_id", best_sample_id);
         (py "overall_correct", overall_correct);
         (py "best_speedup", best_speedup);
         (py "unoptimized_assembly_file", Json.String (py "unoptimized.s"));
         (py "samples", Json.Object samples_data)]
    ∧ Json.eq_False failed = true
    ∧ samples_ok samples_data.

Definition event_ok (output_dir : str) (e : event) : Prop :=
  path_ok output_dir e
  ∧ match e with
    | WriteJson _ document => document_ok document
    | _ => True
    end.

(** The counters against the events.  [pending] is 1 while a compiled
    problem is being processed, between the increment of
    [compiled_problems] and the write of its [samples.json];
    [unreported] is 1 between the write of a file and the increment of
    [files_generated]. *)
Definition invariant (output_dir : str) (pending unreported : Z) (s : state) : Prop :=
  compiled_problems s = documents s + pending
  ∧ compiled_problems s ≤ total_problems s
  ∧ files_generated s + unreported = written s
  ∧ Forall (event_ok output_dir) (events s).

(** What holds in whichever state the script stops. *)
Definition stopped_ok (output_dir : str) (s : state) : Prop :=
  ∃ pending unreported,
    0 ≤ pending ≤ 1 ∧ 0 ≤ unreported ≤ 1 ∧ invariant output_dir pending unreported s.

(** What holds when the script raises: the exception is not a
    [KeyError]. *)
Definition raised_ok (output_dir : str) (e : error) (s : state) : Prop :=
  e ≠ KeyError ∧ stopped_ok output_dir s.

(** The statistics of lines 122-124 were printed, and they show the
    counters. *)
Definition reported (s : state) : Prop :=
  Print (py "Total problems: " ++ counter (total_problems s)) ∈ events s
  ∧ Print (py "Successfully compiled problems: " ++ counter (compiled_problems s))
    ∈ events s
  ∧ Print (py "Total files generated: " ++ counter (files_generated s)) ∈ events s.

(** *** Documents of the expected shape *)

(** A sample is an object whose assembly, when it has one, is a
    string. *)
Definition valid_sample (sample : str * Json.value) : bool :=
  match sample.2 with
  | Json.Object fields =>
      match Json.lookup generated_assembly fields with
      | Some (Json.String _) | None => true
      | Some _ => false
      end
  | _ => false
  end.

(** A reference assembly is a string that, when it starts with the
    opening marker, holds the marker followed by a newline. *)
Definition valid_reference (text : Json.value) : bool :=
  match text with
  | Json.String s =>
      negb (Substr.startswith fence_open s) || Substr.contains fence_open_line s
  | _ => false
  end.

(** The problems that line 47 lets through. *)
Definition compiled (problem : str * Json.value) : bool :=
  match problem.2 with
  | Json.Object fields =>
      Json.eq_False (default Json.Null (Json.lookup compilation_failed fields))
  | _ => false
  end.

(** A problem is an object; when it compiled, its samples are an object
    of valid samples and its reference assembly is valid. *)
Definition valid_problem (problem : str * Json.value) : bool :=
  match problem.2 with
  | Json.Object fields =>
      negb (compiled problem)
      || match Json.lookup (py "samples") fields with
         | None => true
         | Some (Json.Object samples) => forallb valid_sample samples
         | Some _ => false
         end
         && match Json.lookup unoptimized_assembly fields with
            | None => true
            | Some text => valid_reference text
            end
  | _ => false
  end.

Definition problems_in (group : str * Json.value) : list (str * Json.value) :=
  match group.2 with
  | Json.Object fields =>
      match Json.lookup (py "problems") fields with
      | Some (Json.Object problems) => problems
      | _ => []
      end
  | _ => []
  end.

Definition valid_group (group : str * Json.value) : bool :=
  match group.2 with
  | Json.Object fields =>
      match Json.lookup (py "problems") fields with
      | None => true
      | Some (Json.Object problems) => forallb valid_problem problems
      | Some _ => false
      end
  | _ => false
  end.

(** The document is an object of groups, each an object that may hold
    an object of problems. *)
Definition valid_document (data : Json.value) : bool :=
  match data with
  | Json.Object groups => forallb valid_group groups
  | _ => false
  end.

(** All problems of the document, in the order in which the script
    meets them. *)
Definition problems_of (data : Json.value) : list (str * Json.value) :=
  match data with
  | Json.Object groups => concat (problems_in <$> groups)
  | _ => []
  end.

(** [m], started in a state that satisfies [P], either returns [a] in a
    state that satisfies [Q a] or raises [e] in a state that satisfies
    [R e]. *)
Definition triple {A} (P : state → Prop) (m : script A) (Q : A → state → Prop)
    (R : error → state → Prop) : Prop :=
  ∀ s, P s →
    match m s with
    | (s', Return a) => Q a s'
    | (s', Throw e) => R e s'
    end.

(** *** An example dump *)

Definition ret_text : str := py "ret" ++ [Str.newline].

Definition fenced_text : str :=
  fence_open_line ++ py "nop" ++ [Str.newline] ++ ret_text ++ fence.

(** Two problems in one group; the first compiled and has one sample,
    the second did not compile. *)
Definition dump : Json.value :=
  Json.Object
    [(py "run_1",
      Json.Object
        [(py "model", Json.String (py "m"));
         (py "problems",
          Json.Object
            [(py "7",
              Json.Object
                [(compilation_failed, Json.Bool false);
                 (py "best_sample_id", Json.Int 0);
                 (py "samples",
                  Json.Object
                    [(py "0",
                      Json.Object
                        [(py "correct", Json.Bool true);
                         (generated_assembly, Json.String ret_text)])]);
                 (unoptimized_assembly, Json.String fenced_text)]);
             (py "8", Json.Object [(compilation_failed, Json.Bool true)])])])].

Definition dump_file (path : str) : input :=
  if bool_decide (path = py "dump.json") then Document dump else Missing.

Definition command_line : list str :=
  [py "extract_assembly.py"; py "dump.json"; py "out"].

(** An environment in which the standard output is closed once a file
    has been written. *)
Definition closed_output : list event → event → bool :=
  λ done e, match e with
            | Print _ => existsb is_write done
            | _ => false
            end.

(** An environment in which [os.makedirs] refuses the empty path. *)
Definition refuses_empty_path : list event → event → bool :=
  λ done e, match e with
            | MakeDirs p => bool_decide (p = [])
            | _ => false
            end.

End ExtractAssembly.

(** * The batch driver: [process_all_problems] *)

(** The order of [str]: by code points, a proper prefix first. *)
Fixpoint str_le (a b : str) : bool :=
  match a, b with
  | [], _ => true
  | _ :: _, [] => false
  | x :: a', y :: b' => (x <? y)%N || (x =? y)%N && str_le a' b'
  end.

(** One entry of the list that [process_all_problems] returns.
    [correct] is whatever the document holds under that key, [False]
    by default. *)
Record problem_result := {
  problem_id : str;
  similarity : SimilarityResult;
  correct : Json.value
}.

(** The dictionary of the three ratios as a JSON value. *)
Definition similarity_json (r : SimilarityResult) : Json.value :=
  Json.Object
    [(py "line_similarity", Json.Float (Json.Finite (line_similarity r)));
     (py "instruction_similarity", Json.Float (Json.Finite (instruction_similarity r)));
     (py "overall_similarity", Json.Float (Json.Finite (overall_similarity r)))].

(** [data.get('samples', {}).get(sample_key, {}).get('correct', False)] *)
Definition correct_flag (sample_key : str) (data : Json.value) : Py.result Json.value :=
  samples ← Json.get (py "samples") (Json.Object []) data;
  sample ← Json.get sample_key (Json.Object []) samples;
  Json.get (py "correct") (Json.Bool false) sample.

(** Lines 156-158 on the loaded document: the document after the
    assignment and the value of [correct].  The assignment changes the
    object found at [data['samples'][sample_key]] where it stands. *)
Definition update_sample (sample_key : str) (similarity : Json.value)
    (data : Json.value) : Py.result (Json.value * Json.value) :=
  present ← Json.contains (py "samples") data;
  present ← (if present : bool
             then samples ← Json.getitem (py "samples") data;
                  Json.contains sample_key samples
             else Py.Return false);
  if present : bool
  then
    samples ← Json.getitem (py "samples") data;
    sample ← Json.getitem sample_key samples;
    sample ← Json.setitem (py "similarity") similarity sample;
    samples ← Json.setitem sample_key sample samples;
    data ← Json.setitem (py "samples") samples data;
    correct ← correct_flag sample_key data;
    Py.Return (data, correct)
  else Py.Return (data, Json.Bool false).

(** [path.exists()] and [path.is_dir()] in an environment in which the
    two methods raise nothing and answer as opening the path tells: a
    missing path raises [FileNotFoundError], a directory raises
    [IsADirectoryError].  The module [Driver] below has the function in
    any environment. *)
Definition path_exists (fs : filesystem) (p : str) : bool :=
  match fs p with
  | Unreadable FileNotFoundError => false
  | _ => true
  end.

Definition is_dir (fs : filesystem) (p : str) : bool :=
  match fs p with
  | Unreadable IsADirectoryError => true
  | _ => false
  end.

(** The file system after [lines] have been written to [p]. *)
Definition write_lines (fs : filesystem) (p : str) (lines : list str) : filesystem :=
  λ q, if decide (q = p) then Lines lines else fs q.

Section batch.

(** [pathlib] and [json] are taken as they come: [Path(s)], [p / name]
    and [str(p)]; the names that [p.iterdir()] yields, or the exception
    it raises; the document that [json.load] reads from the lines of a
    file, if it is one; the lines that [json.dump(data, f, indent=2,
    ensure_ascii=False)] writes; whether a path can be opened for
    writing.  What the function prints is left out here, and no [print]
    raises; the module [Driver] below has the messages. *)
Context {path : Type}.
Context (Path : str → path) (child : path → str → path) (path_str : path → str).
Context (iterdir : path → res (list str)).
Context (json_load : list str → option Json.value).
Context (json_dump : Json.value → list str).
Context (writable : str → bool).

(** Lines 126-127: the entries of the base directory that are
    directories and whose name starts with the prefix, sorted.  Paths
    below one directory are ordered as their names. *)
Definition problem_dirs (fs : filesystem) (base_path : path) (dir_prefix : str)
    (names : list str) : list str :=
  merge_sort (λ a b, str_le a b)
    (filter (λ name, is_dir fs (path_str (child base_path name))
                     && Substr.startswith dir_prefix name) names).

(** Lines 150-165: the document is loaded, changed and written back;
    whatever is raised on the way is caught, and [correct] keeps the
    value it has then. *)
Definition update_json_file (fs : filesystem) (json_file_path sample_key : str)
    (similarity : SimilarityResult) : filesystem * Json.value :=
  match fs json_file_path with
  | Lines text =>
      match json_load text with
      | Some data =>
          match update_sample sample_key (similarity_json similarity) data with
          | Py.Return (data, correct) =>
              (if writable json_file_path
               then write_lines fs json_file_path (json_dump data)
               else fs,
               correct)
          | Py.Throw _ => (fs, Json.Bool false)
          end
      | None => (fs, Json.Bool false)
      end
  | Unreadable _ => (fs, Json.Bool false)
  end.

(** Lines 166-173: the document is only read. *)
Definition read_json_file (fs : filesystem) (json_file_path sample_key : str) :
    Json.value :=
  match fs json_file_path with
  | Lines text =>
      match json_load text with
      | Some data =>
          match correct_flag sample_key data with
          | Py.Return correct => correct
          | Py.Throw _ => Json.Bool false
          end
      | None => Json.Bool false
      end
  | Unreadable _ => Json.Bool false
  end.

(** Lines 136-181, one turn of the loop: the file system afterwards and
    the entry appended to [results], none when the directory is
    skipped; an exception of [calculate_similarity] is not caught. *)
Definition process_dir (fs : filesystem) (base_path : path)
    (generated_file unoptimized_file samples_json sample_key : str)
    (update_json : bool) (name : str) : filesystem * res (option problem_result) :=
  let problem_dir := child base_path name in
  let problem_id := name in
  let gen_file_path := path_str (child problem_dir generated_file) in
  let unopt_file_path := path_str (child problem_dir unoptimized_file) in
  let json_file_path := path_str (child problem_dir samples_json) in
  if negb (path_exists fs gen_file_path) || negb (path_exists fs unopt_file_path)
  then (fs, Ok None)
  else
    match calculate_similarity fs gen_file_path unopt_file_path with
    | Ok similarity =>
        let '(fs, correct) :=
          if path_exists fs json_file_path && update_json
          then update_json_file fs json_file_path sample_key similarity
          else if path_exists fs json_file_path
          then (fs, read_json_file fs json_file_path sample_key)
          else (fs, Json.Bool false) in
        (fs, Ok (Some {| problem_id := problem_id;
                         similarity := similarity;
                         correct := correct |}))
    | Raise e => (fs, Raise e)
    | Diverge => (fs, Diverge)
    end.

(** Lines 135-183: the loop over the problem directories. *)
Fixpoint process_dirs (fs : filesystem) (base_path : path)
    (generated_file unoptimized_file samples_json sample_key : str)
    (update_json : bool) (dirs : list str) (results : list problem_result) :
    filesystem * res (list problem_result) :=
  match dirs with
  | [] => (fs, Ok results)
  | name :: dirs' =>
      match process_dir fs base_path generated_file unoptimized_file samples_json
              sample_key update_json name with
      | (fs, Ok (Some result)) =>
          process_dirs fs base_path generated_file unoptimized_file samples_json
            sample_key update_json dirs' (results ++ [result])
      | (fs, Ok None) =>
          process_dirs fs base_path generated_file unoptimized_file samples_json
            sample_key update_json dirs' results
      | (fs, Raise e) => (fs, Raise e)
      | (fs, Diverge) => (fs, Diverge)
      end
  end.

Definition process_all_problems (fs : filesystem)
    (base_dir dir_prefix generated_file unoptimized_file samples_json sample_key : str)
    (update_json : bool) : filesystem * res (list problem_result) :=
  let base_path := Path base_dir in
  if negb (path_exists fs (path_str base_path))
  then (fs, Ok [])
  else
    match iterdir base_path with
    | Ok names =>
        let problem_dirs := problem_dirs fs base_path dir_prefix names in
        if bool_decide (problem_dirs = [])
        then (fs, Ok [])
        else process_dirs fs base_path generated_file unoptimized_file samples_json
               sample_key update_json problem_dirs []
    | Raise e => (fs, Raise e)
    | Diverge => (fs, Diverge)
    end.

(** *** Reference definitions *)

(** The three paths that one turn of the loop looks at. *)
Definition dir_paths (base_path : path)
    (generated_file unoptimized_file samples_json name : str) : list str :=
  [path_str (child (child base_path name) generated_file);
   path_str (child (child base_path name) unoptimized_file);
   path_str (child (child base_path name) samples_json)].

(** The entries that [f] gives for the directories, in order, up to the
    first exception. *)
Fixpoint collect {A} (f : str → res (option A)) (dirs : list str) : res (list A) :=
  match dirs with
  | [] => Ok []
  | name :: dirs' => r ← f name; rs ← collect f dirs'; Ok (option_list r ++ rs)
  end.

End batch.

(** *** An example directory *)

(** Paths as plain strings, joined by a slash. *)
Definition slash_child (p name : str) : str := p ++ [Substr.slash] ++ name.

Definition runs_listing (p : str) : res (list str) :=
  if bool_decide (p = py "runs")
  then Ok [py "problem_2"; py "notes"; py "problem_1"; py "problem_3"]
  else Raise FileNotFoundError.

(** The document of the first problem. *)
Definition sidecar : Json.value :=
  Json.Object
    [(py "problem_id", Json.String (py "1"));
     (py "samples",
      Json.Object
        [(py "0",
          Json.Object
            [(py "correct", Json.Bool true);
             (py "generated_assembly_file", Json.String (py "sample_0_generated.s"))])])].

(** [problem_1] is complete, [problem_2] has no document, [problem_3]
    lacks the reference assembly, [notes] does not match the prefix. *)
Definition runs : filesystem :=
  λ p,
    if bool_decide (p ∈ [py "runs"; py "runs/problem_1"; py "runs/problem_2";
                         py "runs/problem_3"; py "runs/notes"])
    then Unreadable IsADirectoryError
    else if bool_decide (p = py "runs/problem_1/sample_0_generated.s")
    then Lines [py "f:" ++ [Str.newline]; py "  mov eax, 1" ++ [Str.newline]; py "  ret"]
    else if bool_decide (p = py "runs/problem_1/unoptimized.s")
    then Lines [py "f:" ++ [Str.newline]; py "  push rbp" ++ [Str.newline];
                py "  mov eax, 1" ++ [Str.newline]; py "  ret"]
    else if bool_decide (p = py "runs/problem_1/samples.json")
    then Lines [py "sidecar"]
    else if bool_decide (p = py "runs/problem_2/sample_0_generated.s")
    then Lines [py "ret"]
    else if bool_decide (p = py "runs/problem_2/unoptimized.s")
    then Lines [py "ret"]
    else if bool_decide (p = py "runs/problem_3/sample_0_generated.s")
    then Lines [py "ret"]
    else Unreadable FileNotFoundError.

(** A stand-in for the [json] module on this directory: one text that
    loads, and the texts of the updated documents told apart only by
    their name. *)
Definition runs_load (text : list str) : option Json.value :=
  if bool_decide (text = [py "sidecar"]) then Some sidecar else None.

Definition runs_dump (data : Json.value) : list str := [py "sidecar, updated"].

(** The call with the default arguments of the command line. *)
Definition process_runs (update_json : bool) : filesystem * res (list problem_result) :=
  process_all_problems (λ p, p) slash_child (λ p, p) runs_listing runs_load runs_dump
    (λ _, true) runs (py "runs") (py "problem_") (py "sample_0_generated.s")
    (py "unoptimized.s") (py "samples.json") (py "0") update_json.

(** ** The batch driver in its environment *)

(** [process_all_problems] once more, with what its environment can do
    to it: [Path.exists] and [Path.is_dir] return a boolean or raise
    (they pass on an [OSError] that does not stand for a missing
    entry), and every [print] returns or raises.  The definitions above
    are this function in an environment in which the two methods answer
    as the files tell and nothing raises. *)
Module Driver.

(** What the function prints, one message for each [print] of the
    source: lines 120, 130, 133, 142, 165 and 181.  The text that line
    165 shows after the problem id is that of the exception caught. *)
Inductive message :=
| DirectoryMissing (base_dir : str)
| NoDirectories (dir_prefix base_dir : str)
| Found (count : nat)
| Skipping (problem_id generated_file unoptimized_file : str)
| JsonFailed (problem_id : str)
| Scored (problem_id : str) (overall : Float.float).

(** The files and what was printed so far. *)
Record world := World {
  files : filesystem;
  printed : list message
}.

(** A piece of the function: it changes the world and returns a value
    or raises; the world reached when it raises is kept. *)
Definition action (A : Type) : Type := world → world * res A.

Definition action_ret {A} (a : A) : action A := λ w, (w, Ok a).

Definition action_bind {A B} (f : A → action B) (m : action A) : action B :=
  λ w, match m w with
       | (w', Ok a) => f a w'
       | (w', Raise e) => (w', Raise e)
       | (w', Diverge) => (w', Diverge)
       end.

#[global] Instance action_mret : MRet action := @action_ret.
#[global] Instance action_mbind : MBind action := @action_bind.

(** A computation that reads the files. *)
Definition reads {A} (f : filesystem → res A) : action A := λ w, (w, f (files w)).

(** A computation that changes the files. *)
Definition writes {A} (f : filesystem → filesystem * A) : action A :=
  λ w, (World (f (files w)).1 (printed w), Ok (f (files w)).2).

Section environment.

(** [pathlib] and [json] as in the section above; [exists] and [is_dir]
    tell what [p.exists()] and [p.is_dir()] give for the path [str(p)]
    with the files as they are; [print_raises done m] is the exception,
    if any, that the [print] of [m] raises after the messages
    [done]. *)
Context {path : Type}.
Context (Path : str → path) (child : path → str → path) (path_str : path → str).
Context (iterdir : path → res (list str)).
Context (json_load : list str → option Json.value).
Context (json_dump : Json.value → list str).
Context (writable : str → bool).
Context (exists_ : filesystem → str → res bool).
Context (is_dir_ : filesystem → str → res bool).
Context (print_raises : list message → message → option exn).

Definition print (m : message) : action unit :=
  λ w, match print_raises (printed w) m with
       | Some e => (w, Raise e)
       | None => (World (files w) (printed w ++ [m]), Ok ())
       end.

(** Lines 126-127, the list comprehension: [d.is_dir()] is asked of
    every entry, before its name is looked at. *)
Fixpoint select (base_path : path) (dir_prefix : str) (names : list str) :
    action (list str) :=
  match names with
  | [] => mret []
  | name :: names' =>
      d ← reads (λ fs, is_dir_ fs (path_str (child base_path name)));
      rest ← select base_path dir_prefix names';
      mret (if (d : bool) && Substr.startswith dir_prefix name
            then name :: rest else rest)
  end.

(** Whether the [try] block of lines 151-162 raises. *)
Definition update_raises (fs : filesystem) (json_file_path sample_key : str)
    (similarity : SimilarityResult) : bool :=
  match fs json_file_path with
  | Lines text =>
      match json_load text with
      | Some data =>
          match update_sample sample_key (similarity_json similarity) data with
          | Py.Return _ => negb (writable json_file_path)
          | Py.Throw _ => true
          end
      | None => true
      end
  | Unreadable _ => true
  end.

(** Lines 136-181, one turn of the loop. *)
Definition process_dir (base_path : path)
    (generated_file unoptimized_file samples_json sample_key : str)
    (update_json : bool) (name : str) : action (option problem_result) :=
  let problem_dir := child base_path name in
  let problem_id := name in
  let gen_file_path := path_str (child problem_dir generated_file) in
  let unopt_file_path := path_str (child problem_dir unoptimized_file) in
  let json_file_path := path_str (child problem_dir samples_json) in
  gen_exists ← reads (λ fs, exists_ fs gen_file_path);
  both_exist ← (if gen_exists : bool
                then reads (λ fs, exists_ fs unopt_file_path)
                else mret false);
  if negb both_exist
  then
    _ ← print (Skipping problem_id generated_file unoptimized_file);
    mret None
  else
    similarity ← reads (λ fs, calculate_similarity fs gen_file_path unopt_file_path);
    json_exists ← reads (λ fs, exists_ fs json_file_path);
    correct ←
      (if json_exists && update_json
       then
         raised ← reads (λ fs, Ok (update_raises fs json_file_path sample_key
                                     similarity));
         correct ← writes (λ fs, update_json_file json_load json_dump writable fs
                                   json_file_path sample_key similarity);
         if raised : bool
         then _ ← print (JsonFailed problem_id); mret correct
         else mret correct
       else
         json_exists ← reads (λ fs, exists_ fs json_file_path);
         if json_exists : bool
         then reads (λ fs, Ok (read_json_file json_load fs json_file_path sample_key))
         else mret (Json.Bool false));
    let result := {| problem_id := problem_id;
                     similarity := similarity;
                     correct := correct |} in
    _ ← print (Scored problem_id (overall_similarity similarity));
    mret (Some result).

(** Lines 135-183: the loop over the problem directories. *)
Fixpoint process_dirs (base_path : path)
    (generated_file unoptimized_file samples_json sample_key : str)
    (update_json : bool) (dirs : list str) (results : list problem_result) :
    action (list problem_result) :=
  match dirs with
  | [] => mret results
  | name :: dirs' =>
      entry ← process_dir base_path generated_file unoptimized_file samples_json
                sample_key update_json name;
      process_dirs base_path generated_file unoptimized_file samples_json sample_key
        update_json dirs' (results ++ option_list entry)
  end.

Definition process_all_problems
    (base_dir dir_prefix generated_file unoptimized_file samples_json sample_key : str)
    (update_json : bool) : action (list problem_result) :=
  let base_path := Path base_dir in
  base_exists ← reads (λ fs, exists_ fs (path_str base_path));
  if negb base_exists
  then _ ← print (DirectoryMissing base_dir); mret []
  else
    names ← reads (λ _, iterdir base_path);
    selected ← select base_path dir_prefix names;
    let problem_dirs := merge_sort (λ a b, str_le a b) selected in
    if bool_decide (problem_dirs = [])
    then _ ← print (NoDirectories dir_prefix base_dir); mret []
    else
      _ ← print (Found (length problem_dirs));
      process_dirs base_path generated_file unoptimized_file samples_json sample_key
        update_json problem_dirs [].

(** *** Reference definitions *)

(** Where an exception that reaches the caller comes from: the listing
    of the base directory, [exists] or [is_dir] on some path, a
    [print], or the reading of the generated or the reference assembly
    of a listed entry whose name has the prefix. *)
Definition raised_by_environment (base_path : path) (e : exn) : Prop :=
  iterdir base_path = Raise e
  ∨ (∃ fs p, exists_ fs p = Raise e)
  ∨ (∃ fs names name,
       iterdir base_path = Ok names ∧ name ∈ names
       ∧ is_dir_ fs (path_str (child base_path name)) = Raise e)
  ∨ (∃ done m, print_raises done m = Some e).

Definition raised_by_reading (base_path : path)
    (dir_prefix generated_file unoptimized_file : str) (fs : filesystem) (e : exn) :
    Prop :=
  e ≠ FileNotFoundError
  ∧ ∃ names name,
      iterdir base_path = Ok names ∧ name ∈ names
      ∧ Substr.startswith dir_prefix name = true
      ∧ (fs (path_str (child (child base_path name) generated_file)) = Unreadable e
         ∨ fs (path_str (child (child base_path name) unoptimized_file))
           = Unreadable e).

Definition diverges (base_path : path) : Prop :=
  iterdir base_path = Diverge
  ∨ (∃ fs p, exists_ fs p = Diverge)
  ∨ (∃ fs p, is_dir_ fs p = Diverge).

End environment.

(** [m] returns, or raises an exception that [E] accounts for, or does
    not end because the environment does not. *)
Definition accounted {A} (E : filesystem → exn → Prop) (D : Prop) (m : action A) :
    Prop :=
  ∀ w, match m w with
       | (w', Ok _) => True
       | (w', Raise e) => E (files w') e
       | (w', Diverge) => D
       end.

(** *** The example directory in three environments *)

Definition quiet_exists (fs : filesystem) (p : str) : res bool := Ok (path_exists fs p).
Definition quiet_is_dir (fs : filesystem) (p : str) : res bool := Ok (is_dir fs p).
Definition quiet_print (done : list message) (m : message) : option exn := None.

(** An environment in which the entries of [runs/problem_2] may not be
    looked at. *)
Definition guarded_exists (fs : filesystem) (p : str) : res bool :=
  if Substr.startswith (py "runs/problem_2/") p
  then Raise PermissionError
  else Ok (path_exists fs p).

(** An environment in which the standard output is closed. *)
Definition closed_print (done : list message) (m : message) : option exn :=
  Some ValueError.

Definition process_runs
    (exists_ : filesystem → str → res bool)
    (print_raises : list message → message → option exn) :
    world * res (list problem_result) :=
  process_all_problems (λ p, p) slash_child (λ p, p) runs_listing runs_load runs_dump
    (λ _, true) exists_ quiet_is_dir print_raises
    (py "runs") (py "problem_") (py "sample_0_generated.s")
    (py "unoptimized.s") (py "samples.json") (py "0") true
    (World runs []).

End Driver.

(** * The report: [generate_report] *)

(** ** The report *)

(** What [generate_report] has done, in order; every effect is one call
    that returned.  [Printed text]: [print(text)].  [Opened path]:
    [open(path, 'w', encoding='utf-8')]; the file exists and is empty.
    [Written path text]: [f.write(text)] and the close of the file,
    which now holds [text]. *)
Inductive effect :=
| Printed (text : str)
| Opened (path : str)
| Written (path : str) (text : str).

(** [sorted(results, key=...)] keeps the entries with equal keys in
    their order: [x] goes before the first entry whose key is not
    smaller than its own. *)
Fixpoint insert_by {A} (key : A → Float.float) (x : A) (l : list A) : list A :=
  match l with
  | [] => [x]
  | y :: l' => if Qle_bool (key x) (key y) then x :: l else y :: insert_by key x l'
  end.

Definition sorted_by {A} (key : A → Float.float) (l : list A) : list A :=
  foldr (insert_by key) [] l.

(** [x < y] on floats *)
Definition float_lt (x y : Float.float) : bool := negb (Qle_bool y x).

(** [max(xs)] and [min(xs)] on a list with first element [x]. *)
Definition py_max (x : Float.float) (xs : list Float.float) : Float.float :=
  foldl (λ m y, if float_lt m y then y else m) x xs.

Definition py_min (x : Float.float) (xs : list Float.float) : Float.float :=
  foldl (λ m y, if float_lt y m then y else m) x xs.

Definition check_mark : str := [10003%N].
Definition cross_mark : str := [10007%N].

(** Lines 204-210: one line of the table. *)
Definition row (result : problem_result) : str :=
  let sim := similarity result in
  let mark := if Json.truthy (correct result) then check_mark else cross_mark in
  Format.ljust 15 (problem_id result) ++ py " "
  ++ Format.ljust 12 (Format.fixed4 (overall_similarity sim)) ++ py " "
  ++ Format.ljust 12 (Format.fixed4 (line_similarity sim)) ++ py " "
  ++ Format.ljust 12 (Format.fixed4 (instruction_similarity sim)) ++ py " "
  ++ Format.ljust 8 mark.

Section report.

(** The builtin [sum] on a list of floats; how it rounds depends on the
    version of Python.  [raises done e] is the exception, if any, that
    the call which [e] stands for raises after the effects [done]: a
    closed standard output, a path that cannot be opened, a full
    disk. *)
Context (sum : list Float.float → Float.float).
Context (raises : list effect → effect → option exn).

(** One call to [print], [open] or [write]. *)
Definition attempt (e : effect) (done : list effect) : list effect * res unit :=
  match raises done e with
  | Some x => (done, Raise x)
  | None => (done ++ [e], Ok ())
  end.

(** [first] and, when it has returned, [second]. *)
Definition and_then (first second : list effect → list effect * res unit)
    (done : list effect) : list effect * res unit :=
  match first done with
  | (done', Ok _) => second done'
  | stopped => stopped
  end.

(** Lines 219-224: one line of the statistics. *)
Definition statistics_line (title : str) (sims : list Float.float) : res str :=
  match sims with
  | [] => Raise ZeroDivisionError
  | x :: xs =>
      average ← Float.div (sum sims) (Float.of_int (Z.of_nat (length sims)));
      Ok (title ++ py " - Average: " ++ Format.fixed4 average
          ++ py ", Max: " ++ Format.fixed4 (py_max x xs)
          ++ py ", Min: " ++ Format.fixed4 (py_min x xs))
  end.

(** Lines 192-233: the lines of the report. *)
Definition report_lines (results : list problem_result) : res (list str) :=
  let sorted_results :=
    sorted_by (λ x, instruction_similarity (similarity x)) results in
  let total := Format.decimal (N.of_nat (length results)) in
  let overall_sims := (λ r, overall_similarity (similarity r)) <$> results in
  let line_sims := (λ r, line_similarity (similarity r)) <$> results in
  let inst_sims := (λ r, instruction_similarity (similarity r)) <$> results in
  overall ← statistics_line (py "  Overall Similarity") overall_sims;
  line ← statistics_line (py "  Line Similarity") line_sims;
  inst ← statistics_line (py "  Instruction Similarity") inst_sims;
  let inst_less_than_one :=
    length (filter (λ sim, float_lt sim Float.c1_0) inst_sims) in
  let correct_count :=
    length (filter (λ r, Json.truthy (correct r)) results) in
  Ok ([replicate 80 61%N;
       py "Assembly Code Similarity Report";
       replicate 80 61%N;
       [Str.newline] ++ py "Total: " ++ total ++ py " problems" ++ [Str.newline];
       Format.ljust 15 (py "Problem ID") ++ py " "
       ++ Format.ljust 12 (py "Overall Sim") ++ py " "
       ++ Format.ljust 12 (py "Line Similar") ++ py " "
       ++ Format.ljust 12 (py "Inst Similar") ++ py " "
       ++ Format.ljust 8 (py "Correct");
       replicate 80 45%N]
      ++ (row <$> sorted_results)
      ++ [replicate 80 45%N;
          [Str.newline] ++ py "Statistics:";
          overall;
          line;
          inst;
          py "  Number of problems with instruction similarity < 1.0: "
          ++ Format.decimal (N.of_nat inst_less_than_one);
          [Str.newline] ++ py "Correctness Statistics: "
          ++ Format.decimal (N.of_nat correct_count) ++ py "/" ++ total
          ++ py " problems passed tests";
          replicate 80 61%N]).

(** The effects of [generate_report] and how it ends.  [output_file] is
    [None] or a string; an empty string counts as none. *)
Definition generate_report (results : list problem_result)
    (output_file : option str) : list effect * res unit :=
  if bool_decide (results = [])
  then attempt (Printed (py "No results available")) []
  else
    match report_lines results with
    | Ok report_lines =>
        let report_text := Format.join [Str.newline] report_lines in
        and_then (attempt (Printed ([Str.newline] ++ report_text)))
          (match output_file with
           | Some path =>
               if bool_decide (path = [])
               then λ done, (done, Ok ())
               else and_then (attempt (Opened path))
                      (and_then (attempt (Written path report_text))
                         (attempt (Printed ([Str.newline] ++ py "Report saved to: "
                                            ++ path))))
           | None => λ done, (done, Ok ())
           end)
          []
    | Raise e => ([], Raise e)
    | Diverge => ([], Diverge)
    end.

End report.

(** The environment in which every call returns. *)
Definition quiet : list effect → effect → option exn := λ _ _, None.

(** An environment in which no file can be opened for writing. *)
Definition read_only : list effect → effect → option exn :=
  λ _ e, match e with
         | Opened _ => Some PermissionError
         | _ => None
         end.

(** [sum] as it was before Python 3.12: the elements are added from
    left to right to the integer 0. *)
Definition sum_left (xs : list Float.float) : Float.float :=
  match xs with
  | [] => 0%Q
  | x :: xs' => foldl Float.add x xs'
  end.

(** *** An example list of results *)

Definition three_results : list problem_result :=
  [{| problem_id := py "problem_2";
      similarity := {| line_similarity := 1%Q;
                       instruction_similarity := 1%Q;
                       overall_similarity := 1%Q |};
      correct := Json.Bool true |};
   {| problem_id := py "problem_10";
      similarity := {| line_similarity := Float.rnd (8571 # 10000);
                       instruction_similarity := Float.rnd (8 # 10);
                       overall_similarity := Float.rnd (8343 # 10000) |};
      correct := Json.Bool false |};
   {| problem_id := py "problem_7";
      similarity := {| line_similarity := Float.rnd (5 # 10);
                       instruction_similarity := 1%Q;
                       overall_similarity := Float.rnd (7 # 10) |};
      correct := Json.Null |}].

(** ** The definitions at work *)

Example normalize_comment :
  normalize_assembly_line (py "  mov eax, 1  # load ; twice") = Ok (py "mov eax, 1").
Proof. reflexivity. Qed.

Example normalize_semicolon_then_hash :
  normalize_assembly_line (py "add ; one # two") = Ok (py "add").
Proof. reflexivity. Qed.

Example split_runs : Str.split (py "  a  bc d ") = [py "a"; py "bc"; py "d"].
Proof. reflexivity. Qed.

Example labels :
  Re.is_label <$> [py "foo:"; py ".L1:"; py "_x.1:"; py "1foo:"; py "a b:"; py ":"; py "foo: x"]
  = [true; true; true; false; false; false; false].
Proof. reflexivity. Qed.

(** Labels, directives and comments are skipped; a line that only looks
    like a label ([a b:]) gives its first word. *)
Example extract_mixed :
  extract_instructions
    [py "foo:"; py "  nop"; py ".text"; py "  mov eax, 1 ; c"; py "# c"; py "a b:"]
  = Ok [py "nop"; py "mov"; py "a"].
Proof. reflexivity. Qed.

(** The longest block of [" abcd"] and ["abcd abcd"] is [" abcd"] at
    position 4 of the second string. *)
Example longest_block :
  Difflib.find_longest_match (py " abcd") (py "abcd abcd")
    (Difflib.chain_b true (py "abcd abcd")) 0 5 0 9 = (0, 4, 5).
Proof. vm_compute. reflexivity. Qed.

Example blocks_of_an_insertion :
  Difflib.get_matching_blocks true (py "abxcd") (py "abcd")
  = Some [(0, 0, 2); (3, 2, 2); (5, 4, 0)].
Proof. vm_compute. reflexivity. Qed.

(** With 200 elements or more in the second sequence, an element that
    fills more than one percent of it is no key of [b2j]: it is matched
    only next to another match or at the start of the window. *)
Example popular_element :
  Difflib.matches true [1] (2 :: replicate 200 1) = Some 0
  ∧ Difflib.matches true (2 :: replicate 200 1) [1] = Some 1
  ∧ Difflib.matches false [1] (2 :: replicate 200 1) = Some 1.
Proof. repeat split; vm_compute; reflexivity. Qed.

Example ratio_of_a_quarter :
  Difflib.ratio (py "tide") (py "diet") = Ok (1 # 4)%Q.
Proof. vm_compute. reflexivity. Qed.

(** [0.6] and [0.4] as binary64 values, and two roundings to four places:
    a tie goes to the even digit. *)
Example literals :
  Float.c0_6 = (5404319552844595 # 9007199254740992)%Q
  ∧ Float.c0_4 = (3602879701896397 # 9007199254740992)%Q.
Proof. split; vm_compute; reflexivity. Qed.

Example round_third : Float.round (Float.rnd (1 # 3)) 4 = Float.rnd (3333 # 10000).
Proof. vm_compute. reflexivity. Qed.

Example round_tie : Float.round (1 # 32) 4 = Float.rnd (312 # 10000).
Proof. vm_compute. reflexivity. Qed.

(** A comment does not change the score. *)
Example score_ignores_comment :
  calculate_similarity
    (two_files [py "mov eax, 1  # load"; py "ret"] [py "mov eax, 1"; py "ret"])
    generated_path unoptimized_path
  = Ok {| line_similarity := Float.c1_0;
          instruction_similarity := Float.c1_0;
          overall_similarity := Float.c1_0 |}.
Proof. vm_compute. reflexivity. Qed.

(** A label counts as a line, not as an instruction: line similarity 2/3,
    instruction similarity 1.0, overall 0.8. *)
Example score_with_label :
  calculate_similarity (two_files [py "foo:"; py "  nop"] [py "  nop"])
    generated_path unoptimized_path
  = Ok {| line_similarity := Float.rnd (6667 # 10000);
          instruction_similarity := Float.c1_0;
          overall_similarity := Float.rnd (8 # 10) |}.
Proof. vm_compute. reflexivity. Qed.

Example score_missing_file :
  calculate_similarity (two_files [py "nop"] []) generated_path (py "other.s")
  = Ok zero_result.
Proof. reflexivity. Qed.

(** ** Facts about the string functions *)

Section str_facts.
Implicit Types (s t w : str) (c : char) (p : char → bool).

Lemma before_app c s : ∃ t, s = before c s ++ t ∧ (t = [] ∨ ∃ t', t = c :: t').
Proof.
  induction s as [|x s IH]; simpl; [exists []; auto|].
  destruct IH as (t & Hs & Ht).
  destruct (decide (x = c)) as [->|Hx]; simpl.
  - exists (c :: s). eauto.
  - exists t. split; [by f_equal|done].
Qed.

Lemma before_not_elem c s : c ∉ before c s.
Proof.
  induction s as [|x s IH]; simpl; [apply not_elem_of_nil|].
  destruct (decide (x = c)); [apply not_elem_of_nil|].
  rewrite not_elem_of_cons. auto.
Qed.

Lemma before_id c s : c ∉ s → before c s = s.
Proof.
  induction s as [|x s IH]; simpl; [done|].
  rewrite not_elem_of_cons. intros [Hne Hs].
  destruct (decide (x = c)); [congruence|]. by rewrite IH.
Qed.

Lemma before_idemp c s : before c (before c s) = before c s.
Proof. apply before_id, before_not_elem. Qed.

Lemma before_sublist c s : before c s `sublist_of` s.
Proof.
  destruct (before_app c s) as [t [Hs _]]. rewrite Hs at 2.
  apply sublist_inserts_r. done.
Qed.

(** Text after the first [c] does not matter. *)
Lemma before_app_l c s t : c ∈ s → before c (s ++ t) = before c s.
Proof.
  induction s as [|x s IH]; simpl; [by rewrite elem_of_nil|].
  rewrite elem_of_cons. intros Hin.
  destruct (decide (x = c)); [done|].
  f_equal. apply IH. destruct Hin; [congruence|done].
Qed.

Lemma before_app_r c s t : c ∉ s → before c (s ++ t) = s ++ before c t.
Proof.
  induction s as [|x s IH]; simpl; [done|].
  rewrite not_elem_of_cons. intros [Hne Hs].
  destruct (decide (x = c)); [congruence|]. by rewrite IH.
Qed.

Lemma before_cons_eq c t : before c (c :: t) = [].
Proof. simpl. by destruct (decide (c = c)). Qed.

Lemma index_before c s : c ∈ s → Str.index c s = Ok (length (before c s)).
Proof.
  induction s as [|x s IH]; simpl; [by rewrite elem_of_nil|].
  rewrite elem_of_cons. intros Hin.
  destruct (decide (x = c)) as [->|Hne]; [done|].
  rewrite IH by (destruct Hin; [congruence|done]). done.
Qed.

Lemma take_before c s : take (length (before c s)) s = before c s.
Proof.
  destruct (before_app c s) as [t [Hs _]]. rewrite Hs at 2.
  by rewrite take_app_length.
Qed.

(** One comment cut of [normalize_assembly_line]: the membership test
    guards the call of [index], which therefore never raises. *)
Lemma cut_comment c s :
  (if Str.contains c s
   then i ← Str.index c s; Ok (Str.slice_to i s)
   else Ok s) = Ok (before c s).
Proof.
  unfold Str.contains. case_bool_decide as Hin.
  - rewrite index_before by done. simpl. unfold Str.slice_to.
    by rewrite take_before.
  - by rewrite before_id.
Qed.

Lemma drop_while_app_all p w s :
  forallb p w = true → Str.drop_while p (w ++ s) = Str.drop_while p s.
Proof.
  induction w as [|x w IH]; simpl; [done|].
  rewrite andb_true_iff. intros [-> Hw]. auto.
Qed.

Lemma drop_while_all p w : forallb p w = true → Str.drop_while p w = [].
Proof.
  induction w as [|x w IH]; simpl; [done|].
  rewrite andb_true_iff. intros [-> Hw]. auto.
Qed.

Lemma drop_while_idemp p s : Str.drop_while p (Str.drop_while p s) = Str.drop_while p s.
Proof.
  induction s as [|x s IH]; simpl; [done|].
  destruct (p x) eqn:Hx; [done|]. simpl. by rewrite Hx.
Qed.

Lemma drop_while_split p s :
  ∃ w, s = w ++ Str.drop_while p s ∧ forallb p w = true.
Proof.
  induction s as [|x s IH]; simpl; [by exists []|].
  destruct IH as (w & Hs & Hw).
  destruct (p x) eqn:Hx.
  - exists (x :: w). simpl. rewrite Hx, Hw. split; [by f_equal|done].
  - by exists [].
Qed.

Lemma drop_while_head p s x : head (Str.drop_while p s) = Some x → p x = false.
Proof.
  induction s as [|y s IH]; simpl; [done|].
  destruct (p y) eqn:Hy; [done|]. simpl. by intros [= <-].
Qed.

Lemma drop_while_head_id p s :
  (∀ x, head s = Some x → p x = false) → Str.drop_while p s = s.
Proof.
  destruct s as [|y s]; simpl; [done|]. intros Hh. by rewrite (Hh y).
Qed.

(** Dropping from the front leaves a non-empty end as it is. *)
Lemma drop_while_last p s x :
  last s = Some x → p x = false → last (Str.drop_while p s) = Some x.
Proof.
  induction s as [|y s IH]; simpl; [done|].
  intros Hl Hx. destruct (p y) eqn:Hy; [|done].
  destruct s as [|z s]; [simpl in Hl; congruence|].
  apply IH; [|done]. by rewrite last_cons_cons in Hl.
Qed.

Lemma forallb_reverse p w : forallb p (reverse w) = true ↔ forallb p w = true.
Proof.
  rewrite !forallb_forall. setoid_rewrite <- list_elem_of_In.
  by setoid_rewrite elem_of_reverse.
Qed.

Lemma rstrip_app_all w s :
  forallb Str.isspace w = true → Str.rstrip (s ++ w) = Str.rstrip s.
Proof.
  intros Hw. unfold Str.rstrip. rewrite reverse_app.
  rewrite drop_while_app_all; [done|]. by apply forallb_reverse.
Qed.

Lemma rstrip_split s :
  ∃ w, s = Str.rstrip s ++ w ∧ forallb Str.isspace w = true.
Proof.
  unfold Str.rstrip.
  destruct (drop_while_split Str.isspace (reverse s)) as [w [Hs Hw]].
  exists (reverse w). split.
  - rewrite <- reverse_app, <- Hs. by rewrite reverse_involutive.
  - by apply forallb_reverse.
Qed.

Lemma rstrip_last s x : last (Str.rstrip s) = Some x → Str.isspace x = false.
Proof.
  unfold Str.rstrip. rewrite last_reverse. apply drop_while_head.
Qed.

Lemma rstrip_last_id s :
  (∀ x, last s = Some x → Str.isspace x = false) → Str.rstrip s = s.
Proof.
  intros Hl. unfold Str.rstrip. rewrite drop_while_head_id.
  - apply reverse_involutive.
  - intros x. rewrite head_reverse. apply Hl.
Qed.

Lemma rstrip_head s x :
  head s = Some x → Str.isspace x = false → head (Str.rstrip s) = Some x.
Proof.
  intros Hh Hx. unfold Str.rstrip. rewrite head_reverse.
  apply drop_while_last; [|done]. by rewrite last_reverse.
Qed.

Lemma rstrip_sublist s : Str.rstrip s `sublist_of` s.
Proof.
  destruct (rstrip_split s) as [w [Hs _]]. rewrite Hs at 2.
  by apply sublist_inserts_r.
Qed.

Lemma lstrip_sublist s : Str.lstrip s `sublist_of` s.
Proof.
  destruct (drop_while_split Str.isspace s) as [w [Hs _]]. rewrite Hs at 2.
  by apply sublist_inserts_l.
Qed.

Lemma strip_sublist s : Str.strip s `sublist_of` s.
Proof.
  unfold Str.strip. etrans; [apply rstrip_sublist|apply lstrip_sublist].
Qed.

(** The result of [strip] neither starts nor ends with whitespace. *)
Lemma strip_head s x : head (Str.strip s) = Some x → Str.isspace x = false.
Proof.
  unfold Str.strip. intros Hh.
  destruct (Str.lstrip s) as [|y t] eqn:Hl; [done|].
  assert (Hy : Str.isspace y = false).
  { apply (drop_while_head Str.isspace s). unfold Str.lstrip in Hl. by rewrite Hl. }
  rewrite (rstrip_head (y :: t) y) in Hh by done. congruence.
Qed.

Lemma strip_last s x : last (Str.strip s) = Some x → Str.isspace x = false.
Proof. apply rstrip_last. Qed.

(** A string that neither starts nor ends with whitespace is its own
    [strip]. *)
Lemma strip_id s :
  (∀ x, head s = Some x → Str.isspace x = false) →
  (∀ x, last s = Some x → Str.isspace x = false) →
  Str.strip s = s.
Proof.
  intros Hh Hl. unfold Str.strip, Str.lstrip.
  rewrite drop_while_head_id by done. by apply rstrip_last_id.
Qed.

Lemma strip_idemp s : Str.strip (Str.strip s) = Str.strip s.
Proof. apply strip_id; [apply strip_head|apply strip_last]. Qed.

(** [strip] splits its argument into leading whitespace, the result and
    trailing whitespace. *)
Lemma strip_split s :
  ∃ w1 w2, s = w1 ++ Str.strip s ++ w2
           ∧ forallb Str.isspace w1 = true ∧ forallb Str.isspace w2 = true.
Proof.
  destruct (drop_while_split Str.isspace s) as [w1 [Hs1 Hw1]].
  destruct (rstrip_split (Str.lstrip s)) as [w2 [Hs2 Hw2]].
  exists w1, w2. split; [|done].
  unfold Str.strip. rewrite <- Hs2. exact Hs1.
Qed.

Lemma strip_app_all w1 s w2 :
  forallb Str.isspace w1 = true → forallb Str.isspace w2 = true →
  Str.strip (w1 ++ s ++ w2) = Str.strip s.
Proof.
  intros Hw1 Hw2. unfold Str.strip, Str.lstrip.
  rewrite drop_while_app_all by done.
  destruct (drop_while_split Str.isspace s) as (v & Hs & Hv).
  destruct (Str.drop_while Str.isspace s) as [|y t] eqn:Hd.
  - rewrite app_nil_r in Hs. subst v.
    rewrite drop_while_app_all by done.
    by rewrite drop_while_all.
  - assert (Hy : Str.isspace y = false).
    { apply (drop_while_head Str.isspace s). by rewrite Hd. }
    rewrite Hs at 1. rewrite <- app_assoc.
    rewrite drop_while_app_all by done. simpl. rewrite Hy.
    change (y :: t ++ w2) with ((y :: t) ++ w2).
    by apply rstrip_app_all.
Qed.

Lemma space_not_elem c w :
  Str.isspace c = false → forallb Str.isspace w = true → c ∉ w.
Proof.
  intros Hc Hw Hin. rewrite forallb_forall in Hw.
  apply list_elem_of_In, Hw in Hin. congruence.
Qed.

(** Cutting at [c] and appending text free of [c] commute, up to
    dropping the appended text. *)
Lemma before_app_free c s w :
  c ∉ w → ∃ w', before c (s ++ w) = before c s ++ w' ∧ (w' = [] ∨ w' = w).
Proof.
  intros Hw. destruct (decide (c ∈ s)) as [Hin|Hin].
  - exists []. rewrite before_app_l by done. by rewrite app_nil_r; auto.
  - exists w. rewrite before_app_r by done.
    rewrite (before_id c s), (before_id c w) by done. auto.
Qed.

Lemma before_app_cut c s t : before c (s ++ c :: t) = before c s.
Proof.
  destruct (decide (c ∈ s)) as [Hin|Hin].
  - by apply before_app_l.
  - rewrite before_app_r by done. rewrite before_cons_eq, app_nil_r.
    by rewrite before_id.
Qed.

(** ** [normal_form] ignores surrounding whitespace and trailing comments *)

Lemma normal_form_surround w1 s w2 :
  forallb Str.isspace w1 = true → forallb Str.isspace w2 = true →
  normal_form (w1 ++ s ++ w2) = normal_form s.
Proof.
  intros Hw1 Hw2. unfold normal_form.
  assert (Hh1 : Str.hash ∉ w1) by by apply space_not_elem.
  assert (Hh2 : Str.hash ∉ w2) by by apply space_not_elem.
  assert (Hs1 : Str.semicolon ∉ w1) by by apply space_not_elem.
  assert (Hs2 : Str.semicolon ∉ w2) by by apply space_not_elem.
  rewrite (before_app_r _ w1) by done.
  destruct (before_app_free Str.hash s w2 Hh2) as (u & -> & Hu).
  rewrite (before_app_r _ w1) by done.
  assert (Hsu : Str.semicolon ∉ u).
  { destruct Hu as [->| ->]; [apply not_elem_of_nil|done]. }
  destruct (before_app_free Str.semicolon (before Str.hash s) u Hsu) as (v & -> & Hv).
  apply strip_app_all; [done|].
  destruct Hv as [->| ->]; [done|]. by destruct Hu as [->| ->].
Qed.

Lemma normal_form_hash_comment s t : normal_form (s ++ Str.hash :: t) = normal_form s.
Proof. unfold normal_form. by rewrite before_app_cut. Qed.

Lemma normal_form_semicolon_comment s t :
  normal_form (s ++ Str.semicolon :: t) = normal_form s.
Proof.
  unfold normal_form. destruct (decide (Str.hash ∈ s)) as [Hin|Hin].
  - by rewrite before_app_l.
  - rewrite before_app_r by done. rewrite (before_id _ s) by done.
    assert (Hne : Str.semicolon ≠ Str.hash) by done.
    simpl. destruct (decide (Str.semicolon = Str.hash)); [done|].
    by rewrite before_app_cut.
Qed.

Lemma normal_form_no_hash s : Str.hash ∉ normal_form s.
Proof.
  intros Hin. apply (before_not_elem Str.hash s).
  eapply elem_of_sublist; [exact Hin|].
  unfold normal_form. etrans; [apply strip_sublist|apply before_sublist].
Qed.

Lemma normal_form_no_semicolon s : Str.semicolon ∉ normal_form s.
Proof.
  intros Hin. apply (before_not_elem Str.semicolon (before Str.hash s)).
  eapply elem_of_sublist; [exact Hin|]. apply strip_sublist.
Qed.

Lemma normal_form_idemp s : normal_form (normal_form s) = normal_form s.
Proof.
  unfold normal_form at 1.
  rewrite (before_id Str.hash) by apply normal_form_no_hash.
  rewrite (before_id Str.semicolon) by apply normal_form_no_semicolon.
  apply strip_idemp.
Qed.

(** ** [split] and the first token *)

Lemma split_from_run cur s :
  cur ≠ [] →
  ∃ rest, Str.split_from cur s
          = (reverse cur ++ Str.take_while (λ c, negb (Str.isspace c)) s) :: rest.
Proof.
  revert cur. induction s as [|c s IH]; intros cur Hcur; simpl.
  - destruct cur; [done|]. exists []. by rewrite app_nil_r.
  - destruct (Str.isspace c) eqn:Hc; simpl.
    + destruct cur; [done|]. eexists. by rewrite app_nil_r.
    + destruct (IH (c :: cur)) as [rest Hrest]; [done|].
      exists rest. rewrite Hrest, reverse_cons, <- app_assoc. done.
Qed.

Lemma split_lstrip s : Str.split s = Str.split (Str.lstrip s).
Proof.
  unfold Str.split, Str.lstrip. induction s as [|c s IH]; simpl; [done|].
  destruct (Str.isspace c) eqn:Hc; [done|]. simpl. by rewrite Hc.
Qed.

(** A string with a non-whitespace character splits into at least one
    part, and the first part is its first token. *)
Lemma split_first s :
  Str.lstrip s ≠ [] → ∃ rest, Str.split s = first_token s :: rest.
Proof.
  intros Hne. rewrite split_lstrip. unfold first_token.
  destruct (Str.lstrip s) as [|c t] eqn:Hl; [done|].
  assert (Hc : Str.isspace c = false).
  { apply (drop_while_head Str.isspace s). unfold Str.lstrip in Hl. by rewrite Hl. }
  unfold Str.split. simpl. rewrite Hc. simpl.
  destruct (split_from_run [c] t) as [rest ->]; [done|]. by exists rest.
Qed.

End str_facts.

(** ** Facts about [difflib.SequenceMatcher] *)

Section difflib_facts.
Context `{Countable A}.
Implicit Types (a b : list A) (b2j : gmap A (list Z)) (best : Difflib.block).
Implicit Types (j2len : gmap Z Z).



Lemma row_ok_empty alo blo i : row_ok alo blo i ∅.
Proof. intros j v. by rewrite lookup_empty. Qed.

Lemma foldl_seqZ_ind {St} (P : Z → St → Prop) (f : St → Z → St) (s : St) (lo n : Z) :
  0 ≤ n → P lo s →
  (∀ i s, lo ≤ i < lo + n → P i s → P (i + 1) (f s i)) →
  P (lo + n) (foldl f s (seqZ lo n)).
Proof.
  intros Hn. rewrite <- (Z2Nat.id n Hn). generalize (Z.to_nat n) as m.
  clear Hn n. intros m. revert lo s.
  induction m as [|m IH]; intros lo s Hs Hstep.
  - rewrite seqZ_nil by lia. simpl. by rewrite Z.add_0_r.
  - rewrite seqZ_cons by lia. simpl.
    replace (Z.pred (Z.of_nat (S m))) with (Z.of_nat m) by lia.
    replace (lo + Z.of_nat (S m)) with (Z.succ lo + Z.of_nat m) by lia.
    apply IH.
    + replace (Z.succ lo) with (lo + 1) by lia. apply Hstep; [lia|done].
    + intros i s' Hi. apply Hstep. lia.
Qed.

Lemma scan_row_ok i alo blo bhi j2len js newj2len best :
  alo ≤ i →
  row_ok alo blo (i - 1) j2len →
  row_ok alo blo i newj2len →
  best_ok alo blo bhi (i + 1) best →
  row_ok alo blo i (Difflib.scan_row i blo bhi j2len js newj2len best).1
  ∧ best_ok alo blo bhi (i + 1) (Difflib.scan_row i blo bhi j2len js newj2len best).2.
Proof.
  intros Hi Hprev. revert newj2len best.
  induction js as [|j js IH]; intros newj2len best Hnew Hbest; simpl; [done|].
  destruct (decide (j < blo)); [by apply IH|].
  destruct (decide (bhi ≤ j)); [done|].
  assert (Hk : 1 ≤ default 0 (j2len !! (j - 1)) + 1 ≤ i - alo + 1
               ∧ default 0 (j2len !! (j - 1)) + 1 ≤ j - blo + 1).
  { destruct (j2len !! (j - 1)) as [v|] eqn:Hv; simpl; [|lia].
    apply Hprev in Hv. lia. }
  apply IH.
  - intros j' v. rewrite lookup_insert. case_decide; [|by apply Hnew].
    intros [= <-]. subst j'. lia.
  - destruct best as [[bi bj] bs]. unfold Difflib.block_size. simpl.
    destruct (decide (bs < _)); [|done].
    unfold best_ok. simpl. lia.
Qed.

Lemma scan_rows_ok a b2j alo ahi blo bhi :
  alo ≤ ahi → blo ≤ bhi →
  best_ok alo blo bhi ahi (Difflib.scan_rows a b2j alo ahi blo bhi).2.
Proof.
  intros Ha Hb. unfold Difflib.scan_rows.
  set (P := λ (i : Z) (st : gmap Z Z * Difflib.block),
              row_ok alo blo (i - 1) st.1 ∧ best_ok alo blo bhi i st.2).
  match goal with |- best_ok _ _ _ _ (foldl ?f ?s _).2 =>
    cut (P (alo + (ahi - alo)) (foldl f s (seqZ alo (ahi - alo)))) end.
  { intros [_ Hbest]. by replace (alo + (ahi - alo)) with ahi in Hbest by lia. }
  apply (foldl_seqZ_ind P); [lia| |].
  - split; [apply row_ok_empty|].
    unfold best_ok. simpl. lia.
  - intros i [j2len best] Hi [Hrow Hbest]. unfold P. simpl in *.
    replace (i + 1 - 1) with i by lia.
    destruct (Difflib.item a i) as [x|].
    + apply (scan_row_ok i alo blo bhi); [lia|done| |].
      * apply row_ok_empty.
      * unfold best_ok in *. lia.
    + split; [apply row_ok_empty|].
      unfold best_ok in *. simpl. lia.
Qed.

Lemma extend_left_ok n junk a b alo blo bhi top best :
  best_ok alo blo bhi top best →
  best_ok alo blo bhi top (Difflib.extend_left n junk a b alo blo best).
Proof.
  revert best. induction n as [|n IH]; intros [[bi bj] bs] Hbest; simpl; [done|].
  destruct (_ && _) eqn:Hc; [|done].
  rewrite !andb_true_iff, !bool_decide_eq_true in Hc.
  apply IH. unfold best_ok in *. simpl in *. lia.
Qed.

Lemma extend_right_ok n junk a b alo blo bhi top best :
  best_ok alo blo bhi top best →
  best_ok alo blo bhi top (Difflib.extend_right n junk a b top bhi best).
Proof.
  revert best. induction n as [|n IH]; intros [[bi bj] bs] Hbest; simpl; [done|].
  destruct (_ && _) eqn:Hc; [|done].
  rewrite !andb_true_iff, !bool_decide_eq_true in Hc.
  apply IH. unfold best_ok in *. simpl in *. lia.
Qed.

Lemma extend_ok junk a b alo ahi blo bhi best :
  best_ok alo blo bhi ahi best →
  best_ok alo blo bhi ahi (Difflib.extend junk a b alo ahi blo bhi best).
Proof.
  intros Hbest. unfold Difflib.extend.
  by apply extend_right_ok, extend_left_ok.
Qed.

(** The block that [find_longest_match] returns lies in the window it
    was asked to search. *)
Lemma find_longest_match_ok a b b2j alo ahi blo bhi :
  alo ≤ ahi → blo ≤ bhi →
  best_ok alo blo bhi ahi (Difflib.find_longest_match a b b2j alo ahi blo bhi).
Proof.
  intros Ha Hb. unfold Difflib.find_longest_match.
  by apply extend_ok, extend_ok, scan_rows_ok.
Qed.

(** *** Termination of [get_matching_blocks] and the number of matches *)




Lemma total_cons x l : total (x :: l) = x.2 + total l.
Proof. done. Qed.

Lemma total_singleton (x : Difflib.block) : total [x] = x.2.
Proof. unfold total. simpl. unfold Difflib.block_size. lia. Qed.

Lemma total_nil : total (@nil Difflib.block) = 0.
Proof. done. Qed.

Lemma total_app l1 l2 : total (l1 ++ l2) = total l1 + total l2.
Proof.
  induction l1 as [|x l1 IH]; [done|].
  rewrite <- app_comm_cons, !total_cons, IH. lia.
Qed.

Lemma total_perm l1 l2 : l1 ≡ₚ l2 → total l1 = total l2.
Proof.
  induction 1; rewrite ?total_cons; lia.
Qed.

Lemma a_span_nonneg queue : Forall region_ok queue → 0 ≤ a_span queue.
Proof.
  induction 1 as [|r q [Hr _] _ IH]; simpl; lia.
Qed.

Lemma b_span_nonneg queue : Forall region_ok queue → 0 ≤ b_span queue.
Proof.
  induction 1 as [|r q [_ Hr] _ IH]; simpl; lia.
Qed.

(** With a budget of twice the queued elements of [a] plus one turn per
    queued window, the loop empties its queue.  The blocks it adds are
    no larger in total than the queued part of either sequence. *)
Lemma blocks_loop_total a b b2j fuel queue acc :
  Forall region_ok queue →
  2 * a_span queue + Z.of_nat (length queue) ≤ Z.of_nat fuel →
  ∃ blocks, Difflib.blocks_loop fuel a b b2j queue acc = Some blocks
            ∧ total acc ≤ total blocks
            ∧ total blocks ≤ total acc + a_span queue
            ∧ total blocks ≤ total acc + b_span queue.
Proof.
  revert queue acc. induction fuel as [|fuel IH]; intros queue acc Hq Hfuel.
  - pose proof (a_span_nonneg queue Hq).
    destruct queue as [|[[[alo ahi] blo] bhi] queue]; simpl in *; [|lia].
    exists acc. repeat split; lia.
  - destruct queue as [|[[[alo ahi] blo] bhi] queue]; simpl.
    { exists acc. simpl. repeat split; lia. }
    apply Forall_cons in Hq as [[Ha Hb] Hq]. simpl in Ha, Hb.
    pose proof (a_span_nonneg queue Hq) as Hqa.
    pose proof (b_span_nonneg queue Hq) as Hqb.
    pose proof (find_longest_match_ok a b b2j alo ahi blo bhi Ha Hb) as Hm.
    destruct (Difflib.find_longest_match a b b2j alo ahi blo bhi) as [[i j] k].
    unfold best_ok in Hm. simpl in Hm, Hfuel.
    destruct (decide (k ≠ 0)) as [Hk|Hk].
    + set (q1 := if decide (alo < i ∧ blo < j)
                 then (alo, i, blo, j) :: queue else queue).
      set (q2 := if decide (i + k < ahi ∧ j + k < bhi)
                 then (i + k, ahi, j + k, bhi) :: q1 else q1).
      assert (Hq1 : Forall region_ok q1
                    ∧ a_span q1 ≤ (i - alo) + a_span queue
                    ∧ b_span q1 ≤ (j - blo) + b_span queue
                    ∧ Z.of_nat (length q1) ≤ Z.of_nat (length queue) + 1).
      { unfold q1. case_decide.
        - split; [|simpl; lia]. constructor; [|done]. split; simpl; lia.
        - split; [done|]. lia. }
      destruct Hq1 as (Hq1 & Hq1a & Hq1b & Hq1l).
      assert (Hq2 : Forall region_ok q2
                    ∧ a_span q2 ≤ (ahi - (i + k)) + a_span q1
                    ∧ b_span q2 ≤ (bhi - (j + k)) + b_span q1
                    ∧ Z.of_nat (length q2) ≤ Z.of_nat (length q1) + 1).
      { unfold q2. case_decide.
        - split; [|simpl; lia]. constructor; [|done]. split; simpl; lia.
        - split; [done|]. lia. }
      destruct Hq2 as (Hq2 & Hq2a & Hq2b & Hq2l).
      destruct (IH q2 (acc ++ [(i, j, k)]) Hq2) as (blocks & Hrun & Hlo & Hha & Hhb);
        [lia|].
      exists blocks. split; [done|].
      assert (Ht : total (acc ++ [(i, j, k)]) = total acc + k).
      { by rewrite total_app, total_singleton. }
      rewrite Ht in Hlo, Hha, Hhb. lia.
    + destruct (IH queue acc Hq) as (blocks & Hrun & Hlo & Hha & Hhb); [lia|].
      exists blocks. split; [done|]. lia.
Qed.

Lemma collapse_step_total st l :
  total (foldl Difflib.collapse_step st l).2 + (foldl Difflib.collapse_step st l).1.2
  = total st.2 + st.1.2 + total l.
Proof.
  revert st. induction l as [|[[i2 j2] k2] l IH]; intros [[[i1 j1] k1] na].
  { change (total []) with 0. simpl. lia. }
  rewrite total_cons. cbn [foldl]. rewrite IH. unfold Difflib.collapse_step.
  destruct (decide (i1 + k1 = i2 ∧ j1 + k1 = j2)); simpl; [lia|].
  destruct (decide (k1 ≠ 0)); simpl; [|lia].
  rewrite total_app, total_singleton. simpl. lia.
Qed.

(** Merging adjacent blocks keeps the sum of the sizes. *)
Lemma collapse_total la lb l : total (Difflib.collapse la lb l) = total l.
Proof.
  unfold Difflib.collapse.
  pose proof (collapse_step_total ((0, 0, 0), []) l) as Hs.
  destruct (foldl _ _ l) as [[[i1 j1] k1] na].
  simpl in Hs. change (total []) with 0 in Hs.
  rewrite total_app, total_singleton. simpl.
  destruct (decide (k1 ≠ 0)).
  - rewrite total_app, total_singleton. simpl. lia.
  - lia.
Qed.

(** [get_matching_blocks] returns, and the matched elements are at most
    as many as either sequence has. *)
Lemma matches_bounds autojunk a b :
  ∃ m, Difflib.matches autojunk a b = Some m
       ∧ 0 ≤ m ≤ Z.of_nat (length a) ∧ m ≤ Z.of_nat (length b).
Proof.
  unfold Difflib.matches, Difflib.get_matching_blocks.
  destruct (blocks_loop_total a b (Difflib.chain_b autojunk b)
              (Difflib.loop_budget a)
              [(0, Z.of_nat (length a), 0, Z.of_nat (length b))] [])
    as (blocks & -> & Hlo & Hha & Hhb).
  - constructor; [|done]. split; simpl; lia.
  - unfold Difflib.loop_budget. simpl. lia.
  - simpl. eexists. split; [done|].
    fold (total (Difflib.collapse (Z.of_nat (length a)) (Z.of_nat (length b))
                   (merge_sort (λ x y, Difflib.block_leb x y) blocks))).
    rewrite collapse_total, (total_perm _ blocks) by apply merge_sort_Permutation.
    change (total []) with 0 in Hlo, Hha, Hhb. simpl in Hha, Hhb. lia.
Qed.

(** *** The positions recorded by [__chain_b] *)


Lemma index_positions_lookup i b b2j x :
  Difflib.index_positions i b b2j !! x
  = match positions_from i x b with
    | [] => b2j !! x
    | ps => Some (default [] (b2j !! x) ++ ps)
    end.
Proof.
  revert i b2j. induction b as [|y b IH]; intros i b2j; simpl; [done|].
  rewrite IH. destruct (decide (y = x)) as [->|Hne].
  - rewrite lookup_insert_eq. simpl.
    destruct (positions_from (i + 1) x b); simpl; [done|].
    by rewrite <- app_assoc.
  - by rewrite lookup_insert_ne.
Qed.

Lemma elem_of_positions_from i x b j :
  j ∈ positions_from i x b ↔ i ≤ j ∧ b !! Z.to_nat (j - i) = Some x.
Proof.
  revert i. induction b as [|y b IH]; intros i; simpl.
  { rewrite elem_of_nil. split; [done|]. intros [_ Hl]. by rewrite lookup_nil in Hl. }
  rewrite elem_of_app, IH. split.
  - intros [Hj|[Hj Hl]].
    + destruct (decide (y = x)) as [->|]; [|by apply elem_of_nil in Hj].
      apply list_elem_of_singleton in Hj as ->.
      split; [lia|]. by replace (i - i) with 0 by lia.
    + split; [lia|].
      replace (Z.to_nat (j - i)) with (S (Z.to_nat (j - (i + 1)))) by lia. done.
  - intros [Hj Hl]. destruct (decide (j = i)) as [->|Hne].
    + left. replace (i - i) with 0 in Hl by lia. simpl in Hl.
      injection Hl as ->. rewrite decide_True by done. by apply list_elem_of_singleton.
    + right. split; [lia|].
      replace (Z.to_nat (j - i)) with (S (Z.to_nat (j - (i + 1)))) in Hl by lia. done.
Qed.

Lemma positions_from_sorted i x b : StronglySorted Z.lt (positions_from i x b).
Proof.
  revert i. induction b as [|y b IH]; intros i; simpl; [constructor|].
  destruct (decide (y = x)); simpl; [|done].
  constructor; [done|].
  apply Forall_forall. intros j Hj. apply elem_of_positions_from in Hj. lia.
Qed.

(** The values of [b2j] are the positions of their keys. *)
Lemma chain_b_lookup autojunk b x js :
  Difflib.chain_b autojunk b !! x = Some js → js = positions_from 0 x b.
Proof.
  unfold Difflib.chain_b, Difflib.purge_popular. intros Hl.
  assert (Hi : Difflib.index_positions 0 b ∅ !! x = Some js).
  { destruct (_ && _); [|done]. by apply map_lookup_filter_Some in Hl as [? _]. }
  rewrite index_positions_lookup, lookup_empty in Hi.
  destruct (positions_from 0 x b); [done|]. simpl in Hi. congruence.
Qed.

(** *** A sequence matched against itself *)




Lemma run_nonneg a b2j n : 0 ≤ run a b2j n.
Proof.
  induction n as [|n IH]; simpl;
    destruct (a !! _); try lia; destruct (is_key b2j _); lia.
Qed.

Lemma runZ_nonneg a b2j t : 0 ≤ runZ a b2j t.
Proof. unfold runZ. case_decide; [apply run_nonneg|lia]. Qed.

Lemma runZ_neg a b2j t : t < 0 → runZ a b2j t = 0.
Proof. unfold runZ. intros. by rewrite decide_False by lia. Qed.

Lemma runZ_key a b2j t x :
  0 ≤ t → a !! Z.to_nat t = Some x → is_Some (b2j !! x) →
  runZ a b2j t = runZ a b2j (t - 1) + 1.
Proof.
  intros Ht Hx Hk. unfold runZ. rewrite decide_True by done.
  destruct (Z.to_nat t) as [|n] eqn:Hn; simpl; rewrite Hx;
    unfold is_key; rewrite bool_decide_true by done.
  - rewrite decide_False by lia. done.
  - rewrite decide_True by lia. by replace (Z.to_nat (t - 1)) with n by lia.
Qed.

Lemma runZ_not_key a b2j t x :
  0 ≤ t → a !! Z.to_nat t = Some x → b2j !! x = None → runZ a b2j t = 0.
Proof.
  intros Ht Hx Hk. unfold runZ. rewrite decide_True by done.
  destruct (Z.to_nat t) as [|n]; simpl; rewrite Hx;
    unfold is_key; rewrite bool_decide_false; try done;
    rewrite Hk; by intros [? ?].
Qed.

Lemma run_le a b2j n : run a b2j n ≤ Z.of_nat n + 1.
Proof.
  induction n as [|n IH]; simpl;
    destruct (a !! _); try lia; destruct (is_key b2j _); lia.
Qed.

Lemma runZ_le a b2j t : 0 ≤ t → runZ a b2j t ≤ t + 1.
Proof.
  intros Ht. unfold runZ. rewrite decide_True by done.
  pose proof (run_le a b2j (Z.to_nat t)). lia.
Qed.



Lemma item_nonneg a i : 0 ≤ i → Difflib.item a i = a !! Z.to_nat i.
Proof. intros. unfold Difflib.item. by rewrite decide_True. Qed.

Lemma scan_row_diag a b2j i x j2len js newj2len best :
  0 ≤ i → a !! Z.to_nat i = Some x → is_Some (b2j !! x) →
  diag_row a b2j (i - 1) j2len →
  StronglySorted Z.lt js →
  (∀ j, j ∈ js → 0 ≤ j ∧ a !! Z.to_nat j = Some x) →
  (∀ j v, newj2len !! j = Some v → v ≤ runZ a b2j (Z.min i j)) →
  (i ∈ js ∨ (newj2len !! i = Some (runZ a b2j i) ∧ runZ a b2j i ≤ best.2
             ∧ ∀ j, j ∈ js → i < j)) →
  diag_best a b2j i (i + 1) best →
  let r := Difflib.scan_row i 0 (Z.of_nat (length a)) j2len js newj2len best in
  diag_row a b2j i r.1 ∧ diag_best a b2j (i + 1) (i + 1) r.2.
Proof.
  intros Hi Hx Hkey [Hprev Hpd]. revert newj2len best.
  induction js as [|j js IH]; intros newj2len best Hsort Hjs Hnew Hdiag Hbest; simpl.
  - destruct Hdiag as [Hin|(Hd & Hs & _)]; [by apply elem_of_nil in Hin|].
    pose proof (runZ_key a b2j i x Hi Hx Hkey) as Hr.
    pose proof (runZ_nonneg a b2j (i - 1)).
    split; [split; [done|]|].
    + by rewrite decide_True by lia.
    + destruct Hbest as (? & ? & ? & Hb). unfold diag_best.
      split; [done|]. split; [done|]. split; [done|].
      intros t Ht. destruct (decide (t = i)) as [->|]; [done|]. apply Hb. lia.
  - apply StronglySorted_inv in Hsort as [Hsort Hlt].
    rewrite Forall_forall in Hlt.
    destruct (Hjs j) as [Hj0 Hjx]; [by left|].
    pose proof (lookup_lt_Some _ _ _ Hjx) as Hjl.
    rewrite decide_False by lia. rewrite decide_False by lia.
    set (k := default 0 (j2len !! (j - 1)) + 1).
    assert (Hmin : runZ a b2j (Z.min i j) = runZ a b2j (Z.min i j - 1) + 1).
    { apply (runZ_key _ _ _ x); [lia| |done].
      destruct (Z.min_spec i j) as [[_ ->]|[_ ->]]; done. }
    assert (Hk : k ≤ runZ a b2j (Z.min i j)).
    { unfold k. rewrite Hmin.
      destruct (j2len !! (j - 1)) as [v|] eqn:Hv; simpl.
      - apply Hprev in Hv. replace (Z.min (i - 1) (j - 1)) with (Z.min i j - 1) in Hv by lia.
        lia.
      - pose proof (runZ_nonneg a b2j (Z.min i j - 1)). lia. }
    assert (Hnew' : ∀ j' v, <[j:=k]> newj2len !! j' = Some v →
                            v ≤ runZ a b2j (Z.min i j')).
    { intros j' v. destruct (decide (j = j')) as [<-|Hne].
      - rewrite lookup_insert_eq. by intros [= <-].
      - rewrite lookup_insert_ne by done. apply Hnew. }
    assert (Hjs' : ∀ j', j' ∈ js → 0 ≤ j' ∧ a !! Z.to_nat j' = Some x).
    { intros j' Hj'. apply Hjs. by right. }
    destruct Hbest as (Hb1 & Hb2 & Hb3 & Hb4).
    destruct best as [[bi bj] bs]. unfold Difflib.block_size. simpl in *.
    destruct (Z.lt_trichotomy j i) as [Hji|[->|Hji]].
    + (* below the diagonal *)
      assert (Hin : i ∈ js).
      { destruct Hdiag as [Hin|(_ & _ & Hall)].
        - apply elem_of_cons in Hin as [->|Hin]; [lia|done].
        - specialize (Hall j). ospecialize (Hall _); [by left|lia]. }
      replace (Z.min i j) with j in Hk by lia.
      rewrite decide_False by (specialize (Hb4 j Hji); lia).
      apply IH; try done. by left.
    + (* on the diagonal *)
      assert (Hki : k = runZ a b2j i).
      { replace (Z.min i i) with i in Hmin by lia. rewrite Hmin. unfold k.
        rewrite Hpd. pose proof (runZ_nonneg a b2j (i - 1)).
        destruct (decide (0 < runZ a b2j (i - 1))); simpl; lia. }
      pose proof (runZ_le a b2j i Hi) as Hle.
      apply IH; try done.
      * right. rewrite lookup_insert_eq. split; [by rewrite Hki|].
        split; [|by intros j' Hj'; apply Hlt].
        destruct (decide (bs < k)); simpl; lia.
      * destruct (decide (bs < k)); simpl; [|done].
        unfold diag_best. simpl. split; [done|]. split; [lia|]. split; [lia|].
        intros t Ht. specialize (Hb4 t Ht). lia.
    + (* above the diagonal *)
      destruct Hdiag as [Hin|(Hd & Hs & Hall)].
      { apply elem_of_cons in Hin as [->|Hin]; [lia|].
        specialize (Hlt i Hin). lia. }
      replace (Z.min i j) with i in Hk by lia.
      rewrite decide_False by lia.
      apply IH; try done.
      right. rewrite lookup_insert_ne by lia. split; [done|]. split; [done|].
      intros j' Hj'. apply Hall. by right.
Qed.

Lemma scan_rows_diag a b2j :
  (∀ x js, b2j !! x = Some js → js = positions_from 0 x a) →
  let la := Z.of_nat (length a) in
  diag_best a b2j la la (Difflib.scan_rows a b2j 0 la 0 la).2.
Proof.
  intros Hb2j la. unfold Difflib.scan_rows.
  set (P := λ (i : Z) (st : gmap Z Z * Difflib.block),
              diag_row a b2j (i - 1) st.1 ∧ diag_best a b2j i i st.2).
  match goal with |- diag_best _ _ _ _ (foldl ?f ?s _).2 =>
    cut (P (0 + (la - 0)) (foldl f s (seqZ 0 (la - 0)))) end.
  { intros [_ Hbest]. by replace (0 + (la - 0)) with la in Hbest by lia. }
  apply (foldl_seqZ_ind P); [lia| |].
  - split; [split|].
    + intros j v. simpl. by rewrite lookup_empty.
    + simpl. by rewrite lookup_empty.
    + unfold diag_best. simpl. split; [done|]. split; [done|]. split; [done|].
      intros t Ht. by rewrite runZ_neg.
  - intros i [j2len best] Hi [Hrow Hbest]. unfold P. simpl in *.
    replace (i + 1 - 1) with i by lia.
    rewrite item_nonneg by lia.
    destruct (a !! Z.to_nat i) as [x|] eqn:Hx.
    2: { apply lookup_ge_None in Hx. lia. }
    assert (Hs : 0 ≤ best.2).
    { destruct Hbest as (_ & _ & _ & Hb). specialize (Hb (-1)).
      rewrite runZ_neg in Hb by lia. apply Hb. lia. }
    destruct (b2j !! x) as [js|] eqn:Hjs; simpl.
    + pose proof (Hb2j x js Hjs) as ->.
      apply (scan_row_diag a b2j i x).
      * lia.
      * done.
      * done.
      * done.
      * apply positions_from_sorted.
      * intros j Hj. apply elem_of_positions_from in Hj as [Hj0 Hj].
        by replace (j - 0) with j in Hj by lia.
      * intros j v. by rewrite lookup_empty.
      * left. apply elem_of_positions_from. split; [lia|].
        by replace (i - 0) with i by lia.
      * destruct Hbest as (? & ? & ? & ?). unfold diag_best.
        split; [done|]. split; [done|]. split; [lia|done].
    + assert (Hr : runZ a b2j i = 0) by (apply (runZ_not_key a b2j i x); done || lia).
      split; [split|].
      * intros j v. simpl. by rewrite lookup_empty.
      * simpl. by rewrite lookup_empty, Hr.
      * destruct Hbest as (? & ? & ? & Hb). unfold diag_best.
        split; [done|]. split; [done|]. split; [lia|].
        intros t Ht. destruct (decide (t = i)) as [->|]; [|apply Hb; lia].
        by rewrite Hr.
Qed.

Lemma same_item_refl a i : 0 ≤ i < Z.of_nat (length a) → Difflib.same_item a i a i = true.
Proof.
  intros Hi. unfold Difflib.same_item. rewrite item_nonneg by lia.
  destruct (a !! Z.to_nat i) eqn:Hx; [by rewrite bool_decide_true|].
  apply lookup_ge_None in Hx. lia.
Qed.

Lemma isbjunk_at_false b j : Difflib.isbjunk_at (A:=A) b j = false.
Proof.
  unfold Difflib.isbjunk_at. destruct (Difflib.item b j); [|done].
  apply bool_decide_false. unfold Difflib.bjunk. apply not_elem_of_empty.
Qed.

(** On the diagonal of [a] against itself the first loop walks back to
    the start of the sequence. *)
Lemma extend_left_diag a n d s :
  d = Z.of_nat n → d + s ≤ Z.of_nat (length a) → 0 ≤ s →
  Difflib.extend_left n false a a 0 0 (d, d, s) = (0, 0, s + d).
Proof.
  revert d s. induction n as [|n IH]; intros d s Hd Hn Hs; cbn [Difflib.extend_left].
  { subst d. f_equal. simpl. lia. }
  rewrite isbjunk_at_false, same_item_refl by lia.
  rewrite !bool_decide_true by lia. cbn [andb].
  rewrite IH by lia. f_equal. lia.
Qed.

(** The second loop then walks to its end. *)
Lemma extend_right_diag a n s :
  s + Z.of_nat n = Z.of_nat (length a) → 0 ≤ s →
  Difflib.extend_right n false a a (Z.of_nat (length a)) (Z.of_nat (length a)) (0, 0, s)
  = (0, 0, Z.of_nat (length a)).
Proof.
  revert s. induction n as [|n IH]; intros s Hn Hs; cbn [Difflib.extend_right].
  { f_equal. lia. }
  replace (0 + s) with s by lia.
  rewrite isbjunk_at_false, same_item_refl by lia.
  rewrite !bool_decide_true by lia. cbn [andb].
  rewrite IH by lia. done.
Qed.

(** Asked for the longest block of [a] against itself,
    [find_longest_match] returns all of [a]. *)
Lemma find_longest_match_same a b2j :
  (∀ x js, b2j !! x = Some js → js = positions_from 0 x a) →
  let la := Z.of_nat (length a) in
  Difflib.find_longest_match a a b2j 0 la 0 la = (0, 0, la).
Proof.
  intros Hb2j la. unfold Difflib.find_longest_match.
  pose proof (scan_rows_diag a b2j Hb2j) as (Hd & Hd0 & Hdl & Hr).
  fold la in Hd, Hd0, Hdl, Hr.
  destruct (Difflib.scan_rows a b2j 0 la 0 la).2 as [[d d'] s]. simpl in *. subst d'.
  assert (Hs : 0 ≤ s).
  { specialize (Hr (-1)). rewrite runZ_neg in Hr by lia. apply Hr. unfold la. lia. }
  assert (Hfirst : Difflib.extend false a a 0 la 0 la (d, d, s) = (0, 0, la)).
  { unfold Difflib.extend. cbn [fst snd]. replace (d - 0) with d by lia.
    rewrite (extend_left_diag a (Z.to_nat d) d s) by lia. cbn [fst snd].
    apply extend_right_diag; lia. }
  rewrite Hfirst. unfold Difflib.extend. simpl.
  replace (la - (0 + la)) with 0 by lia. done.
Qed.

(** Every element of a sequence matches when the sequence is compared
    with itself. *)
Lemma matches_same autojunk a :
  Difflib.matches autojunk a a = Some (Z.of_nat (length a)).
Proof.
  unfold Difflib.matches, Difflib.get_matching_blocks, Difflib.loop_budget.
  replace (2 * length a + 1)%nat with (S (2 * length a)) by lia.
  cbn [Difflib.blocks_loop].
  rewrite find_longest_match_same by apply chain_b_lookup.
  destruct (decide (Z.of_nat (length a) ≠ 0)) as [Hla|Hla].
  - rewrite decide_False by lia. rewrite decide_False by lia.
    destruct (2 * length a)%nat; simpl;
      match goal with |- Some ?t = _ =>
        change t with (total (Difflib.collapse (Z.of_nat (length a)) (Z.of_nat (length a))
                         (merge_sort (λ x y, Difflib.block_leb x y)
                            [(0, 0, Z.of_nat (length a))]))) end;
      rewrite collapse_total,
        (total_perm _ [(0, 0, Z.of_nat (length a))]) by apply merge_sort_Permutation;
      by rewrite total_singleton.
  - destruct (2 * length a)%nat; simpl; f_equal; lia.
Qed.

(** *** Sequences without a common element *)

Lemma item_elem a i x : Difflib.item a i = Some x → x ∈ a.
Proof.
  unfold Difflib.item. repeat case_decide; try done;
    intros Hl; by apply list_elem_of_lookup_2 in Hl.
Qed.

Lemma chain_b_key_elem autojunk b x js :
  Difflib.chain_b autojunk b !! x = Some js → x ∈ b.
Proof.
  unfold Difflib.chain_b, Difflib.purge_popular. intros Hl.
  assert (Hi : Difflib.index_positions 0 b ∅ !! x = Some js).
  { destruct (_ && _); [|done]. by apply map_lookup_filter_Some in Hl as [? _]. }
  rewrite index_positions_lookup, lookup_empty in Hi.
  destruct (positions_from 0 x b) as [|j ps] eqn:Hps; [done|].
  assert (Hj : j ∈ positions_from 0 x b) by (rewrite Hps; by left).
  apply elem_of_positions_from in Hj as [_ Hj].
  by apply list_elem_of_lookup_2 in Hj.
Qed.

Lemma same_item_disjoint a b i j :
  (∀ x, x ∈ a → x ∉ b) → Difflib.same_item a i b j = false.
Proof.
  intros Hab. unfold Difflib.same_item.
  destruct (Difflib.item a i) as [x|] eqn:Hx; [|done].
  destruct (Difflib.item b j) as [y|] eqn:Hy; [|done].
  apply bool_decide_false. intros ->.
  apply item_elem in Hx, Hy. by apply (Hab y).
Qed.

Lemma extend_disjoint junk a b alo ahi blo bhi best :
  (∀ x, x ∈ a → x ∉ b) → Difflib.extend junk a b alo ahi blo bhi best = best.
Proof.
  intros Hab. unfold Difflib.extend.
  assert (Hl : ∀ n, Difflib.extend_left n junk a b alo blo best = best).
  { intros [|n]; [done|]. destruct best as [[bi bj] bs]. simpl.
    by rewrite same_item_disjoint, andb_false_r. }
  rewrite Hl.
  destruct (Z.to_nat _) as [|n]; [done|]. destruct best as [[bi bj] bs]. simpl.
  by rewrite same_item_disjoint, andb_false_r.
Qed.

Lemma scan_rows_disjoint a b2j alo ahi blo bhi :
  (∀ x, x ∈ a → b2j !! x = None) →
  (Difflib.scan_rows a b2j alo ahi blo bhi).2 = (alo, blo, 0).
Proof.
  intros Hab. unfold Difflib.scan_rows.
  generalize (seqZ alo (ahi - alo)). intros l.
  assert (Hgen : ∀ j2len,
    (foldl (λ '(j2len, best) i,
              match Difflib.item a i with
              | Some x => Difflib.scan_row i blo bhi j2len (default [] (b2j !! x)) ∅ best
              | None => (∅, best)
              end) (j2len, (alo, blo, 0)) l).2 = (alo, blo, 0)); [|apply Hgen].
  induction l as [|i l IH]; intros j2len; simpl; [done|].
  destruct (Difflib.item a i) as [x|] eqn:Hx; [|apply IH].
  apply item_elem, Hab in Hx. rewrite Hx. simpl. apply IH.
Qed.

(** Sequences without a common element have no matching block. *)
Lemma matches_disjoint autojunk a b :
  (∀ x, x ∈ a → x ∉ b) → Difflib.matches autojunk a b = Some 0.
Proof.
  intros Hab.
  unfold Difflib.matches, Difflib.get_matching_blocks, Difflib.loop_budget.
  replace (2 * length a + 1)%nat with (S (2 * length a)) by lia.
  cbn [Difflib.blocks_loop]. unfold Difflib.find_longest_match.
  rewrite !extend_disjoint by done. rewrite scan_rows_disjoint.
  - destruct (2 * length a)%nat; done.
  - intros x Hx. destruct (Difflib.chain_b autojunk b !! x) eqn:Hl; [|done].
    apply chain_b_key_elem in Hl. by destruct (Hab x).
Qed.

(** *** A block common to both sequences *)

Lemma scan_row_mono i blo bhi j2len js newj2len best :
  best.2 ≤ (Difflib.scan_row i blo bhi j2len js newj2len best).2.2.
Proof.
  revert newj2len best. induction js as [|j js IH]; intros newj2len best; simpl; [done|].
  destruct (decide (j < blo)); [apply IH|].
  destruct (decide (bhi ≤ j)); [done|].
  etrans; [|apply IH].
  destruct best as [[bi bj] bs]. unfold Difflib.block_size. simpl.
  destruct (decide (bs < _)); simpl; lia.
Qed.

(** In the row of [i], the turn of [j] records a length that is one more
    than the length recorded for [j - 1] in the row before, and [best]
    is at least as long afterwards. *)
Lemma scan_row_lower i blo bhi j2len js newj2len best j d :
  blo ≤ j < bhi → 0 ≤ d →
  StronglySorted Z.lt js →
  (∀ j' v, j2len !! j' = Some v → 0 ≤ v) →
  (0 < d → ∃ v, j2len !! (j - 1) = Some v ∧ d ≤ v) →
  (j ∈ js ∨ ((∃ v, newj2len !! j = Some v ∧ d + 1 ≤ v) ∧ d + 1 ≤ best.2
             ∧ ∀ j', j' ∈ js → j < j')) →
  let r := Difflib.scan_row i blo bhi j2len js newj2len best in
  (∃ v, r.1 !! j = Some v ∧ d + 1 ≤ v) ∧ d + 1 ≤ r.2.2.
Proof.
  intros Hj Hd Hsort Hpos Hprev. revert newj2len best Hsort.
  induction js as [|j' js IH]; intros newj2len best Hsort Hdone; simpl.
  { destruct Hdone as [Hin|(Hv & Hb & _)]; [by apply elem_of_nil in Hin|done]. }
  apply StronglySorted_inv in Hsort as [Hsort Hlt]. rewrite Forall_forall in Hlt.
  destruct (decide (j' < blo)) as [Hlo|Hlo].
  { apply IH; [done|]. destruct Hdone as [Hin|(Hv & Hb & Hall)].
    - apply elem_of_cons in Hin as [->|Hin]; [lia|by left].
    - right. split; [done|]. split; [done|]. intros j'' Hj''. apply Hall. by right. }
  destruct (decide (bhi ≤ j')) as [Hhi|Hhi].
  { destruct Hdone as [Hin|(Hv & Hb & _)]; [|done].
    apply elem_of_cons in Hin as [->|Hin]; [lia|]. specialize (Hlt j Hin). lia. }
  apply IH; [done|].
  destruct best as [[bi bj] bs]. unfold Difflib.block_size. simpl in *.
  destruct Hdone as [Hin|(Hv & Hb & Hall)].
  - apply elem_of_cons in Hin as [->|Hin]; [|by left].
    right.
    assert (Hk : d + 1 ≤ default 0 (j2len !! (j' - 1)) + 1).
    { destruct (decide (0 < d)) as [Hd0|Hz].
      - destruct (Hprev Hd0) as (v & -> & Hv). simpl. lia.
      - destruct (j2len !! (j' - 1)) as [v|] eqn:Hv; simpl; [|lia].
        apply Hpos in Hv. lia. }
    rewrite lookup_insert_eq. split; [eauto|]. split.
    + destruct (decide (bs < _)); simpl; lia.
    + done.
  - right. assert (j < j') by (apply Hall; by left).
    rewrite lookup_insert_ne by lia.
    split; [done|]. split.
    + destruct (decide (bs < _)); simpl; lia.
    + intros j'' Hj''. apply Hall. by right.
Qed.

Lemma extend_left_mono n junk a b alo blo best :
  best.2 ≤ (Difflib.extend_left n junk a b alo blo best).2.
Proof.
  revert best. induction n as [|n IH]; intros [[bi bj] bs]; simpl; [done|].
  destruct (_ && _); [|done]. etrans; [|apply IH]. simpl. lia.
Qed.

Lemma extend_right_mono n junk a b ahi bhi best :
  best.2 ≤ (Difflib.extend_right n junk a b ahi bhi best).2.
Proof.
  revert best. induction n as [|n IH]; intros [[bi bj] bs]; simpl; [done|].
  destruct (_ && _); [|done]. etrans; [|apply IH]. simpl. lia.
Qed.

Lemma extend_mono junk a b alo ahi blo bhi best :
  best.2 ≤ (Difflib.extend junk a b alo ahi blo bhi best).2.
Proof.
  unfold Difflib.extend. etrans; [|apply extend_right_mono]. apply extend_left_mono.
Qed.

(** When every element of [b] is a key of [b2j], the block that the scan
    finds is at least as long as any common block of the window. *)
Lemma scan_rows_lower a b b2j alo ahi blo bhi i0 j0 n :
  (∀ x, default [] (b2j !! x) = positions_from 0 x b) →
  common_block a b i0 j0 n →
  0 ≤ alo → alo ≤ i0 → i0 + n ≤ ahi → blo ≤ j0 → j0 + n ≤ bhi →
  alo ≤ ahi → blo ≤ bhi →
  n ≤ (Difflib.scan_rows a b2j alo ahi blo bhi).2.2.
Proof.
  intros Hb2j (Hi0 & Hj0 & Hcommon) Halo Hai Hia Hbj Hjb Ha Hb. unfold Difflib.scan_rows.
  set (P := λ (i : Z) (st : gmap Z Z * Difflib.block),
              row_ok alo blo (i - 1) st.1 ∧ best_ok alo blo bhi i st.2
              ∧ (i0 < i ≤ i0 + n →
                 ∃ v, st.1 !! (j0 + (i - 1 - i0)) = Some v ∧ i - i0 ≤ v)
              ∧ Z.min n (i - i0) ≤ st.2.2).
  match goal with |- _ ≤ (foldl ?f ?s _).2.2 =>
    cut (P (alo + (ahi - alo)) (foldl f s (seqZ alo (ahi - alo)))) end.
  { intros (_ & _ & _ & Hbest). lia. }
  apply (foldl_seqZ_ind P); [lia| |].
  - split; [apply row_ok_empty|]. split; [unfold best_ok; simpl; lia|].
    split; [lia|simpl; lia].
  - intros i [j2len best] Hi (Hrow & Hbest & Hprev & Hmin). unfold P. simpl in *.
    replace (i + 1 - 1) with i by lia.
    assert (Hok : ∀ x,
      row_ok alo blo i
        (Difflib.scan_row i blo bhi j2len (default [] (b2j !! x)) ∅ best).1
      ∧ best_ok alo blo bhi (i + 1)
          (Difflib.scan_row i blo bhi j2len (default [] (b2j !! x)) ∅ best).2).
    { intros x. apply (scan_row_ok i alo blo bhi); [lia|done|apply row_ok_empty|].
      unfold best_ok in *. lia. }
    pose proof (λ x, scan_row_mono i blo bhi j2len (default [] (b2j !! x)) ∅ best)
      as Hmono.
    rewrite item_nonneg by lia.
    destruct (decide (i0 ≤ i < i0 + n)) as [Hin|Hout].
    + destruct (Hcommon (i - i0)) as (x & Hax & Hbx); [lia|].
      replace (i0 + (i - i0)) with i in Hax by lia. rewrite Hax.
      destruct (Hok x) as [Hr Hb']. split; [done|]. split; [done|].
      destruct (scan_row_lower i blo bhi j2len (default [] (b2j !! x)) ∅ best
                  (j0 + (i - i0)) (i - i0)) as [Hv Hs].
      * lia.
      * lia.
      * rewrite Hb2j. apply positions_from_sorted.
      * intros j' v Hv. apply Hrow in Hv. lia.
      * intros Hd. destruct Hprev as (v & Hv & Hle); [lia|].
        exists v. split; [|lia]. rewrite <- Hv. f_equal. lia.
      * left. rewrite Hb2j. apply elem_of_positions_from. split; [lia|].
        rewrite <- Hbx. f_equal. lia.
      * split.
        -- intros _. destruct Hv as (v & Hv & Hle). exists v. split; [done|lia].
        -- lia.
    + destruct (a !! Z.to_nat i) as [x|].
      * destruct (Hok x) as [Hr Hb']. split; [done|]. split; [done|].
        split; [intros ?; lia|]. specialize (Hmono x).
        unfold best_ok in Hbest. lia.
      * split; [apply row_ok_empty|]. split; [unfold best_ok in *; simpl; lia|].
        split; [intros ?; lia|]. unfold best_ok in Hbest. simpl. lia.
Qed.

Lemma find_longest_match_lower a b b2j alo ahi blo bhi i0 j0 n :
  (∀ x, default [] (b2j !! x) = positions_from 0 x b) →
  common_block a b i0 j0 n →
  0 ≤ alo → alo ≤ i0 → i0 + n ≤ ahi → blo ≤ j0 → j0 + n ≤ bhi →
  alo ≤ ahi → blo ≤ bhi →
  n ≤ (Difflib.find_longest_match a b b2j alo ahi blo bhi).2.
Proof.
  intros. unfold Difflib.find_longest_match.
  etrans; [|apply extend_mono]. etrans; [|apply extend_mono].
  by eapply scan_rows_lower.
Qed.

(** Without the purge of popular elements, [b2j] holds every position of
    every element. *)
Lemma chain_b_all autojunk b x :
  autojunk = false ∨ (length b < 200)%nat →
  default [] (Difflib.chain_b autojunk b !! x) = positions_from 0 x b.
Proof.
  intros Hj. unfold Difflib.chain_b, Difflib.purge_popular.
  assert ((autojunk && bool_decide (200 ≤ Z.of_nat (length b))) = false) as ->.
  { destruct Hj as [->|Hl]; [done|]. rewrite bool_decide_false by lia.
    apply andb_false_r. }
  rewrite index_positions_lookup, lookup_empty.
  by destruct (positions_from 0 x b).
Qed.

(** A common block is matched, or something at least as long. *)
Lemma matches_lower autojunk a b i0 j0 n :
  autojunk = false ∨ (length b < 200)%nat →
  common_block a b i0 j0 n →
  i0 + n ≤ Z.of_nat (length a) → j0 + n ≤ Z.of_nat (length b) →
  ∃ m, Difflib.matches autojunk a b = Some m ∧ n ≤ m.
Proof.
  intros Hj Hc Hia Hjb.
  destruct (matches_bounds autojunk a b) as (m & Hm & Hm0 & _).
  exists m. split; [done|].
  destruct (decide (n ≤ 0)) as [|Hn]; [lia|].
  revert Hm.
  unfold Difflib.matches, Difflib.get_matching_blocks, Difflib.loop_budget.
  replace (2 * length a + 1)%nat with (S (2 * length a)) by lia.
  cbn [Difflib.blocks_loop].
  set (la := Z.of_nat (length a)). set (lb := Z.of_nat (length b)).
  pose proof (find_longest_match_lower a b (Difflib.chain_b autojunk b)
                0 la 0 lb i0 j0 n) as Hlow.
  pose proof (find_longest_match_ok a b (Difflib.chain_b autojunk b) 0 la 0 lb) as Hok.
  destruct (Difflib.find_longest_match a b (Difflib.chain_b autojunk b) 0 la 0 lb)
    as [[i j] k].
  simpl in Hlow. unfold best_ok in Hok. simpl in Hok.
  destruct Hc as (Hi0 & Hj0 & Hc).
  ospecialize (Hlow _ _ _ _ _ _ _ _ _); try (unfold la, lb; lia).
  { intros x. by apply chain_b_all. }
  { done. }
  ospecialize (Hok _ _); try (unfold la, lb; lia).
  rewrite decide_True by lia.
  set (q1 := if decide (0 < i ∧ 0 < j) then [(0, i, 0, j)] else []).
  set (q2 := if decide (i + k < la ∧ j + k < lb) then (i + k, la, j + k, lb) :: q1 else q1).
  match goal with |- context [Difflib.blocks_loop ?f _ _ ?m ?q ?acc] =>
    destruct (blocks_loop_total a b m f q acc) as (blocks & Hrun & Hlo & _) end.
  - unfold q2, q1. repeat case_decide; repeat constructor; simpl; lia.
  - unfold q2, q1. repeat case_decide; simpl; lia.
  - rewrite Hrun. simpl. intros [= <-].
    fold (total (Difflib.collapse la lb (merge_sort (λ x y, Difflib.block_leb x y) blocks))).
    rewrite collapse_total, (total_perm _ blocks) by apply merge_sort_Permutation.
    simpl in Hlo. rewrite total_singleton in Hlo. simpl in Hlo. lia.
Qed.

(** When one sequence occurs in the other as a block, all of its elements
    are matched, in either order of the two. *)
Lemma matches_contiguous autojunk a b :
  contiguous_in a b →
  (autojunk = false ∨ (length b < 200)%nat →
   Difflib.matches autojunk a b = Some (Z.of_nat (length a)))
  ∧ (autojunk = false ∨ (length a < 200)%nat →
     Difflib.matches autojunk b a = Some (Z.of_nat (length a))).
Proof.
  intros (pre & post & ->). split; intros Hj.
  - destruct (matches_lower autojunk a (pre ++ a ++ post) 0 (Z.of_nat (length pre))
                (Z.of_nat (length a))) as (m & Hm & Hle); [done| |lia| |].
    + split; [lia|]. split; [lia|]. intros t Ht.
      destruct (a !! Z.to_nat t) as [x|] eqn:Hx.
      2: { apply lookup_ge_None in Hx. lia. }
      exists x. split; [by replace (0 + t) with t by lia|].
      rewrite lookup_app_r by lia.
      replace (Z.to_nat (Z.of_nat (length pre) + t) - length pre)%nat
        with (Z.to_nat t) by lia.
      by rewrite lookup_app_l by lia.
    + rewrite !length_app. lia.
    + destruct (matches_bounds autojunk a (pre ++ a ++ post)) as (m' & Hm' & Hb & _).
      rewrite Hm in Hm'. injection Hm' as <-. rewrite Hm. f_equal. lia.
  - destruct (matches_lower autojunk (pre ++ a ++ post) a (Z.of_nat (length pre)) 0
                (Z.of_nat (length a))) as (m & Hm & Hle); [done| | |lia|].
    + split; [lia|]. split; [lia|]. intros t Ht.
      destruct (a !! Z.to_nat t) as [x|] eqn:Hx.
      2: { apply lookup_ge_None in Hx. lia. }
      exists x. split; [|by replace (0 + t) with t by lia].
      rewrite lookup_app_r by lia.
      replace (Z.to_nat (Z.of_nat (length pre) + t) - length pre)%nat
        with (Z.to_nat t) by lia.
      by rewrite lookup_app_l by lia.
    + rewrite !length_app. lia.
    + destruct (matches_bounds autojunk (pre ++ a ++ post) a) as (m' & Hm' & _ & Hb).
      rewrite Hm in Hm'. injection Hm' as <-. rewrite Hm. f_equal. lia.
Qed.

End difflib_facts.

(** ** Facts about binary64 rounding *)

Section float_facts.
Local Open Scope Q_scope.
Import Float.

Lemma pow2_pos e : 0 < pow2 e.
Proof. apply Qpower_0_lt. reflexivity. Qed.

Lemma pow2_add a b : pow2 (a + b) == pow2 a * pow2 b.
Proof. apply Qpower_plus. discriminate. Qed.

Lemma pow2_sub a b : pow2 (a - b) == pow2 a / pow2 b.
Proof.
  unfold pow2, Z.sub. rewrite Qpower_plus by discriminate.
  by rewrite Qpower_opp.
Qed.

Lemma pow2_le a b : (a ≤ b)%Z → pow2 a <= pow2 b.
Proof. intros. apply Qpower_le_compat_l; [done|discriminate]. Qed.

Lemma pow2_lt a b : (a < b)%Z → pow2 a < pow2 b.
Proof. intros. apply Qpower_lt_compat_l; [done|reflexivity]. Qed.

Lemma pow2_lt_inv a b : pow2 a < pow2 b → (a < b)%Z.
Proof. intros. eapply Qpower_lt_compat_l_inv; [done|reflexivity]. Qed.

Lemma pow2_Z e : (0 ≤ e)%Z → pow2 e == inject_Z (2 ^ e).
Proof. intros. unfold pow2. by rewrite Zpower_Qpower. Qed.

Lemma pow2_succ e : pow2 (e + 1) == 2 * pow2 e.
Proof. rewrite pow2_add. unfold pow2 at 2. simpl. ring. Qed.

(** *** The binary exponent *)

Lemma Qdiv_lt_cross a b c d :
  0 < b → 0 < d → a * d < c * b → a / b < c / d.
Proof.
  intros Hb Hd Hlt.
  apply Qlt_shift_div_r; [done|].
  assert (E : c / d * b == c * b / d) by (field; lra). rewrite E.
  apply Qlt_shift_div_l; [done|]. done.
Qed.

Lemma Qdiv_le_cross a b c d :
  0 < b → 0 < d → a * d <= c * b → a / b <= c / d.
Proof.
  intros Hb Hd Hle.
  apply Qle_shift_div_r; [done|].
  assert (E : c / d * b == c * b / d) by (field; lra). rewrite E.
  apply Qle_shift_div_l; [done|]. done.
Qed.

Lemma ilog2_spec x : 0 < x → pow2 (ilog2 x) <= x ∧ x < pow2 (ilog2 x + 1).
Proof.
  intros Hx. destruct x as [n d]. unfold ilog2. cbn [Qnum Qden].
  assert (Hn : (0 < n)%Z) by (unfold Qlt in Hx; simpl in Hx; lia).
  set (ln := Z.log2 n). set (ld := Z.log2 (Z.pos d)).
  destruct (Z.log2_spec n Hn) as [Hn1 Hn2]. fold ln in Hn1, Hn2.
  destruct (Z.log2_spec (Z.pos d)) as [Hd1 Hd2]; [done|]. fold ld in Hd1, Hd2.
  assert (Hln : (0 ≤ ln)%Z) by apply Z.log2_nonneg.
  assert (Hld : (0 ≤ ld)%Z) by apply Z.log2_nonneg.
  assert (Hq : n # d == inject_Z n / inject_Z (Z.pos d)) by apply Qmake_Qdiv.
  assert (Hdpos : 0 < inject_Z (Z.pos d)) by (by rewrite <- (Zlt_Qlt 0)).
  assert (Hlow : pow2 (ln - ld - 1) <= n # d).
  { rewrite Hq. replace (ln - ld - 1)%Z with (ln - (ld + 1))%Z by lia.
    rewrite pow2_sub. apply Qdiv_le_cross; [apply pow2_pos|done|].
    rewrite !pow2_Z by lia. rewrite <- !inject_Z_mult, <- Zle_Qle. nia. }
  assert (Hhigh : n # d < pow2 (ln - ld + 1)).
  { rewrite Hq. replace (ln - ld + 1)%Z with (ln + 1 - ld)%Z by lia.
    rewrite pow2_sub. apply Qdiv_lt_cross; [done|apply pow2_pos|].
    rewrite !pow2_Z by lia. rewrite <- !inject_Z_mult, <- Zlt_Qlt.
    replace (Z.succ ln) with (ln + 1)%Z in Hn2 by lia. nia. }
  destruct (Qle_bool (pow2 (ln - ld)) (n # d)) eqn:Ht.
  - apply Qle_bool_iff in Ht. done.
  - split; [done|]. replace (ln - ld - 1 + 1)%Z with (ln - ld)%Z by lia.
    apply Qnot_le_lt. intros Hle. apply Qle_bool_iff in Hle. congruence.
Qed.

Lemma ilog2_unique x k : pow2 k <= x → x < pow2 (k + 1) → ilog2 x = k.
Proof.
  intros Hlo Hhi.
  assert (Hx : 0 < x) by (eapply Qlt_le_trans; [apply pow2_pos|done]).
  destruct (ilog2_spec x Hx) as [Hlo' Hhi'].
  assert (ilog2 x < k + 1)%Z.
  { apply pow2_lt_inv. eapply Qle_lt_trans; done. }
  assert (k < ilog2 x + 1)%Z.
  { apply pow2_lt_inv. eapply Qle_lt_trans; done. }
  lia.
Qed.

(** *** Rounding to the nearest integer *)

Lemma rne_Z n : rne (inject_Z n) = n.
Proof.
  unfold rne. rewrite Qfloor_Z.
  destruct (Qcompare_spec (inject_Z n - inject_Z n) (1 # 2)); [lra|done|lra].
Qed.

Lemma rne_mono x y : x <= y → (rne x ≤ rne y)%Z.
Proof.
  intros Hxy. unfold rne.
  pose proof (Qfloor_resp_le x y Hxy) as Hfg.
  pose proof (Qfloor_le x) as Hx1. pose proof (Qlt_floor x) as Hx2.
  pose proof (Qfloor_le y) as Hy1. pose proof (Qlt_floor y) as Hy2.
  set (f := Qfloor x) in *. set (g := Qfloor y) in *.
  destruct (Z.eq_dec f g) as [E|NE].
  - rewrite <- E in *. clearbody f. clear E g.
    destruct (Qcompare_spec (x - inject_Z f) (1 # 2)),
      (Qcompare_spec (y - inject_Z f) (1 # 2));
      destruct (Z.even f); try lia; exfalso; lra.
  - destruct (x - inject_Z f ?= 1 # 2), (y - inject_Z g ?= 1 # 2);
      destruct (Z.even f), (Z.even g); lia.
Qed.

Lemma rne_comp x y : x == y → rne x = rne y.
Proof.
  intros Hxy. apply Z.le_antisymm; apply rne_mono; rewrite Hxy; apply Qle_refl.
Qed.

Lemma rne_le_Z x n : x <= inject_Z n → (rne x ≤ n)%Z.
Proof. intros Hx. rewrite <- (rne_Z n). by apply rne_mono. Qed.

Lemma rne_ge_Z x n : inject_Z n <= x → (n ≤ rne x)%Z.
Proof. intros Hx. rewrite <- (rne_Z n). by apply rne_mono. Qed.

(** *** Rounding a positive number *)

(** The scaled value that [round_pos] rounds to an integer lies between
    [2^52] and [2^53]. *)
Lemma scaled_bounds x :
  0 < x →
  inject_Z (2 ^ 52) <= x / pow2 (ilog2 x - 52)
  ∧ x / pow2 (ilog2 x - 52) <= inject_Z (2 ^ 53).
Proof.
  intros Hx. destruct (ilog2_spec x Hx) as [Hlo Hhi].
  set (k := ilog2 x) in *.
  pose proof (pow2_pos (k - 52)) as He.
  assert (H52 : pow2 k == inject_Z (2 ^ 52) * pow2 (k - 52)).
  { rewrite <- pow2_Z by lia. rewrite <- pow2_add. by replace (52 + (k - 52))%Z with k by lia. }
  assert (H53 : pow2 (k + 1) == inject_Z (2 ^ 53) * pow2 (k - 52)).
  { rewrite <- pow2_Z by lia. rewrite <- pow2_add.
    by replace (53 + (k - 52))%Z with (k + 1)%Z by lia. }
  split.
  - apply Qle_shift_div_l; [done|]. by rewrite <- H52.
  - apply Qle_shift_div_r; [done|]. rewrite <- H53. by apply Qlt_le_weak.
Qed.

Lemma round_pos_bounds x :
  0 < x → pow2 (ilog2 x) <= round_pos x ∧ round_pos x <= pow2 (ilog2 x + 1).
Proof.
  intros Hx. unfold round_pos.
  destruct (scaled_bounds x Hx) as [Hlo Hhi].
  set (k := ilog2 x) in *.
  pose proof (pow2_pos (k - 52)) as He.
  apply rne_ge_Z in Hlo. apply rne_le_Z in Hhi. rewrite Zle_Qle in Hlo, Hhi.
  assert (H52 : pow2 k == inject_Z (2 ^ 52) * pow2 (k - 52)).
  { rewrite <- pow2_Z by lia. rewrite <- pow2_add. by replace (52 + (k - 52))%Z with k by lia. }
  assert (H53 : pow2 (k + 1) == inject_Z (2 ^ 53) * pow2 (k - 52)).
  { rewrite <- pow2_Z by lia. rewrite <- pow2_add.
    by replace (53 + (k - 52))%Z with (k + 1)%Z by lia. }
  rewrite H52, H53. split; apply Qmult_le_compat_r; (done || lra).
Qed.

Lemma round_pos_pos x : 0 < x → 0 < round_pos x.
Proof.
  intros Hx. destruct (round_pos_bounds x Hx) as [Hlo _].
  eapply Qlt_le_trans; [apply pow2_pos|done].
Qed.

Lemma ilog2_mono x y : 0 < x → x <= y → (ilog2 x ≤ ilog2 y)%Z.
Proof.
  intros Hx Hxy. assert (Hy : 0 < y) by lra.
  destruct (ilog2_spec x Hx) as [Hlo _]. destruct (ilog2_spec y Hy) as [_ Hhi].
  assert (ilog2 x < ilog2 y + 1)%Z; [|lia].
  apply pow2_lt_inv. lra.
Qed.

Lemma round_pos_mono x y : 0 < x → x <= y → round_pos x <= round_pos y.
Proof.
  intros Hx Hxy. assert (Hy : 0 < y) by lra.
  pose proof (ilog2_mono x y Hx Hxy) as Hk.
  destruct (Z.eq_dec (ilog2 x) (ilog2 y)) as [E|NE].
  - unfold round_pos. rewrite E.
    pose proof (pow2_pos (ilog2 y - 52)) as He.
    apply Qmult_le_compat_r; [|lra].
    rewrite <- Zle_Qle. apply rne_mono.
    apply Qmult_le_compat_r; [done|]. apply Qlt_le_weak, Qinv_lt_0_compat, He.
  - destruct (round_pos_bounds x Hx) as [_ Hhi].
    destruct (round_pos_bounds y Hy) as [Hlo _].
    pose proof (pow2_le (ilog2 x + 1) (ilog2 y) ltac:(lia)). lra.
Qed.

Lemma round_pos_comp x y : 0 < x → x == y → round_pos x == round_pos y.
Proof.
  intros Hx Hxy. assert (Hy : 0 < y) by lra.
  apply Qle_antisym; apply round_pos_mono; lra.
Qed.

(** *** Rounding *)

Lemma nearest_mono x y : x <= y → nearest x <= nearest y.
Proof.
  intros Hxy. unfold nearest.
  destruct (Qcompare_spec x 0) as [Hx|Hx|Hx], (Qcompare_spec y 0) as [Hy|Hy|Hy];
    try lra.
  - pose proof (round_pos_pos y Hy). lra.
  - pose proof (round_pos_pos (- x)). lra.
  - pose proof (round_pos_mono (- y) (- x)). lra.
  - pose proof (round_pos_pos (- x)). pose proof (round_pos_pos y Hy). lra.
  - by apply round_pos_mono.
Qed.

Lemma rnd_mono x y : x <= y → rnd x <= rnd y.
Proof. intros Hxy. unfold rnd. rewrite !Qred_correct. by apply nearest_mono. Qed.

(** Equal rationals round to the same float. *)
Lemma rnd_comp x y : x == y → rnd x = rnd y.
Proof.
  intros Hxy. apply Qred_complete.
  apply Qle_antisym; apply nearest_mono; lra.
Qed.

Lemma nearest_comp x y : x == y → nearest x == nearest y.
Proof. intros Hxy. apply Qle_antisym; apply nearest_mono; lra. Qed.

(** Doubling commutes with rounding. *)
Lemma round_pos_double x : 0 < x → round_pos (2 * x) == 2 * round_pos x.
Proof.
  intros Hx. destruct (ilog2_spec x Hx) as [Hlo Hhi].
  assert (Hk : ilog2 (2 * x) = (ilog2 x + 1)%Z).
  { apply ilog2_unique.
    - rewrite pow2_succ. lra.
    - rewrite pow2_succ. lra. }
  unfold round_pos. rewrite Hk.
  replace (ilog2 x + 1 - 52)%Z with (ilog2 x - 52 + 1)%Z by lia.
  set (e := (ilog2 x - 52)%Z). pose proof (pow2_pos e) as He.
  rewrite (rne_comp (2 * x / pow2 (e + 1)) (x / pow2 e)).
  - rewrite pow2_succ. ring.
  - rewrite pow2_succ. field. lra.
Qed.

Lemma nearest_double x : nearest (2 * x) == 2 * nearest x.
Proof.
  unfold nearest.
  destruct (Qcompare_spec x 0) as [Hx|Hx|Hx],
    (Qcompare_spec (2 * x) 0) as [Hy|Hy|Hy]; try lra.
  - rewrite (round_pos_comp (- (2 * x)) (2 * - x)) by lra.
    rewrite round_pos_double by lra. ring.
  - by apply round_pos_double.
Qed.

(** A number with a significand below [2^53] is its own rounding. *)
Lemma round_pos_exact m e :
  (0 < m < 2 ^ 53)%Z → round_pos (inject_Z m * pow2 e) == inject_Z m * pow2 e.
Proof.
  intros [Hm0 Hm]. set (y := inject_Z m * pow2 e).
  pose proof (pow2_pos e) as He.
  assert (Hm0' : 0 < inject_Z m) by (by rewrite <- (Zlt_Qlt 0)).
  assert (Hm' : inject_Z m < inject_Z (2 ^ 53)) by (by rewrite <- Zlt_Qlt).
  assert (Hy : 0 < y) by (unfold y; nra).
  destruct (ilog2_spec y Hy) as [Hlo _].
  assert (Hk : (ilog2 y < 53 + e)%Z).
  { apply pow2_lt_inv. eapply Qle_lt_trans; [exact Hlo|].
    rewrite pow2_add, pow2_Z by lia. unfold y. nra. }
  unfold round_pos. set (k := ilog2 y) in *.
  assert (Ht : pow2 e == inject_Z (2 ^ (e - (k - 52))) * pow2 (k - 52)).
  { rewrite <- pow2_Z by lia. rewrite <- pow2_add.
    by replace (e - (k - 52) + (k - 52))%Z with e by lia. }
  pose proof (pow2_pos (k - 52)) as Hp.
  rewrite (rne_comp _ (inject_Z (m * 2 ^ (e - (k - 52))))).
  - rewrite rne_Z, inject_Z_mult. unfold y. rewrite Ht. ring.
  - unfold y. rewrite Ht, inject_Z_mult. field. lra.
Qed.

Lemma round_pos_idem x : 0 < x → round_pos (round_pos x) == round_pos x.
Proof.
  intros Hx. destruct (scaled_bounds x Hx) as [Hlo Hhi].
  apply rne_ge_Z in Hlo. apply rne_le_Z in Hhi.
  unfold round_pos at 2 3.
  set (m := rne (x / pow2 (ilog2 x - 52))) in *. set (e := (ilog2 x - 52)%Z).
  destruct (Z.eq_dec m (2 ^ 53)%Z) as [E|NE].
  - assert (Hy : inject_Z m * pow2 e == inject_Z (2 ^ 52) * pow2 (e + 1)).
    { rewrite E, pow2_succ. change (2 ^ 53)%Z with (2 * 2 ^ 52)%Z.
      rewrite inject_Z_mult. change (inject_Z 2) with 2. ring. }
    assert (Hpos : 0 < inject_Z m * pow2 e).
    { rewrite Hy. apply Qmult_lt_0_compat; [reflexivity|apply pow2_pos]. }
    rewrite (round_pos_comp _ _ Hpos Hy), Hy.
    apply round_pos_exact. lia.
  - apply round_pos_exact. lia.
Qed.

Lemma nearest_idem x : nearest (nearest x) == nearest x.
Proof.
  unfold nearest at 2 3.
  destruct (Qcompare_spec x 0) as [Hx|Hx|Hx].
  - done.
  - assert (Hx' : 0 < - x) by lra.
    pose proof (round_pos_pos (- x) Hx') as Hp.
    unfold nearest.
    destruct (Qcompare_spec (- round_pos (- x)) 0); try lra.
    rewrite (round_pos_comp (- - round_pos (- x)) (round_pos (- x))) by lra.
    by rewrite round_pos_idem.
  - pose proof (round_pos_pos x Hx) as Hp.
    unfold nearest.
    destruct (Qcompare_spec (round_pos x) 0); try lra.
    by apply round_pos_idem.
Qed.

(** Rounding a float gives the float back. *)
Lemma rnd_idem x : rnd (rnd x) = rnd x.
Proof.
  unfold rnd. apply Qred_complete.
  rewrite (nearest_comp _ _ (Qred_correct (nearest x))). apply nearest_idem.
Qed.

Lemma rnd_0 : rnd 0 = 0.
Proof. reflexivity. Qed.

Lemma rnd_1 : rnd 1 = 1.
Proof. vm_compute. reflexivity. Qed.

(** *** The operations of the scorer *)

Lemma rnd_nonneg x : 0 <= x → 0 <= rnd x.
Proof. intros Hx. pose proof (rnd_mono 0 x Hx) as Hr. by rewrite rnd_0 in Hr. Qed.

Lemma rnd_le_1 x : x <= 1 → rnd x <= 1.
Proof. intros Hx. pose proof (rnd_mono x 1 Hx) as Hr. by rewrite rnd_1 in Hr. Qed.

Lemma rnd_ge_1 x : 1 <= x → 1 <= rnd x.
Proof. intros Hx. pose proof (rnd_mono 1 x Hx) as Hr. by rewrite rnd_1 in Hr. Qed.

Lemma rnd_unit_interval x : 0 <= x <= 1 → 0 <= rnd x <= 1.
Proof. intros [H0 H1]. split; [by apply rnd_nonneg|by apply rnd_le_1]. Qed.

(** [2.0 * n] is [float(2 * n)]. *)
Lemma mul_2_of_int n : mul c2_0 (of_int n) = of_int (2 * n).
Proof.
  unfold mul, of_int, c2_0.
  rewrite (rnd_comp (2 * rnd (inject_Z n)) (rnd (2 * inject_Z n))).
  - rewrite rnd_idem. apply rnd_comp. rewrite inject_Z_mult. done.
  - unfold rnd. rewrite !Qred_correct. symmetry. apply nearest_double.
Qed.

Lemma of_int_pos n : (0 < n)%Z → 1 <= of_int n.
Proof.
  intros Hn. unfold of_int. apply rnd_ge_1.
  change 1 with (inject_Z 1). rewrite <- Zle_Qle. lia.
Qed.

Lemma of_int_nonneg n : (0 ≤ n)%Z → 0 <= of_int n.
Proof.
  intros Hn. unfold of_int. apply rnd_nonneg.
  change 0 with (inject_Z 0). rewrite <- Zle_Qle. lia.
Qed.

Lemma of_int_mono n m : (n ≤ m)%Z → of_int n <= of_int m.
Proof. intros Hn. unfold of_int. apply rnd_mono. by rewrite <- Zle_Qle. Qed.

(** [round(x, 4)] keeps a value of the unit interval inside it. *)
Lemma round_unit_interval x : 0 <= x <= 1 → 0 <= Float.round x 4 <= 1.
Proof.
  intros [H0 H1]. unfold Float.round. apply rnd_unit_interval.
  change (10 ^ 4)%Z with 10000%Z.
  assert (Hlo : (0 ≤ rne (x * inject_Z 10000))%Z).
  { apply rne_ge_Z. change (inject_Z 0) with 0. change (inject_Z 10000) with 10000. lra. }
  assert (Hhi : (rne (x * inject_Z 10000) ≤ 10000)%Z).
  { apply rne_le_Z. change (inject_Z 10000) with 10000. lra. }
  rewrite Zle_Qle in Hlo, Hhi.
  change (inject_Z 0) with 0 in Hlo. change (inject_Z 10000) with 10000 in *.
  split.
  - apply Qle_shift_div_l; lra.
  - apply Qle_shift_div_r; lra.
Qed.

(** The weighted sum of two values of the unit interval stays in it. *)
Lemma weighted_unit_interval l i :
  0 <= l <= 1 → 0 <= i <= 1 →
  0 <= add (mul l c0_6) (mul i c0_4) <= 1.
Proof.
  intros [Hl0 Hl1] [Hi0 Hi1].
  assert (H6 : 0 <= c0_6) by (vm_compute; discriminate).
  assert (H4 : 0 <= c0_4) by (vm_compute; discriminate).
  assert (R6 : rnd c0_6 = c0_6) by (vm_compute; reflexivity).
  assert (R4 : rnd c0_4 = c0_4) by (vm_compute; reflexivity).
  assert (R1 : rnd (c0_6 + c0_4) = 1) by (vm_compute; reflexivity).
  assert (Hm6 : 0 <= mul l c0_6 <= c0_6).
  { unfold mul. split; [apply rnd_nonneg; nra|].
    rewrite <- R6 at 2. apply rnd_mono. nra. }
  assert (Hm4 : 0 <= mul i c0_4 <= c0_4).
  { unfold mul. split; [apply rnd_nonneg; nra|].
    rewrite <- R4 at 2. apply rnd_mono. nra. }
  unfold add. split; [apply rnd_nonneg; lra|].
  rewrite <- R1. apply rnd_mono. lra.
Qed.

End float_facts.

(** ** Facts about [ratio] *)

Section ratio_facts.
Context `{Countable A}.
Implicit Types (a b : list A).
Local Open Scope Q_scope.

Lemma div_same x : 1 <= x → Float.div x x = Ok 1.
Proof.
  intros Hx. unfold Float.div.
  destruct (Qeq_bool x 0) eqn:Hz.
  { apply Qeq_bool_iff in Hz. lra. }
  f_equal. transitivity (Float.rnd 1); [|apply rnd_1].
  apply rnd_comp. field. lra.
Qed.

Lemma div_unit x y : 0 <= x → x <= y → 1 <= y →
  ∃ r, Float.div x y = Ok r ∧ 0 <= r <= 1.
Proof.
  intros Hx Hxy Hy. unfold Float.div.
  destruct (Qeq_bool y 0) eqn:Hz.
  { apply Qeq_bool_iff in Hz. lra. }
  eexists. split; [done|]. apply rnd_unit_interval. split.
  - apply Qle_shift_div_l; lra.
  - apply Qle_shift_div_r; lra.
Qed.

Lemma div_zero y : 1 <= y → Float.div 0 y = Ok 0.
Proof.
  intros Hy. unfold Float.div.
  destruct (Qeq_bool y 0) eqn:Hz.
  { apply Qeq_bool_iff in Hz. lra. }
  assert (Float.rnd (0 / y) = 0) as ->; [|done].
  transitivity (Float.rnd 0); [|apply rnd_0].
  apply rnd_comp. unfold Qdiv. ring.
Qed.

(** With at most half of the elements matched, the ratio is a float
    between 0.0 and 1.0, and no division by zero occurs. *)
Lemma calculate_ratio_unit (m len : Z) :
  (0 ≤ m)%Z → (2 * m ≤ len)%Z →
  ∃ r, Difflib.calculate_ratio m len = Ok r ∧ 0 <= r <= 1.
Proof.
  intros Hm Hlen. unfold Difflib.calculate_ratio.
  destruct (decide (len ≠ 0%Z)) as [Hne|_].
  - rewrite mul_2_of_int. apply div_unit.
    + apply of_int_nonneg. lia.
    + by apply of_int_mono.
    + apply of_int_pos. lia.
  - exists 1. split; [done|]. lra.
Qed.

Lemma calculate_ratio_all (n : Z) :
  (0 < n)%Z → Difflib.calculate_ratio n (n + n) = Ok 1.
Proof.
  intros Hn. unfold Difflib.calculate_ratio.
  rewrite decide_True by lia. rewrite mul_2_of_int.
  replace (n + n)%Z with (2 * n)%Z by lia.
  apply div_same, of_int_pos. lia.
Qed.

Lemma calculate_ratio_none (len : Z) :
  (0 < len)%Z → Difflib.calculate_ratio 0 len = Ok 0.
Proof.
  intros Hn. unfold Difflib.calculate_ratio.
  rewrite decide_True by lia. rewrite mul_2_of_int.
  apply div_zero, of_int_pos. lia.
Qed.

(** [ratio] returns a float between 0.0 and 1.0. *)
Lemma ratio_unit a b : ∃ r, Difflib.ratio a b = Ok r ∧ 0 <= r <= 1.
Proof.
  unfold Difflib.ratio.
  destruct (matches_bounds true a b) as (m & -> & [Hm0 Hma] & Hmb).
  cbn [of_option mbind res_mbind res_bind].
  apply calculate_ratio_unit; lia.
Qed.

(** A non-empty sequence compared with itself has ratio 1.0. *)
Lemma ratio_same a : a ≠ [] → Difflib.ratio a a = Ok 1.
Proof.
  intros Ha. unfold Difflib.ratio. rewrite matches_same.
  cbn [of_option mbind res_mbind res_bind].
  apply calculate_ratio_all. destruct a; [done|]. simpl. lia.
Qed.

(** Two empty sequences have ratio 1.0. *)
Lemma ratio_nil : Difflib.ratio (@nil A) [] = Ok 1.
Proof. unfold Difflib.ratio. by rewrite matches_same. Qed.

(** An empty sequence against a non-empty one has ratio 0.0, in either
    order. *)
Lemma ratio_nil_l b : b ≠ [] → Difflib.ratio [] b = Ok 0.
Proof.
  intros Hb. unfold Difflib.ratio.
  destruct (matches_bounds true [] b) as (m & -> & [Hm0 Hma] & Hmb).
  cbn [of_option mbind res_mbind res_bind]. simpl in Hma.
  replace m with 0%Z by lia. apply calculate_ratio_none.
  destruct b; [done|]. simpl. lia.
Qed.

Lemma ratio_nil_r a : a ≠ [] → Difflib.ratio a [] = Ok 0.
Proof.
  intros Ha. unfold Difflib.ratio.
  destruct (matches_bounds true a []) as (m & -> & [Hm0 Hma] & Hmb).
  cbn [of_option mbind res_mbind res_bind]. simpl in Hmb.
  replace m with 0%Z by lia. apply calculate_ratio_none.
  destruct a; [done|]. simpl. lia.
Qed.

(** Without a common element the ratio does not depend on the order of
    the two sequences. *)
Lemma ratio_disjoint_sym a b :
  (∀ x, x ∈ a → x ∉ b) → Difflib.ratio a b = Difflib.ratio b a.
Proof.
  intros Hab. unfold Difflib.ratio.
  rewrite !matches_disjoint; [|intros x Hb Ha; by apply (Hab x)|done].
  cbn [of_option mbind res_mbind res_bind]. f_equal. lia.
Qed.

(** [ratio] gives the same float for both orders of an
    order-independent pair. *)
Lemma ratio_order_independent a b :
  order_independent a b → Difflib.ratio a b = Difflib.ratio b a.
Proof.
  intros [->|[Hd|(Hc & Ha & Hb)]]; [done|by apply ratio_disjoint_sym|].
  unfold Difflib.ratio.
  assert (∃ m, Difflib.matches true a b = Some m ∧ Difflib.matches true b a = Some m)
    as (m & -> & ->).
  { destruct Hc as [Hc|Hc].
    - destruct (matches_contiguous true a b Hc) as [H1 H2].
      exists (Z.of_nat (length a)). split; [apply H1|apply H2]; by right.
    - destruct (matches_contiguous true b a Hc) as [H1 H2].
      exists (Z.of_nat (length b)). split; [apply H2|apply H1]; by right. }
  cbn [of_option mbind res_mbind res_bind]. f_equal. lia.
Qed.

End ratio_facts.

(** ** Facts about the scorer *)

Section scorer_facts.

Lemma normalize_assembly_line_eq line :
  normalize_assembly_line line = Ok (normal_form line).
Proof.
  unfold normalize_assembly_line. rewrite cut_comment. cbn [mbind res_mbind res_bind].
  by rewrite cut_comment.
Qed.

Lemma mapM_normalize lines :
  mapM normalize_assembly_line lines = Ok (normal_form <$> lines).
Proof.
  induction lines as [|line lines IH]; [done|].
  cbn [mapM]. rewrite normalize_assembly_line_eq. cbn [mbind res_mbind res_bind].
  by rewrite IH.
Qed.

Lemma extract_step_eq instructions line :
  extract_step instructions line
  = Ok (instructions ++ if is_instruction_line line
                        then [first_token (normal_form line)] else []).
Proof.
  unfold extract_step, is_instruction_line.
  rewrite normalize_assembly_line_eq. cbn [mbind res_mbind res_bind].
  destruct (decide (normal_form line = [])) as [Hn|Hn].
  { rewrite !bool_decide_true by done. simpl. by rewrite app_nil_r. }
  rewrite !bool_decide_false by done. simpl.
  destruct (Re.is_label (normal_form line)); simpl; [by rewrite app_nil_r|].
  destruct (Str.startswith Str.dot (normal_form line)); simpl; [by rewrite app_nil_r|].
  destruct (split_first (normal_form line)) as [rest ->]; [|done].
  unfold normal_form at 1. fold (normal_form line).
  unfold Str.lstrip. rewrite drop_while_head_id; [done|].
  apply strip_head.
Qed.

Lemma for_each_extract lines acc :
  for_each extract_step lines acc = Ok (acc ++ instruction_tokens lines).
Proof.
  revert acc. induction lines as [|line lines IH]; intros acc; simpl.
  { by rewrite app_nil_r. }
  rewrite extract_step_eq. cbn [mbind res_mbind res_bind]. rewrite IH.
  unfold instruction_tokens. rewrite filter_cons.
  destruct (is_instruction_line line) eqn:Hl.
  - destruct (decide _) as [_|Hf]; [|by destruct Hf].
    rewrite fmap_cons, <- app_assoc. done.
  - destruct (decide _) as [Ht|_]; [by destruct Ht|].
    by rewrite app_nil_r.
Qed.

Lemma extract_instructions_eq lines :
  extract_instructions lines = Ok (instruction_tokens lines).
Proof. unfold extract_instructions. by rewrite for_each_extract. Qed.

(** For two texts that were read, [calculate_similarity] computes
    [score]. *)
Lemma calculate_similarity_readable fs p1 p2 l1 l2 :
  fs p1 = Lines l1 → fs p2 = Lines l2 →
  calculate_similarity fs p1 p2 = score l1 l2.
Proof.
  intros H1 H2. unfold calculate_similarity, open_readlines. rewrite H1, H2.
  cbn [mbind res_mbind res_bind]. rewrite !mapM_normalize.
  cbn [mbind res_mbind res_bind]. rewrite !extract_instructions_eq.
  unfold score, instruction_ratio, normalized_lines.
  destruct (Difflib.ratio _ _); [|done..].
  cbn [mbind res_mbind res_bind]. done.
Qed.

End scorer_facts.

(** ** Further facts about [score] *)

Section score_facts.
Local Open Scope Q_scope.

Lemma instruction_ratio_unit ins1 ins2 :
  ∃ r, instruction_ratio ins1 ins2 = Ok r ∧ 0 <= r <= 1.
Proof.
  unfold instruction_ratio. destruct (_ || _); [apply ratio_unit|].
  exists 0. split; [done|]. unfold Float.c0_0. lra.
Qed.

(** [score] returns, and its three fields come from the two ratios. *)
Lemma score_total l1 l2 :
  ∃ line_ratio inst_ratio,
    Difflib.ratio (normalized_lines l1) (normalized_lines l2) = Ok line_ratio
    ∧ instruction_ratio (instruction_tokens l1) (instruction_tokens l2) = Ok inst_ratio
    ∧ 0 <= line_ratio <= 1 ∧ 0 <= inst_ratio <= 1
    ∧ score l1 l2
      = Ok {| line_similarity := Float.round line_ratio 4;
              instruction_similarity := Float.round inst_ratio 4;
              overall_similarity :=
                Float.round (Float.add (Float.mul line_ratio Float.c0_6)
                                       (Float.mul inst_ratio Float.c0_4)) 4 |}.
Proof.
  destruct (ratio_unit (normalized_lines l1) (normalized_lines l2)) as (lr & Hlr & Hl).
  destruct (instruction_ratio_unit (instruction_tokens l1) (instruction_tokens l2))
    as (ir & Hir & Hi).
  exists lr, ir. unfold score. rewrite Hlr, Hir. done.
Qed.

Lemma score_in_unit_interval l1 l2 r : score l1 l2 = Ok r → in_unit_interval r.
Proof.
  destruct (score_total l1 l2) as (lr & ir & _ & _ & Hl & Hi & ->).
  intros [= <-]. unfold in_unit_interval. simpl.
  split; [by apply round_unit_interval|].
  split; [by apply round_unit_interval|].
  by apply round_unit_interval, weighted_unit_interval.
Qed.

(** A text with an instruction has a non-empty normalized line. *)
Lemma instruction_tokens_normalized_lines lines :
  instruction_tokens lines ≠ [] → normalized_lines lines ≠ [].
Proof.
  unfold instruction_tokens, normalized_lines. intros Ht Hn.
  destruct (filter (λ line, is_instruction_line line) lines) as [|l ls] eqn:Hf; [done|].
  assert (Hl : l ∈ filter (λ line, is_instruction_line line) lines)
    by (rewrite Hf; by left).
  apply list_elem_of_filter in Hl as [Hi Hl].
  assert (Hin : normal_form l ∈ filter (λ line, line ≠ []) (normal_form <$> lines)).
  { apply list_elem_of_filter. split; [|by apply list_elem_of_fmap_2].
    intros Hnil. unfold is_instruction_line in Hi.
    by rewrite bool_decide_true in Hi. }
  rewrite Hn in Hin. by apply elem_of_nil in Hin.
Qed.

(** A line that is not an instruction line gives no token. *)
Lemma instruction_tokens_none lines :
  Forall (λ line, is_instruction_line line = false) lines →
  instruction_tokens lines = [].
Proof.
  unfold instruction_tokens. intros Hall.
  destruct (filter (λ line, is_instruction_line line) lines) as [|l ls] eqn:Hf; [done|].
  assert (Hl : l ∈ filter (λ line, is_instruction_line line) lines)
    by (rewrite Hf; by left).
  apply list_elem_of_filter in Hl as [Hi Hl].
  rewrite Forall_forall in Hall. by rewrite (Hall l Hl) in Hi.
Qed.

Lemma normalized_lines_none lines :
  Forall is_blank_or_comment lines → normalized_lines lines = [].
Proof.
  unfold normalized_lines. intros Hall.
  destruct (filter (λ line, line ≠ []) (normal_form <$> lines)) as [|l ls] eqn:Hf; [done|].
  assert (Hl : l ∈ filter (λ line, line ≠ []) (normal_form <$> lines))
    by (rewrite Hf; by left).
  apply list_elem_of_filter in Hl as [Hi Hl].
  apply list_elem_of_fmap_1 in Hl as (line & -> & Hline).
  rewrite Forall_forall in Hall. by destruct Hi; apply Hall.
Qed.

Lemma blank_not_instruction line :
  is_blank_or_comment line → is_instruction_line line = false.
Proof.
  intros Hn. unfold is_instruction_line. by rewrite bool_decide_true.
Qed.

Lemma no_instruction_line line :
  is_blank_or_comment line ∨ is_label_line line ∨ is_directive_line line →
  is_instruction_line line = false.
Proof.
  unfold is_label_line, is_directive_line, is_instruction_line.
  intros [Hn|[-> | ->]].
  - by rewrite bool_decide_true.
  - by rewrite andb_false_r.
  - by rewrite andb_false_r.
Qed.

(** An edit that is noise does not change the normalized line. *)
Lemma noise_normal_form l l' : same_modulo_noise l l' → normal_form l = normal_form l'.
Proof.
  destruct 1 as [body cmt t c Hc Ht|w1 w2 w1' w2' core Hw1 Hw2 Hw1' Hw2'].
  - rewrite <- (app_nil_l (body ++ t)), normal_form_surround by done.
    replace (body ++ c :: cmt ++ t) with (body ++ c :: (cmt ++ t)) by done.
    destruct Hc as [-> | ->].
    + by rewrite normal_form_hash_comment.
    + by rewrite normal_form_semicolon_comment.
  - by rewrite !normal_form_surround.
Qed.

Lemma noise_normal_form_all A A' :
  Forall2 same_modulo_noise A A' → normal_form <$> A = normal_form <$> A'.
Proof.
  induction 1 as [|l l' A A' Hl _ IH]; [done|].
  rewrite !fmap_cons, IH. f_equal. by apply noise_normal_form.
Qed.

Lemma noise_instruction_tokens A A' :
  Forall2 same_modulo_noise A A' → instruction_tokens A = instruction_tokens A'.
Proof.
  unfold instruction_tokens.
  induction 1 as [|l l' A A' Hl _ IH]; [done|].
  pose proof (noise_normal_form l l' Hl) as Hn.
  assert (Hi : is_instruction_line l = is_instruction_line l').
  { unfold is_instruction_line. by rewrite Hn. }
  rewrite !filter_cons, <- Hi.
  destruct (is_instruction_line l); simpl.
  - rewrite Hn. f_equal. exact IH.
  - exact IH.
Qed.

Lemma instruction_ratio_sym ins1 ins2 :
  Difflib.ratio ins1 ins2 = Difflib.ratio ins2 ins1 →
  instruction_ratio ins1 ins2 = instruction_ratio ins2 ins1.
Proof. intros Hr. unfold instruction_ratio. by rewrite orb_comm, Hr. Qed.

Lemma mul_comm x y : Float.mul x y = Float.mul y x.
Proof. unfold Float.mul. apply rnd_comp. ring. Qed.

End score_facts.

(** * Properties of the scorer *)

(** ** Reading the two files *)

(** C1, counterexample: the generated file exists but cannot be read
    ([PermissionError]); [calculate_similarity] does not return the zero
    result, the exception reaches the caller. *)
Lemma permission_error_propagates :
  open_readlines (protected_file []) generated_path = Raise PermissionError
  ∧ calculate_similarity (protected_file []) generated_path unoptimized_path
    = Raise PermissionError.
Proof. split; reflexivity. Qed.

(** C1, amended: the outcome of [calculate_similarity] by what the two
    reads do.  The first read that fails decides: when it fails with
    [FileNotFoundError] the result is the zero result and nothing is
    raised; when it fails with any other exception, that exception
    propagates; when both files are read, a result is returned and
    nothing is raised. *)
Theorem calculate_similarity_read_outcomes fs p1 p2 :
  match fs p1, fs p2 with
  | Unreadable FileNotFoundError, _ =>
      calculate_similarity fs p1 p2 = Ok zero_result
  | Unreadable e, _ =>
      calculate_similarity fs p1 p2 = Raise e
  | Lines _, Unreadable FileNotFoundError =>
      calculate_similarity fs p1 p2 = Ok zero_result
  | Lines _, Unreadable e =>
      calculate_similarity fs p1 p2 = Raise e
  | Lines _, Lines _ =>
      ∃ r, calculate_similarity fs p1 p2 = Ok r
  end.
Proof.
  destruct (fs p1) as [l1|e1] eqn:H1; [destruct (fs p2) as [l2|e2] eqn:H2|].
  - rewrite (calculate_similarity_readable fs p1 p2 l1 l2 H1 H2).
    destruct (score_total l1 l2) as (lr & ir & _ & _ & _ & _ & ->). eauto.
  - unfold calculate_similarity, open_readlines. rewrite H1, H2. by destruct e2.
  - unfold calculate_similarity, open_readlines. rewrite H1. by destruct e1.
Qed.

(** ** Identity *)

(** C2, counterexample: a readable, non-empty file that holds one comment
    line, compared with itself, has instruction similarity 0.0 and overall
    similarity 0.6. *)
Lemma identity_fails_for_comment_only_file :
  calculate_similarity (two_files [py "# setup"] []) generated_path generated_path
  = Ok {| line_similarity := Float.c1_0;
          instruction_similarity := Float.c0_0;
          overall_similarity := Float.c0_6 |}.
Proof. vm_compute. reflexivity. Qed.

(** C2, amended: for every readable text with at least one instruction,
    [calculate_similarity] applied to the text and itself returns 1.0 in
    all three fields. *)
Theorem identity_with_instructions fs p1 p2 lines :
  fs p1 = Lines lines → fs p2 = Lines lines →
  extract_instructions lines ≠ Ok [] →
  calculate_similarity fs p1 p2
  = Ok {| line_similarity := Float.c1_0;
          instruction_similarity := Float.c1_0;
          overall_similarity := Float.c1_0 |}.
Proof.
  intros H1 H2 Hins. rewrite extract_instructions_eq in Hins.
  assert (Ht : instruction_tokens lines ≠ []) by congruence.
  rewrite (calculate_similarity_readable fs p1 p2 lines lines H1 H2).
  unfold score, instruction_ratio.
  rewrite (ratio_same (normalized_lines lines))
    by by apply instruction_tokens_normalized_lines.
  rewrite bool_decide_true by done. cbn [orb mbind res_mbind res_bind].
  rewrite (ratio_same (instruction_tokens lines)) by done.
  cbn [mbind res_mbind res_bind].
  vm_compute. reflexivity.
Qed.

Lemma identity_with_instructions_witness :
  extract_instructions [py "mov eax, 1"; py "ret"] ≠ Ok []
  ∧ calculate_similarity (two_files [py "mov eax, 1"; py "ret"] [])
      generated_path generated_path
    = Ok {| line_similarity := Float.c1_0;
            instruction_similarity := Float.c1_0;
            overall_similarity := Float.c1_0 |}.
Proof.
  assert (H : extract_instructions [py "mov eax, 1"; py "ret"] ≠ Ok []).
  { vm_compute. discriminate. }
  split; [exact H|].
  apply (identity_with_instructions (two_files [py "mov eax, 1"; py "ret"] [])
           generated_path generated_path [py "mov eax, 1"; py "ret"]);
    [reflexivity|reflexivity|exact H].
Defined.

(** ** Symmetry *)

(** C3, counterexample: the same four lines in two orders.  One order of
    the arguments gives 0.25 in every field, the other gives 0.5. *)
Lemma symmetry_fails_for_reordered_lines :
  calculate_similarity (two_files four_lines four_lines_reordered)
    generated_path unoptimized_path
  = Ok {| line_similarity := 1 # 4;
          instruction_similarity := 1 # 4;
          overall_similarity := 1 # 4 |}
  ∧ calculate_similarity (two_files four_lines four_lines_reordered)
      unoptimized_path generated_path
    = Ok {| line_similarity := 1 # 2;
            instruction_similarity := 1 # 2;
            overall_similarity := 1 # 2 |}.
Proof. split; vm_compute; reflexivity. Qed.

(** C3, amended: for every pair of readable texts, a field of
    [calculate_similarity] is the same for both orders of the arguments
    when the sequences it is computed from are equal, have no element in
    common, or have fewer than 200 elements each with one of them
    occurring in the other as a block: [line_similarity] for the
    normalized lines, [instruction_similarity] for the instruction
    tokens, and the whole result when both pairs are of that kind. *)
Theorem symmetry_per_field fs p1 p2 A B :
  fs p1 = Lines A → fs p2 = Lines B →
  ∃ r r',
    calculate_similarity fs p1 p2 = Ok r
    ∧ calculate_similarity fs p2 p1 = Ok r'
    ∧ (order_independent (normalized_lines A) (normalized_lines B) →
       line_similarity r = line_similarity r')
    ∧ (order_independent (instruction_tokens A) (instruction_tokens B) →
       instruction_similarity r = instruction_similarity r')
    ∧ (order_independent (normalized_lines A) (normalized_lines B) →
       order_independent (instruction_tokens A) (instruction_tokens B) →
       r = r').
Proof.
  intros H1 H2.
  rewrite (calculate_similarity_readable fs p1 p2 A B H1 H2).
  rewrite (calculate_similarity_readable fs p2 p1 B A H2 H1).
  destruct (score_total A B) as (lr & ir & Hlr & Hir & _ & _ & ->).
  destruct (score_total B A) as (lr' & ir' & Hlr' & Hir' & _ & _ & ->).
  assert (Hl : order_independent (normalized_lines A) (normalized_lines B) → lr = lr').
  { intros Ho. apply ratio_order_independent in Ho. congruence. }
  assert (Hi : order_independent (instruction_tokens A) (instruction_tokens B) →
               ir = ir').
  { intros Ho. apply ratio_order_independent, instruction_ratio_sym in Ho. congruence. }
  eexists _, _. split; [done|]. split; [done|]. cbn [line_similarity instruction_similarity].
  split; [by intros ->%Hl|]. split; [by intros ->%Hi|].
  by intros ->%Hl ->%Hi.
Qed.

Lemma symmetry_per_field_witness :
  calculate_similarity (two_files [py "foo:"; py "  nop"] [py "  nop"])
    generated_path unoptimized_path
  = calculate_similarity (two_files [py "foo:"; py "  nop"] [py "  nop"])
      unoptimized_path generated_path.
Proof.
  destruct (symmetry_per_field (two_files [py "foo:"; py "  nop"] [py "  nop"])
              generated_path unoptimized_path [py "foo:"; py "  nop"] [py "  nop"])
    as (r & r' & -> & -> & _ & _ & Hall); [reflexivity|reflexivity|].
  f_equal. apply Hall.
  - right. right. split; [|split; vm_compute; lia].
    right. exists [py "foo:"], []. vm_compute. reflexivity.
  - left. vm_compute. reflexivity.
Defined.

(** ** Empty sequences *)

(** C4, counterexample: two readable files, one holding only a label and
    the other only a directive.  Neither has an instruction, and the line
    similarity is 0.0, not 1.0. *)
Lemma label_and_directive_files_differ :
  is_label_line (py "loop:")
  ∧ is_directive_line (py ".text")
  ∧ calculate_similarity (two_files [py "loop:"] [py ".text"])
      generated_path unoptimized_path
    = Ok {| line_similarity := Float.c0_0;
            instruction_similarity := Float.c0_0;
            overall_similarity := Float.c0_0 |}.
Proof. repeat split; vm_compute; reflexivity. Qed.

(** C4, amended: for every pair of readable files, when both instruction
    sequences are empty the instruction similarity is 0.0 (the guard), and
    when both sequences of normalized lines are empty the line similarity
    is 1.0 (the convention of the matcher for two empty sequences).  In
    particular two files that consist only of comments, blank lines,
    labels and directives have instruction similarity 0.0, and two files
    that consist only of comments and blank lines have line similarity 1.0
    and instruction similarity 0.0. *)
Theorem empty_sequence_conventions fs p1 p2 l1 l2 :
  fs p1 = Lines l1 → fs p2 = Lines l2 →
  ∃ r, calculate_similarity fs p1 p2 = Ok r
    ∧ (extract_instructions l1 = Ok [] → extract_instructions l2 = Ok [] →
       instruction_similarity r = Float.c0_0)
    ∧ (normalized_lines l1 = [] → normalized_lines l2 = [] →
       line_similarity r = Float.c1_0)
    ∧ (Forall (λ line, is_blank_or_comment line ∨ is_label_line line
                       ∨ is_directive_line line) l1 →
       Forall (λ line, is_blank_or_comment line ∨ is_label_line line
                       ∨ is_directive_line line) l2 →
       instruction_similarity r = Float.c0_0)
    ∧ (Forall is_blank_or_comment l1 → Forall is_blank_or_comment l2 →
       line_similarity r = Float.c1_0 ∧ instruction_similarity r = Float.c0_0).
Proof.
  intros H1 H2. rewrite (calculate_similarity_readable fs p1 p2 l1 l2 H1 H2).
  destruct (score_total l1 l2) as (lr & ir & Hlr & Hir & _ & _ & ->).
  eexists. split; [done|]. cbn [line_similarity instruction_similarity].
  assert (Hins : instruction_tokens l1 = [] → instruction_tokens l2 = [] →
                 Float.round ir 4 = Float.c0_0).
  { intros E1 E2. rewrite E1, E2 in Hir. by injection Hir as <-. }
  assert (Hlines : normalized_lines l1 = [] → normalized_lines l2 = [] →
                   Float.round lr 4 = Float.c1_0).
  { intros E1 E2. rewrite E1, E2, ratio_nil in Hlr. by injection Hlr as <-. }
  split; [|split; [done|split]].
  - rewrite !extract_instructions_eq. intros [= E1] [= E2]. auto.
  - intros F1 F2. apply Hins; apply instruction_tokens_none;
      (eapply Forall_impl; [eassumption|apply no_instruction_line]).
  - intros F1 F2. split.
    + apply Hlines; by apply normalized_lines_none.
    + apply Hins; apply instruction_tokens_none;
        (eapply Forall_impl; [eassumption|apply blank_not_instruction]).
Qed.

Lemma empty_sequence_conventions_witness :
  ∃ r, calculate_similarity (two_files [py "# a"; py "   "] [py "  ; b"])
         generated_path unoptimized_path = Ok r
    ∧ line_similarity r = Float.c1_0 ∧ instruction_similarity r = Float.c0_0.
Proof.
  destruct (empty_sequence_conventions (two_files [py "# a"; py "   "] [py "  ; b"])
              generated_path unoptimized_path [py "# a"; py "   "] [py "  ; b"])
    as (r & Hr & _ & _ & _ & Hblank); [reflexivity|reflexivity|].
  exists r. split; [exact Hr|].
  apply Hblank; repeat constructor.
Defined.

(** ** The weighted sum *)

(** C5: for every pair of readable files both ratios are computed, the
    line and instruction fields are the ratios rounded to four places, and
    the overall field is the weighted sum of the ratios themselves,
    rounded once. *)
Theorem overall_from_unrounded_ratios fs p1 p2 l1 l2 :
  fs p1 = Lines l1 → fs p2 = Lines l2 →
  ∃ lineRatio instRatio r,
    Difflib.ratio (normalized_lines l1) (normalized_lines l2) = Ok lineRatio
    ∧ instruction_ratio (instruction_tokens l1) (instruction_tokens l2) = Ok instRatio
    ∧ calculate_similarity fs p1 p2 = Ok r
    ∧ line_similarity r = Float.round lineRatio 4
    ∧ instruction_similarity r = Float.round instRatio 4
    ∧ overall_similarity r
      = Float.round (Float.add (Float.mul Float.c0_6 lineRatio)
                               (Float.mul Float.c0_4 instRatio)) 4.
Proof.
  intros H1 H2. rewrite (calculate_similarity_readable fs p1 p2 l1 l2 H1 H2).
  destruct (score_total l1 l2) as (lr & ir & Hlr & Hir & _ & _ & ->).
  exists lr, ir. eexists. repeat (split; [done|]). simpl.
  by rewrite (mul_comm lr), (mul_comm ir).
Qed.

Lemma overall_from_unrounded_ratios_witness :
  ∃ lineRatio instRatio r,
    Difflib.ratio (normalized_lines [py "nop"; py "nop"])
      (normalized_lines [py "nop"; py "nop"; py "nop"; py "x:"; py "x:"]) = Ok lineRatio
    ∧ instruction_ratio (instruction_tokens [py "nop"; py "nop"])
        (instruction_tokens [py "nop"; py "nop"; py "nop"; py "x:"; py "x:"])
      = Ok instRatio
    ∧ calculate_similarity
        (two_files [py "nop"; py "nop"] [py "nop"; py "nop"; py "nop"; py "x:"; py "x:"])
        generated_path unoptimized_path = Ok r
    ∧ line_similarity r = Float.round lineRatio 4
    ∧ instruction_similarity r = Float.round instRatio 4
    ∧ overall_similarity r
      = Float.round (Float.add (Float.mul Float.c0_6 lineRatio)
                               (Float.mul Float.c0_4 instRatio)) 4.
Proof.
  apply (overall_from_unrounded_ratios
           (two_files [py "nop"; py "nop"] [py "nop"; py "nop"; py "nop"; py "x:"; py "x:"])
           generated_path unoptimized_path); reflexivity.
Defined.

(** On the files of the witness above the ratios are 4/7 and 4/5; the
    overall similarity is 0.6629, while the weighted sum of the two
    rounded fields rounds to 0.6628. *)
Lemma overall_differs_from_rounded_fields :
  ∃ r, calculate_similarity
         (two_files [py "nop"; py "nop"] [py "nop"; py "nop"; py "nop"; py "x:"; py "x:"])
         generated_path unoptimized_path = Ok r
    ∧ overall_similarity r = Float.rnd (6629 # 10000)
    ∧ Float.round (Float.add (Float.mul Float.c0_6 (line_similarity r))
                             (Float.mul Float.c0_4 (instruction_similarity r))) 4
      = Float.rnd (6628 # 10000).
Proof. eexists. split; [vm_compute; reflexivity|]. split; vm_compute; reflexivity. Qed.

(** ** Normalization and extraction *)

(** C6: [normalize_assembly_line] returns for every line and never
    raises.  Its result [out] is obtained in three steps: [cut1] is the
    line up to the first [#], [cut2] is [cut1] up to the first [;], and
    [out] is [cut2] without its leading and trailing whitespace.  The
    empty line gives the empty line. *)
Theorem normalize_assembly_line_total line :
  ∃ cut1 rest1 cut2 rest2 w1 out w2,
    normalize_assembly_line line = Ok out
    ∧ line = cut1 ++ rest1 ∧ (Str.hash ∉ cut1)
    ∧ (rest1 = [] ∨ head rest1 = Some Str.hash)
    ∧ cut1 = cut2 ++ rest2 ∧ (Str.semicolon ∉ cut2)
    ∧ (rest2 = [] ∨ head rest2 = Some Str.semicolon)
    ∧ cut2 = w1 ++ out ++ w2
    ∧ forallb Str.isspace w1 = true ∧ forallb Str.isspace w2 = true
    ∧ (∀ c, head out = Some c → Str.isspace c = false)
    ∧ (∀ c, last out = Some c → Str.isspace c = false)
    ∧ normalize_assembly_line [] = Ok [].
Proof.
  destruct (before_app Str.hash line) as (rest1 & H1 & Hr1).
  destruct (before_app Str.semicolon (before Str.hash line)) as (rest2 & H2 & Hr2).
  destruct (strip_split (before Str.semicolon (before Str.hash line)))
    as (w1 & w2 & H3 & Hw1 & Hw2).
  exists (before Str.hash line), rest1, (before Str.semicolon (before Str.hash line)),
    rest2, w1, (normal_form line), w2.
  split; [apply normalize_assembly_line_eq|].
  split; [done|]. split; [apply before_not_elem|].
  split; [destruct Hr1 as [->|[t ->]]; auto|].
  split; [done|]. split; [apply before_not_elem|].
  split; [destruct Hr2 as [->|[t ->]]; auto|].
  split; [done|]. split; [done|]. split; [done|].
  split; [apply strip_head|]. split; [apply strip_last|]. reflexivity.
Qed.

(** C7: [extract_instructions] returns, in the order of the lines, the
    first whitespace-delimited token of the normalization of each line
    whose normalization is not empty, does not match the label pattern and
    does not start with a dot; the other lines contribute nothing. *)
Theorem extract_instructions_tokens lines :
  extract_instructions lines
  = Ok ((λ line, first_token (normal_form line))
        <$> filter (λ line, normal_form line ≠ []
                            ∧ Re.is_label (normal_form line) = false
                            ∧ Str.startswith Str.dot (normal_form line) = false)
              lines).
Proof.
  rewrite extract_instructions_eq. unfold instruction_tokens. do 2 f_equal.
  apply list_filter_iff. intros line. unfold is_instruction_line.
  rewrite !andb_True, !negb_True, bool_decide_spec.
  destruct (Re.is_label _), (Str.startswith _ _); simpl; intuition congruence.
Qed.

(** C10: [normalize_assembly_line] is idempotent.  Its result holds
    neither [#] nor [;] and neither starts nor ends with whitespace, and
    normalizing the result gives the result back. *)
Theorem normalize_assembly_line_idempotent line :
  ∃ n, normalize_assembly_line line = Ok n
    ∧ normalize_assembly_line n = Ok n
    ∧ (Str.hash ∉ n) ∧ (Str.semicolon ∉ n)
    ∧ (∀ c, head n = Some c → Str.isspace c = false)
    ∧ (∀ c, last n = Some c → Str.isspace c = false).
Proof.
  exists (normal_form line). rewrite !normalize_assembly_line_eq, normal_form_idemp.
  split; [done|]. split; [done|].
  split; [apply normal_form_no_hash|]. split; [apply normal_form_no_semicolon|].
  split; [apply strip_head|apply strip_last].
Qed.

(** ** Range *)

(** C8: whatever the two reads do, every field of a returned result lies
    between 0.0 and 1.0; when no result is returned, the call raised the
    exception of a failed read, which is not [FileNotFoundError]. *)
Theorem fields_in_unit_interval fs p1 p2 :
  match calculate_similarity fs p1 p2 with
  | Ok r => in_unit_interval r
  | Raise e => (fs p1 = Unreadable e ∨ fs p2 = Unreadable e) ∧ e ≠ FileNotFoundError
  | Diverge => False
  end.
Proof.
  destruct (fs p1) as [l1|e1] eqn:H1; [destruct (fs p2) as [l2|e2] eqn:H2|].
  - rewrite (calculate_similarity_readable fs p1 p2 l1 l2 H1 H2).
    destruct (score_total l1 l2) as (lr & ir & _ & _ & _ & _ & Hs).
    pose proof (score_in_unit_interval l1 l2) as Hu. rewrite Hs in *. by apply Hu.
  - unfold calculate_similarity, open_readlines. rewrite H1, H2.
    destruct e2; simpl; (split; [by right|done]) || (repeat split; done).
  - unfold calculate_similarity, open_readlines. rewrite H1.
    destruct e1; simpl; (split; [by left|done]) || (repeat split; done).
Qed.

(** ** Comments and whitespace *)

(** C9: for every readable pair, a text whose lines differ from the lines
    of the first file only by appended [#] or [;] comments, or only by
    leading and trailing whitespace, gets the same three fields against
    the second file. *)
Theorem comment_and_whitespace_invariance fs p1 p1' p2 A A' B :
  fs p1 = Lines A → fs p1' = Lines A' → fs p2 = Lines B →
  Forall2 same_modulo_noise A A' →
  calculate_similarity fs p1' p2 = calculate_similarity fs p1 p2.
Proof.
  intros H1 H1' H2 Hnoise.
  rewrite (calculate_similarity_readable fs p1' p2 A' B H1' H2).
  rewrite (calculate_similarity_readable fs p1 p2 A B H1 H2).
  unfold score, normalized_lines.
  by rewrite (noise_normal_form_all A A' Hnoise), (noise_instruction_tokens A A' Hnoise).
Qed.

Lemma comment_and_whitespace_invariance_witness :
  Forall2 same_modulo_noise plain_lines noisy_lines
  ∧ calculate_similarity (three_files plain_lines noisy_lines [py "ret"])
      edited_path unoptimized_path
    = calculate_similarity (three_files plain_lines noisy_lines [py "ret"])
        generated_path unoptimized_path.
Proof.
  assert (H : Forall2 same_modulo_noise plain_lines noisy_lines).
  { constructor; [|constructor; [|constructor]].
    - exact (noise_comment (py "mov eax, 1") (py " load") [Str.newline] Str.hash
               (or_introl eq_refl) eq_refl).
    - exact (noise_whitespace (py "  ") [] [] (py "   ") (py "ret")
               eq_refl eq_refl eq_refl eq_refl). }
  split; [exact H|].
  apply (comment_and_whitespace_invariance
           (three_files plain_lines noisy_lines [py "ret"])
           generated_path edited_path unoptimized_path
           plain_lines noisy_lines [py "ret"]);
    [reflexivity|reflexivity|reflexivity|exact H].
Defined.

Example extract_dump :
  ExtractAssembly.main ExtractAssembly.calm ExtractAssembly.command_line
    ExtractAssembly.dump_file
  = (ExtractAssembly.State
       [ExtractAssembly.Print (py "Reading file: dump.json");
        ExtractAssembly.MakeDirs (py "out");
        ExtractAssembly.Print (py "Output directory: out" ++ [Str.newline]);
        ExtractAssembly.Print (py "Processing problem 7...");
        ExtractAssembly.MakeDirs (py "out/problem_7");
        ExtractAssembly.Open (py "out/problem_7/sample_0_generated.s");
        ExtractAssembly.WriteText (py "out/problem_7/sample_0_generated.s")
          ExtractAssembly.ret_text;
        ExtractAssembly.Print
          (py "  Generated file: out/problem_7/sample_0_generated.s");
        ExtractAssembly.Open (py "out/problem_7/unoptimized.s");
        ExtractAssembly.WriteText (py "out/problem_7/unoptimized.s")
          (py "nop" ++ [Str.newline] ++ ExtractAssembly.ret_text);
        ExtractAssembly.Print (py "  Generated file: out/problem_7/unoptimized.s");
        ExtractAssembly.Open (py "out/problem_7/samples.json");
        ExtractAssembly.WriteJson (py "out/problem_7/samples.json")
          (Json.Object
             [(py "problem_id", Json.String (py "7"));
              (py "compilation_failed", Json.Bool false);
              (py "best_sample_id", Json.Int 0);
              (py "overall_correct", Json.Null);
              (py "best_speedup", Json.Null);
              (py "unoptimized_assembly_file", Json.String (py "unoptimized.s"));
              (py "samples",
               Json.Object
                 [(py "0",
                   Json.Object
                     [(py "correct", Json.Bool true);
                      (py "generated_assembly_file",
                       Json.String (py "sample_0_generated.s"))])])]);
        ExtractAssembly.Print (py "  Generated file: out/problem_7/samples.json");
        ExtractAssembly.Print [];
        ExtractAssembly.Print ExtractAssembly.rule;
        ExtractAssembly.Print (py "Complete!");
        ExtractAssembly.Print (py "Total problems: 2");
        ExtractAssembly.Print (py "Successfully compiled problems: 1");
        ExtractAssembly.Print (py "Total files generated: 3");
        ExtractAssembly.Print (py "All files saved to directory: 'out'");
        ExtractAssembly.Print ExtractAssembly.rule]
       2 1 3,
     ExtractAssembly.Completed).
Proof. reflexivity. Qed.

(** The same run when the standard output is closed after the first
    file is written: the file is on disk and [files_generated] is
    still 0. *)
Example extract_dump_closed_output :
  ExtractAssembly.main ExtractAssembly.closed_output ExtractAssembly.command_line
    ExtractAssembly.dump_file
  = (ExtractAssembly.State
       [ExtractAssembly.Print (py "Reading file: dump.json");
        ExtractAssembly.MakeDirs (py "out");
        ExtractAssembly.Print (py "Output directory: out" ++ [Str.newline]);
        ExtractAssembly.Print (py "Processing problem 7...");
        ExtractAssembly.MakeDirs (py "out/problem_7");
        ExtractAssembly.Open (py "out/problem_7/sample_0_generated.s");
        ExtractAssembly.WriteText (py "out/problem_7/sample_0_generated.s")
          ExtractAssembly.ret_text]
       1 1 0,
     ExtractAssembly.Crashed Py.EffectError).
Proof. reflexivity. Qed.

(** The same run with an empty output directory, which [os.makedirs]
    refuses. *)
Example extract_dump_no_directory :
  ExtractAssembly.main ExtractAssembly.refuses_empty_path
    [py "extract_assembly.py"; py "dump.json"; []] ExtractAssembly.dump_file
  = (ExtractAssembly.State [ExtractAssembly.Print (py "Reading file: dump.json")] 0 0 0,
     ExtractAssembly.Crashed Py.EffectError).
Proof. reflexivity. Qed.

Example extract_without_newline_after_marker :
  ExtractAssembly.strip_code_fence (py "```assembly nop```") = Py.Throw Py.IndexError.
Proof. reflexivity. Qed.

Example extract_no_arguments :
  ExtractAssembly.main ExtractAssembly.calm [py "extract_assembly.py"]
    ExtractAssembly.dump_file
  = (ExtractAssembly.State
       [ExtractAssembly.Print
          (py "Usage: python extract_assembly.py <json_file_path> [output_directory]");
        ExtractAssembly.Print (py "Example: python extract_assembly.py untitled.json");
        ExtractAssembly.Print
          (py "Example: python extract_assembly.py data.json output_folder")]
       0 0 0,
     ExtractAssembly.Exited 1).
Proof. reflexivity. Qed.

Example extract_not_an_object :
  ExtractAssembly.main ExtractAssembly.calm [py "extract_assembly.py"; py "list.json"]
    (λ _, ExtractAssembly.Document (Json.Array []))
  = (ExtractAssembly.State
       [ExtractAssembly.Print (py "Reading file: list.json");
        ExtractAssembly.MakeDirs (py "assembly_output");
        ExtractAssembly.Print (py "Output directory: assembly_output" ++ [Str.newline])]
       0 0 0,
     ExtractAssembly.Crashed Py.AttributeError).
Proof. reflexivity. Qed.

Example process_runs_ids :
  match (process_runs true).2 with
  | Ok results => (λ r, (problem_id r, correct r)) <$> results
  | _ => []
  end
  = [(py "problem_1", Json.Bool true); (py "problem_2", Json.Bool false)].
Proof. vm_compute. reflexivity. Qed.

Example process_runs_updates :
  (process_runs true).1 (py "runs/problem_1/samples.json") = Lines [py "sidecar, updated"]
  ∧ (process_runs false).1 (py "runs/problem_1/samples.json") = Lines [py "sidecar"].
Proof. split; vm_compute; reflexivity. Qed.

Example update_sidecar :
  update_sample (py "0") (Json.String (py "s")) sidecar
  = Py.Return
      (Json.Object
         [(py "problem_id", Json.String (py "1"));
          (py "samples",
           Json.Object
             [(py "0",
               Json.Object
                 [(py "correct", Json.Bool true);
                  (py "generated_assembly_file",
                   Json.String (py "sample_0_generated.s"));
                  (py "similarity", Json.String (py "s"))])])],
       Json.Bool true).
Proof. reflexivity. Qed.

Example runs_in_a_quiet_environment :
  match Driver.process_runs Driver.quiet_exists Driver.quiet_print with
  | (w, Ok results) =>
      problem_id <$> results = [py "problem_1"; py "problem_2"]
      ∧ Driver.printed w
        = [Driver.Found 3;
           Driver.Scored (py "problem_1") (Float.rnd (8343 # 10000));
           Driver.Scored (py "problem_2") 1%Q;
           Driver.Skipping (py "problem_3") (py "sample_0_generated.s")
             (py "unoptimized.s")]
  | _ => False
  end.
Proof. vm_compute. split; reflexivity. Qed.

(** [exists] raises on the entries of [problem_2]: the exception
    reaches the caller, after [problem_1] was scored and its document
    written. *)
Example runs_with_a_guarded_directory :
  match Driver.process_runs Driver.guarded_exists Driver.quiet_print with
  | (w, Raise e) =>
      e = PermissionError
      ∧ Driver.files w (py "runs/problem_1/samples.json") = Lines [py "sidecar, updated"]
  | _ => False
  end.
Proof. vm_compute. split; reflexivity. Qed.

Example runs_with_closed_output :
  (Driver.process_runs Driver.quiet_exists Driver.closed_print).2 = Raise ValueError.
Proof. vm_compute. reflexivity. Qed.

Example report_rows :
  match report_lines sum_left three_results with
  | Ok lines => take 3 (drop 6 lines)
  | _ => []
  end
  = [py "problem_10      0.8343       0.8571       0.8000       " ++ cross_mark
     ++ py "       ";
     py "problem_2       1.0000       1.0000       1.0000       " ++ check_mark
     ++ py "       ";
     py "problem_7       0.7000       0.5000       1.0000       " ++ cross_mark
     ++ py "       "].
Proof. vm_compute. reflexivity. Qed.

Example report_statistics :
  match report_lines sum_left three_results with
  | Ok lines => take 5 (drop 10 lines)
  | _ => []
  end
  = [[Str.newline] ++ py "Statistics:";
     py "  Overall Similarity - Average: 0.8448, Max: 1.0000, Min: 0.7000";
     py "  Line Similarity - Average: 0.7857, Max: 1.0000, Min: 0.5000";
     py "  Instruction Similarity - Average: 0.9333, Max: 1.0000, Min: 0.8000";
     py "  Number of problems with instruction similarity < 1.0: 1"].
Proof. vm_compute. reflexivity. Qed.

Example report_nothing :
  generate_report sum_left quiet [] (Some (py "report.txt"))
  = ([Printed (py "No results available")], Ok ()).
Proof. reflexivity. Qed.

Example report_not_saved :
  (generate_report sum_left read_only three_results (Some (py "report.txt"))).2
  = Raise PermissionError.
Proof. vm_compute. reflexivity. Qed.

Example report_saved :
  match generate_report sum_left quiet three_results (Some (py "report.txt")) with
  | ([Printed shown; Opened path; Written path' text; Printed last], Ok _) =>
      shown = [Str.newline] ++ text ∧ path = py "report.txt" ∧ path' = path
      ∧ last = [Str.newline] ++ py "Report saved to: report.txt"
  | _ => False
  end.
Proof. vm_compute. repeat split. Qed.

Example fixed4_ties :
  Format.fixed4 (Float.rnd (25 # 1000000)) = py "0.0000"
  ∧ Format.fixed4 (Float.rnd (75 # 1000000)) = py "0.0001"
  ∧ Format.fixed4 (- (1 # 3))%Q = py "-0.3333".
Proof. repeat split; vm_compute; reflexivity. Qed.
(** ** Facts about the [str] methods with a string argument *)

Section substr_facts.

Import Substr.

Lemma startswith_prefix (p s : str) : startswith p s = true ↔ ∃ t, s = p ++ t.
Proof.
  revert s. induction p as [|x p IH]; intros s; simpl.
  - split; [by exists s|done].
  - destruct s as [|y s]; simpl.
    + split; [done|by intros [t ?]].
    + rewrite andb_true_iff, bool_decide_eq_true, IH. split.
      * intros [-> [t ->]]. by exists t.
      * intros [t [= -> ->]]. eauto.
Qed.

Lemma startswith_app (p s : str) : startswith p (p ++ s) = true.
Proof. apply startswith_prefix. by exists s. Qed.

Lemma startswith_refl (p : str) : startswith p p = true.
Proof. apply startswith_prefix. exists []. by rewrite app_nil_r. Qed.

Lemma startswith_length (p s : str) : startswith p s = true → (length p ≤ length s)%nat.
Proof. intros [t ->]%startswith_prefix. rewrite length_app. lia. Qed.

Lemma startswith_trans (p q s : str) :
  startswith p q = true → startswith q s = true → startswith p s = true.
Proof.
  intros [t ->]%startswith_prefix [u ->]%startswith_prefix.
  rewrite <- (assoc_L (++)). apply startswith_app.
Qed.

Lemma endswith_suffix (suf s : str) : endswith suf s = true ↔ ∃ t, s = t ++ suf.
Proof.
  unfold endswith. rewrite bool_decide_eq_true. split.
  - set (n := (length s - length suf)%nat). intros E. exists (take n s).
    by rewrite <- E, take_drop.
  - intros [t ->]. rewrite length_app.
    replace (length t + length suf - length suf)%nat with (length t) by lia.
    by rewrite drop_app_length.
Qed.

Lemma endswith_app (suf s : str) : endswith suf (s ++ suf) = true.
Proof. apply endswith_suffix. by exists s. Qed.

Lemma find_app (sep r : str) : find sep (sep ++ r) = Some 0%nat.
Proof. destruct (sep ++ r) eqn:E; simpl; rewrite <- E, startswith_app; done. Qed.

(** [find] returns a position at which the separator stands. *)
Lemma find_Some (sep s : str) (i : nat) :
  find sep s = Some i → s = take i s ++ sep ++ drop (i + length sep) s.
Proof.
  revert i. induction s as [|c s IH]; intros i; simpl.
  - destruct (startswith sep []) eqn:E; [|done].
    intros [= <-]. apply startswith_prefix in E as [t E].
    symmetry in E. apply app_eq_nil in E as [-> ->]. done.
  - destruct (startswith sep (c :: s)) eqn:E.
    + intros [= <-]. apply startswith_prefix in E as [t E].
      rewrite E. simpl. by rewrite drop_app_length.
    + destruct (find sep s) as [j|] eqn:F; [|done].
      intros [= <-]. simpl. f_equal. by apply IH.
Qed.

(** When [find] returns nothing the separator occurs nowhere. *)
Lemma find_None (sep s : str) :
  find sep s = None ↔ ∀ u v, s ≠ u ++ sep ++ v.
Proof.
  induction s as [|c s IH]; simpl.
  - destruct (startswith sep []) eqn:E.
    + split; [done|]. intros Hn. apply startswith_prefix in E as [t E].
      by destruct (Hn [] t).
    + split; [|done]. intros _ u v Hs.
      assert (startswith sep [] = true); [|congruence].
      symmetry in Hs. apply app_eq_nil in Hs as [_ [-> _]%app_eq_nil]. done.
  - destruct (startswith sep (c :: s)) eqn:E.
    + split; [done|]. intros Hn. apply startswith_prefix in E as [t E].
      by destruct (Hn [] t).
    + rewrite fmap_None, IH. split.
      * intros Hn u v Hs. destruct u as [|c' u].
        -- simpl in Hs. rewrite Hs, startswith_app in E. done.
        -- injection Hs as -> Hs. by apply (Hn u v).
      * intros Hn u v ->. by apply (Hn (c :: u) v).
Qed.

Lemma rfind_short (sep s : str) :
  (length s < length sep)%nat → rfind sep s = None.
Proof.
  induction s as [|c s IH]; simpl; intros Hl.
  - destruct sep; [simpl in Hl; lia|done].
  - rewrite IH by lia.
    destruct (startswith sep (c :: s)) eqn:E; [|done].
    apply startswith_length in E. simpl in E. lia.
Qed.

(** The last occurrence of a separator in a string that ends with it
    is the one at the end. *)
Lemma rfind_app (sep body : str) :
  sep ≠ [] → rfind sep (body ++ sep) = Some (length body).
Proof.
  intros Hs. induction body as [|c body IH]; simpl.
  - destruct sep as [|x sep]; [done|]. simpl.
    rewrite rfind_short by (simpl; lia).
    rewrite bool_decide_true by done. simpl.
    by rewrite startswith_refl.
  - by rewrite IH.
Qed.

Lemma rfind_Some (sep s : str) (i : nat) :
  rfind sep s = Some i → s = take i s ++ sep ++ drop (i + length sep) s.
Proof.
  revert i. induction s as [|c s IH]; intros i; simpl.
  - destruct sep; [|done]. by intros [= <-].
  - destruct (rfind sep s) as [j|] eqn:F.
    + intros [= <-]. simpl. f_equal. by apply IH.
    + destruct (startswith sep (c :: s)) eqn:E; [|done].
      intros [= <-]. apply startswith_prefix in E as [t E].
      rewrite E. simpl. by rewrite drop_app_length.
Qed.

Lemma join_relative (a b : str) :
  startswith [slash] b = false → startswith a (join a b) = true.
Proof.
  intros Hb. unfold join. rewrite Hb.
  destruct (_ || _); apply startswith_app.
Qed.

End substr_facts.

(** ** Facts about the extraction script *)

Section extract_facts.

Import Py ExtractAssembly.

Lemma split1_app (sep r : str) : Substr.split1 sep (sep ++ r) = [[]; r].
Proof.
  unfold Substr.split1. rewrite find_app. simpl. by rewrite drop_app_length.
Qed.

Lemma rsplit1_app (sep body : str) :
  sep ≠ [] → Substr.rsplit1 sep (body ++ sep) = [body; []].
Proof.
  intros Hs. unfold Substr.rsplit1. rewrite rfind_app by done.
  rewrite take_app_length.
  by rewrite <- length_app, drop_all.
Qed.

Lemma bind_Return {A B} (f : A → result B) (a : A) : (Return a ≫= f) = f a.
Proof. done. Qed.

Lemma bind_Throw {A B} (f : A → result B) (e : error) : (Throw e ≫= f) = Throw e.
Proof. done. Qed.

Lemma fence_open_line_eq : fence_open_line = fence_open ++ [Str.newline].
Proof. done. Qed.

Lemma triple_ret {A} (P : state → Prop) (a : A) Q R :
  (∀ s, P s → Q a s) → triple P (mret a) Q R.
Proof. intros HQ s Hs. by apply HQ. Qed.

Lemma triple_bind {A B} (P : state → Prop) (m : script A) (f : A → script B)
    (Q' : A → state → Prop) Q R :
  triple P m Q' R → (∀ a, triple (Q' a) (f a) Q R) → triple P (m ≫= f) Q R.
Proof.
  intros Hm Hf s Hs. specialize (Hm s Hs).
  unfold mbind, script_mbind, script_bind.
  destruct (m s) as [s' [a|e]]; [by apply Hf|done].
Qed.

Lemma triple_lift {A B} (P : state → Prop) (r : result A) (f : A → script B) Q R :
  (∀ a, r = Return a → triple P (f a) Q R) →
  (∀ e s, r = Throw e → P s → R e s) →
  triple P (lift r ≫= f) Q R.
Proof.
  intros Hf He s Hs. unfold mbind, script_mbind, script_bind, lift.
  destruct r as [a|e]; [by apply Hf|by apply He].
Qed.

Lemma triple_weaken {A} (P P' : state → Prop) (m : script A) (Q Q' : A → state → Prop)
    (R R' : error → state → Prop) :
  triple P' m Q' R' →
  (∀ s, P s → P' s) → (∀ a s, Q' a s → Q a s) → (∀ e s, R' e s → R e s) →
  triple P m Q R.
Proof.
  intros Hm HP HQ HR s Hs. specialize (Hm s (HP s Hs)).
  destruct (m s) as [s' [a|e]]; auto.
Qed.

Lemma triple_for {A B} (I : B → state → Prop) (body : B → A → script B)
    (xs : list A) (acc : B) R :
  (∀ acc x, x ∈ xs → triple (I acc) (body acc x) I R) →
  triple (I acc) (for_items body xs acc) I R.
Proof.
  revert acc. induction xs as [|x xs IH]; intros acc Hb; simpl.
  - by apply triple_ret.
  - eapply triple_bind; [apply Hb; left|].
    intros acc'. apply IH. intros acc'' y Hy. apply Hb. by right.
Qed.

Lemma triple_step {A} (P : state → Prop) (m : script unit) (f : unit → script A)
    (P' : state → Prop) Q R :
  triple P m (λ _, P') R → triple P' (f ()) Q R → triple P (m ≫= f) Q R.
Proof.
  intros Hm Hf. eapply triple_bind; [exact Hm|]. by intros [].
Qed.

Lemma triple_update (P P' : state → Prop) (m : script unit) (g : state → state) R :
  (∀ s, m s = (g s, Return ())) → (∀ s, P s → P' (g s)) →
  triple P m (λ _, P') R.
Proof. intros Hm HP s Hs. rewrite Hm. by apply HP. Qed.

Lemma triple_perform (fails : list event → event → bool) (P P' : state → Prop)
    (e : event) R :
  (∀ s, P s → P' (record e s)) →
  (∀ s, P s → R EffectError s) →
  triple P (perform fails e) (λ _, P') R.
Proof.
  intros HP HR s Hs. unfold perform.
  destruct (fails (events s) e); [by apply HR|by apply HP].
Qed.

Lemma triple_write_text (fails : list event → event → bool) (P P1 P' : state → Prop)
    (path : str) (v : Json.value) R :
  (∀ s, P s → P1 (record (Open path) s)) →
  (∀ s text, v = Json.String text → P1 s → P' (record (WriteText path text) s)) →
  (∀ s, P s → R EffectError s) →
  (∀ s, P1 s → R EffectError s) →
  (∀ s, (∀ text, v ≠ Json.String text) → P1 s → R TypeError s) →
  triple P (write_text fails path v) (λ _, P') R.
Proof.
  intros Ho Hw H0 H1 Ht. unfold write_text.
  eapply triple_step; [by apply triple_perform with (P' := P1)|].
  destruct v as [| | | |text| |]; try (intros s Hs; by apply Ht).
  apply triple_perform; [|done]. intros s Hs. by apply (Hw s text).
Qed.

Lemma triple_write_json (fails : list event → event → bool) (P P1 P' : state → Prop)
    (path : str) (document : Json.value) R :
  (∀ s, P s → P1 (record (Open path) s)) →
  (∀ s, P1 s → P' (record (WriteJson path document) s)) →
  (∀ s, P s → R EffectError s) →
  (∀ s, P1 s → R EffectError s) →
  triple P (write_json fails path document) (λ _, P') R.
Proof.
  intros Ho Hw H0 H1. unfold write_json.
  eapply triple_step; [by apply triple_perform with (P' := P1)|].
  by apply triple_perform.
Qed.

Lemma lookup_store (key k : str) (v : Json.value) (d : Json.dict) :
  Json.lookup key (Json.store k v d)
  = if decide (k = key) then Some v else Json.lookup key d.
Proof.
  induction d as [|[k' w] d IH]; simpl.
  - done.
  - destruct (decide (k' = k)) as [->|Hk]; simpl.
    + by destruct (decide (k = key)).
    + destruct (decide (k' = key)) as [->|Hk'].
      * by rewrite decide_False by done.
      * done.
Qed.

Lemma Forall_store (P : str * Json.value → Prop) (k : str) (v : Json.value)
    (d : Json.dict) :
  (∀ k', P (k', v)) → Forall P d → Forall P (Json.store k v d).
Proof.
  intros Hv. induction 1 as [|[k' w] d Hx Hd IH]; simpl.
  - by constructor.
  - destruct (decide (k' = k)); constructor; auto.
Qed.

Lemma copy_fields_no_assembly (fields : Json.dict) :
  Json.lookup generated_assembly (copy_fields fields) = None.
Proof.
  unfold copy_fields.
  assert (G : ∀ acc : Json.dict,
             Json.lookup generated_assembly acc = None →
             Json.lookup generated_assembly
               (foldl (λ sample_info '(key, val),
                         if bool_decide (key ≠ generated_assembly)
                         then Json.store key val sample_info
                         else sample_info) acc fields) = None).
  { induction fields as [|[k v] fields IH]; intros acc Hacc; simpl; [done|].
    apply IH. case_bool_decide; [|done].
    rewrite lookup_store. by rewrite decide_False. }
  by apply G.
Qed.

Lemma getitem_contains (key : str) (x : Json.value) :
  Json.contains key x = Return true → Json.getitem key x ≠ Throw KeyError.
Proof.
  destruct x; simpl; try done.
  intros [= E]. apply bool_decide_eq_true in E as [v ->]. done.
Qed.

End extract_facts.

Section fence_properties.

Import Py ExtractAssembly.

Lemma fence_nonempty : fence ≠ [].
Proof. done. Qed.

Lemma strip_first_stage (s : str) :
  (if Substr.startswith fence_open s
   then item (Substr.split1 fence_open_line s) 1
   else Return s)
  = match Substr.startswith fence_open s, Substr.find fence_open_line s with
    | true, Some i => Return (drop (i + length fence_open_line) s)
    | true, None => Throw IndexError
    | false, _ => Return s
    end.
Proof.
  unfold Substr.split1.
  destruct (Substr.startswith fence_open s); [|done].
  by destruct (Substr.find fence_open_line s).
Qed.

Lemma strip_second_stage (s : str) :
  (if Substr.endswith fence s then item (Substr.rsplit1 fence s) 0 else Return s)
  = Return (if Substr.endswith fence s
            then match Substr.rfind fence s with Some i => take i s | None => s end
            else s).
Proof.
  unfold Substr.rsplit1.
  destruct (Substr.endswith fence s); [|done].
  by destruct (Substr.rfind fence s).
Qed.

Lemma strip_code_fence_eq (s : str) :
  strip_code_fence s
  = s1 ← (match Substr.startswith fence_open s, Substr.find fence_open_line s with
          | true, Some i => Return (drop (i + length fence_open_line) s)
          | true, None => Throw IndexError
          | false, _ => Return s
          end);
    Return (if Substr.endswith fence s1
            then match Substr.rfind fence s1 with Some i => take i s1 | None => s1 end
            else s1).
Proof.
  unfold strip_code_fence. rewrite strip_first_stage.
  destruct (match Substr.startswith fence_open s with true => _ | false => _ end)
    as [s1|e]; [|done].
  rewrite !bind_Return. by rewrite strip_second_stage.
Qed.

End fence_properties.

(** ** The invariant of the extraction script *)

Section extract_invariant.

Import Py ExtractAssembly.

Local Arguments py : simpl never.

Variable fails : list event → event → bool.
Variable output_dir : str.

Lemma written_snoc l e t c f :
  written (State (l ++ [e]) t c f)
  = written (State l t c f) + (if is_write e then 1 else 0).
Proof.
  unfold written. simpl. rewrite filter_app, length_app, filter_cons, filter_nil.
  destruct (is_write e); simpl; lia.
Qed.

Lemma documents_snoc l e t c f :
  documents (State (l ++ [e]) t c f)
  = documents (State l t c f) + (if is_write_json e then 1 else 0).
Proof.
  unfold documents. simpl. rewrite filter_app, length_app, filter_cons, filter_nil.
  destruct (is_write_json e); simpl; lia.
Qed.

Lemma invariant_record (p u : Z) (s : state) (e : event) :
  invariant output_dir p u s → event_ok output_dir e →
  invariant output_dir (p - (if is_write_json e then 1 else 0))
    (u + (if is_write e then 1 else 0)) (record e s).
Proof.
  intros (H1 & H2 & H3 & H4) He. unfold invariant, record.
  rewrite written_snoc, documents_snoc. simpl.
  destruct s as [l t c f]. simpl in *.
  repeat split; try lia.
  apply Forall_app. split; [done|]. by constructor.
Qed.

(** An event that is not the write of a file leaves the counters as
    they are. *)
Lemma invariant_note (p u : Z) (s : state) (e : event) :
  is_write e = false → invariant output_dir p u s → event_ok output_dir e →
  invariant output_dir p u (record e s).
Proof.
  intros Hw Hs He. pose proof (invariant_record p u s e Hs He) as H.
  rewrite Hw in H. assert (is_write_json e = false) as Hj by (by destruct e).
  rewrite Hj in H. by replace (p - 0) with p in H by lia; replace (u + 0) with u in H by lia.
Qed.

Lemma invariant_print (p u : Z) (s : state) (text : str) :
  invariant output_dir p u s → invariant output_dir p u (record (Print text) s).
Proof. intros Hs. by apply invariant_note. Qed.

Lemma invariant_count_file (p u : Z) (s : state) :
  invariant output_dir p u s →
  invariant output_dir p (u - 1)
    (State (events s) (total_problems s) (compiled_problems s) (files_generated s + 1)).
Proof.
  intros (H1 & H2 & H3 & H4). destruct s as [l t c f].
  unfold invariant, written, documents in *. simpl in *.
  repeat split; try done; lia.
Qed.

Lemma invariant_count_problem (p u : Z) (s : state) :
  invariant output_dir p u s →
  invariant output_dir p u
    (State (events s) (total_problems s + 1) (compiled_problems s) (files_generated s)).
Proof.
  intros (H1 & H2 & H3 & H4). destruct s as [l t c f].
  unfold invariant, written, documents in *. simpl in *.
  repeat split; try done; lia.
Qed.

Lemma invariant_count_compiled (u : Z) (s : state) :
  invariant output_dir 0 u s → compiled_problems s < total_problems s →
  invariant output_dir 1 u
    (State (events s) (total_problems s) (compiled_problems s + 1) (files_generated s)).
Proof.
  intros (H1 & H2 & H3 & H4) Hlt. destruct s as [l t c f].
  unfold invariant, written, documents in *. simpl in *.
  repeat split; try done; lia.
Qed.

Lemma stopped (p u : Z) (s : state) :
  0 ≤ p ≤ 1 → 0 ≤ u ≤ 1 → invariant output_dir p u s → stopped_ok output_dir s.
Proof. intros. by exists p, u. Qed.

Lemma raised (p u : Z) (e : error) (s : state) :
  0 ≤ p ≤ 1 → 0 ≤ u ≤ 1 → e ≠ KeyError → invariant output_dir p u s →
  raised_ok output_dir e s.
Proof. intros. split; [done|]. by apply (stopped p u). Qed.

Lemma process_sample_ok (problem_id : str) (samples_data : Json.dict)
    (sample : str * Json.value) :
  triple (λ s, samples_ok samples_data ∧ invariant output_dir 1 0 s)
    (process_sample fails (Substr.join output_dir (problem_folder problem_id))
       samples_data sample)
    (λ samples_data' s, samples_ok samples_data' ∧ invariant output_dir 1 0 s)
    (raised_ok output_dir).
Proof.
  destruct sample as [sample_id sample_data].
  unfold process_sample. cbv zeta.
  apply triple_lift.
  2: { intros e s He [_ Hs]. apply (raised 1 0); [lia|lia| |done].
       destruct sample_data; simpl in He; congruence. }
  intros fields Hf.
  apply triple_lift.
  2: { intros e s He [_ Hs]. apply (raised 1 0); [lia|lia| |done].
       destruct sample_data; simpl in He; congruence. }
  assert (Hinfo : sample_info_ok (Json.Object (copy_fields fields))).
  { eexists. split; [done|]. apply copy_fields_no_assembly. }
  intros present Hp. destruct present.
  - apply triple_lift.
    2: { intros e s He [_ Hs]. apply (raised 1 0); [lia|lia| |done].
         intros ->. by eapply getitem_contains. }
    intros generated_asm Ha.
    eapply triple_step.
    { apply triple_write_text
        with (P1 := λ s, samples_ok samples_data ∧ invariant output_dir 1 0 s)
             (P' := λ s, samples_ok samples_data ∧ invariant output_dir 1 1 s).
      - intros s [Hsd Hs]. split; [done|].
        apply invariant_note; [done|done|]. split; [|done].
        exists problem_id, (sample_file sample_id). split; [done|]. left. right. eauto.
      - intros s text _ [Hsd Hs]. split; [done|].
        apply (invariant_record 1 0 s (WriteText _ text)); [done|].
        split; [|done]. exists problem_id, (sample_file sample_id).
        split; [done|]. right. eauto.
      - intros s [_ Hs]. by apply (raised 1 0).
      - intros s [_ Hs]. by apply (raised 1 0).
      - intros s _ [_ Hs]. by apply (raised 1 0). }
    eapply triple_step.
    { apply triple_perform
        with (P' := λ s, samples_ok samples_data ∧ invariant output_dir 1 1 s).
      - intros s [Hsd Hs]. split; [done|]. by apply invariant_print.
      - intros s [_ Hs]. by apply (raised 1 1). }
    eapply triple_step.
    { eapply triple_update with (P' := λ s, samples_ok samples_data
                                          ∧ invariant output_dir 1 0 s); [done|].
      intros s [Hsd Hs]. split; [done|]. apply (invariant_count_file 1 1 s Hs). }
    apply triple_ret. intros s [Hsd Hs]. split; [|done].
    apply Forall_store; [|by apply Forall_store].
    intros k. simpl. eexists. split; [done|].
    rewrite lookup_store, decide_False by done. apply copy_fields_no_assembly.
  - apply triple_ret. intros s [Hsd Hs]. split; [|done]. by apply Forall_store.
Qed.

Lemma strip_code_fence_of_error (v : Json.value) (e : error) :
  strip_code_fence_of v = Throw e → e ≠ KeyError.
Proof.
  destruct v as [| | | |s| |]; simpl; try congruence.
  rewrite strip_code_fence_eq.
  destruct (Substr.startswith fence_open s);
    destruct (Substr.find fence_open_line s);
    rewrite ?bind_Return, ?bind_Throw; simpl; congruence.
Qed.

Lemma process_problem_ok (problem : str * Json.value) :
  triple (invariant output_dir 0 0) (process_problem fails output_dir problem)
    (λ _, invariant output_dir 0 0) (raised_ok output_dir).
Proof.
  destruct problem as [problem_id problem_data].
  unfold process_problem. cbv zeta.
  eapply triple_step.
  { eapply triple_update
      with (P' := λ s, invariant output_dir 0 0 s
                       ∧ compiled_problems s < total_problems s); [done|].
    intros s Hs. split; [by apply invariant_count_problem|].
    destruct Hs as (_ & ? & _). simpl. lia. }
  apply triple_lift.
  2: { intros e s He [Hs _]. apply (raised 0 0); [lia|lia| |done].
       destruct problem_data; simpl in He; congruence. }
  intros failed Hfailed.
  destruct (Json.eq_False failed) eqn:Hcompiled.
  2: { apply triple_ret. by intros s [Hs _]. }
  eapply triple_step.
  { eapply triple_update with (P' := invariant output_dir 1 0); [done|].
    intros s [Hs Hlt]. by apply invariant_count_compiled. }
  eapply triple_step.
  { apply triple_perform with (P' := invariant output_dir 1 0).
    - intros s Hs. by apply invariant_print.
    - intros s Hs. by apply (raised 1 0). }
  eapply triple_step.
  { apply triple_perform with (P' := invariant output_dir 1 0).
    - intros s Hs. apply invariant_note; [done|done|]. split; [|done]. right. eauto.
    - intros s Hs. by apply (raised 1 0). }
  apply triple_lift.
  2: { intros e s He Hs. apply (raised 1 0); [lia|lia| |done].
       destruct problem_data; simpl in He; congruence. }
  intros present Hp.
  eapply triple_bind
    with (Q' := λ samples_data s, samples_ok samples_data ∧ invariant output_dir 1 0 s).
  { destruct present.
    - apply triple_lift.
      2: { intros e s He Hs. apply (raised 1 0); [lia|lia| |done].
           intros ->. by eapply getitem_contains. }
      intros samples Hsamples.
      apply triple_lift.
      2: { intros e s He Hs. apply (raised 1 0); [lia|lia| |done].
           destruct samples; simpl in He; congruence. }
      intros samples' Hsamples'.
      eapply triple_weaken.
      + apply (triple_for
                 (λ samples_data s, samples_ok samples_data ∧ invariant output_dir 1 0 s)).
        intros acc x _. by apply process_sample_ok.
      + intros s Hs. split; [constructor|done].
      + by intros.
      + by intros.
    - apply triple_ret. intros s Hs. split; [constructor|done]. }
  intros samples_data.
  apply triple_lift.
  2: { intros e s He [_ Hs]. apply (raised 1 0); [lia|lia| |done].
       destruct problem_data; simpl in He; congruence. }
  clear present Hp. intros present Hp.
  eapply triple_bind
    with (Q' := λ _ s, samples_ok samples_data ∧ invariant output_dir 1 0 s).
  { destruct present.
    - apply triple_lift.
      2: { intros e s He [_ Hs]. apply (raised 1 0); [lia|lia| |done].
           intros ->. by eapply getitem_contains. }
      intros unopt_asm Hunopt.
      apply triple_lift.
      2: { intros e s He [_ Hs]. apply (raised 1 0); [lia|lia| |done].
           by eapply strip_code_fence_of_error. }
      intros unopt_asm' Hstrip.
      eapply triple_step.
      { apply triple_write_text
          with (P1 := λ s, samples_ok samples_data ∧ invariant output_dir 1 0 s)
               (P' := λ s, samples_ok samples_data ∧ invariant output_dir 1 1 s).
        - intros s [Hsd Hs]. split; [done|].
          apply invariant_note; [done|done|]. split; [|done].
          exists problem_id, (py "unoptimized.s"). split; [done|]. left. by left.
        - intros s text _ [Hsd Hs]. split; [done|].
          apply (invariant_record 1 0 s (WriteText _ text)); [done|].
          split; [|done]. exists problem_id, (py "unoptimized.s").
          split; [done|]. by left.
        - intros s [_ Hs]. by apply (raised 1 0).
        - intros s [_ Hs]. by apply (raised 1 0).
        - intros s _ [_ Hs]. by apply (raised 1 0). }
      eapply triple_step.
      { apply triple_perform
          with (P' := λ s, samples_ok samples_data ∧ invariant output_dir 1 1 s).
        - intros s [Hsd Hs]. split; [done|]. by apply invariant_print.
        - intros s [_ Hs]. by apply (raised 1 1). }
      eapply triple_update; [done|].
      intros s [Hsd Hs]. split; [done|]. apply (invariant_count_file 1 1 s Hs).
    - by apply triple_ret. }
  intros _.
  apply triple_lift.
  2: { intros e s He [_ Hs]. apply (raised 1 0); [lia|lia| |done].
       destruct problem_data; simpl in He; congruence. }
  intros failed' Hfailed'.
  assert (failed' = failed) as -> by congruence.
  apply triple_lift.
  2: { intros e s He [_ Hs]. apply (raised 1 0); [lia|lia| |done].
       destruct problem_data; simpl in He; congruence. }
  intros best_sample_id _.
  apply triple_lift.
  2: { intros e s He [_ Hs]. apply (raised 1 0); [lia|lia| |done].
       destruct problem_data; simpl in He; congruence. }
  intros overall_correct _.
  apply triple_lift.
  2: { intros e s He [_ Hs]. apply (raised 1 0); [lia|lia| |done].
       destruct problem_data; simpl in He; congruence. }
  intros best_speedup _.
  eapply triple_step.
  { apply triple_write_json
      with (P1 := λ s, samples_ok samples_data ∧ invariant output_dir 1 0 s)
           (P' := invariant output_dir 0 1).
    - intros s [Hsd Hs]. split; [done|].
      apply invariant_note; [done|done|]. split; [|done].
      exists problem_id, (py "samples.json"). split; [done|]. by right.
    - intros s [Hsd Hs].
      apply (invariant_record 1 0 s (WriteJson _ _)); [done|].
      split; [by exists problem_id, (py "samples.json")|].
      by exists problem_id, failed, best_sample_id, overall_correct, best_speedup,
           samples_data.
    - intros s [_ Hs]. by apply (raised 1 0).
    - intros s [_ Hs]. by apply (raised 1 0). }
  eapply triple_step.
  { apply triple_perform with (P' := invariant output_dir 0 1).
    - intros s Hs. by apply invariant_print.
    - intros s Hs. by apply (raised 0 1). }
  eapply triple_step.
  { eapply triple_update with (P' := invariant output_dir 0 0); [done|].
    intros s Hs. apply (invariant_count_file 0 1 s Hs). }
  apply triple_perform.
  - intros s Hs. by apply invariant_print.
  - intros s Hs. by apply (raised 0 0).
Qed.

Lemma process_group_ok (group : str * Json.value) :
  triple (invariant output_dir 0 0) (process_group fails output_dir group)
    (λ _, invariant output_dir 0 0) (raised_ok output_dir).
Proof.
  destruct group as [key value].
  unfold process_group.
  apply triple_lift.
  2: { intros e s He Hs. apply (raised 0 0); [lia|lia| |done].
       destruct value; simpl in He; congruence. }
  intros present Hp. destruct present; [|by apply triple_ret].
  apply triple_lift.
  2: { intros e s He Hs. apply (raised 0 0); [lia|lia| |done].
       intros ->. by eapply getitem_contains. }
  intros problems Hproblems.
  apply triple_lift.
  2: { intros e s He Hs. apply (raised 0 0); [lia|lia| |done].
       destruct problems; simpl in He; congruence. }
  intros problems' _.
  apply (triple_for (λ _, invariant output_dir 0 0)).
  intros _ x _. apply process_problem_ok.
Qed.

Lemma initial_ok : invariant output_dir 0 0 initial.
Proof. unfold invariant. simpl. by repeat split. Qed.

Lemma print_ok (text : str) :
  triple (invariant output_dir 0 0) (perform fails (Print text))
    (λ _, invariant output_dir 0 0) (raised_ok output_dir).
Proof.
  apply triple_perform.
  - intros s Hs. by apply invariant_print.
  - intros s Hs. by apply (raised 0 0).
Qed.

Lemma extract_ok (data : Json.value) :
  triple (invariant output_dir 0 0) (extract fails data output_dir)
    (λ _, invariant output_dir 0 0) (raised_ok output_dir).
Proof.
  unfold extract.
  eapply triple_step.
  { apply triple_perform with (P' := invariant output_dir 0 0).
    - intros s Hs. apply invariant_note; [done|done|]. split; [by left|done].
    - intros s Hs. by apply (raised 0 0). }
  eapply triple_step; [apply print_ok|].
  apply triple_lift.
  2: { intros e s He Hs. apply (raised 0 0); [lia|lia| |done].
       destruct data; simpl in He; congruence. }
  intros groups _.
  apply (triple_for (λ _, invariant output_dir 0 0)).
  intros _ x _. apply process_group_ok.
Qed.

(** The statistics that the script prints last are its counters. *)
Lemma summary_ok :
  triple (invariant output_dir 0 0) (summary fails output_dir)
    (λ _ s, invariant output_dir 0 0 s ∧ reported s) (raised_ok output_dir).
Proof.
  intros s0 Hs0.
  set (Q := λ (n : nat) (s : state),
              invariant output_dir 0 0 s
              ∧ total_problems s = total_problems s0
              ∧ compiled_problems s = compiled_problems s0
              ∧ files_generated s = files_generated s0
              ∧ (2 < n → Print (py "Total problems: " ++ counter (total_problems s0))
                           ∈ events s)%nat
              ∧ (3 < n → Print (py "Successfully compiled problems: "
                                ++ counter (compiled_problems s0)) ∈ events s)%nat
              ∧ (4 < n → Print (py "Total files generated: "
                                ++ counter (files_generated s0)) ∈ events s)%nat).
  assert (Hstep : ∀ n text,
            (n = 2%nat → text = py "Total problems: " ++ counter (total_problems s0)) →
            (n = 3%nat → text = py "Successfully compiled problems: "
                                ++ counter (compiled_problems s0)) →
            (n = 4%nat → text = py "Total files generated: "
                                ++ counter (files_generated s0)) →
            triple (Q n) (perform fails (Print text)) (λ _, Q (S n))
              (raised_ok output_dir)).
  { intros n text H2 H3 H4. apply triple_perform.
    - intros s (Hs & Ht & Hc & Hf & P2 & P3 & P4).
      split; [by apply invariant_print|]. unfold record. cbn [events total_problems
        compiled_problems files_generated].
      repeat split; try done; intros Hn; apply elem_of_app.
      + destruct (decide (n = 2%nat)) as [Hn2|Hn2].
        * right. rewrite (H2 Hn2). by left.
        * left. apply P2. lia.
      + destruct (decide (n = 3%nat)) as [Hn3|Hn3].
        * right. rewrite (H3 Hn3). by left.
        * left. apply P3. lia.
      + destruct (decide (n = 4%nat)) as [Hn4|Hn4].
        * right. rewrite (H4 Hn4). by left.
        * left. apply P4. lia.
    - intros s (Hs & _). by apply (raised 0 0). }
  pose (m := (_ ← perform fails (Print rule);
              _ ← perform fails (Print (py "Complete!"));
              _ ← perform fails (Print (py "Total problems: "
                                        ++ counter (total_problems s0)));
              _ ← perform fails (Print (py "Successfully compiled problems: "
                                        ++ counter (compiled_problems s0)));
              _ ← perform fails (Print (py "Total files generated: "
                                        ++ counter (files_generated s0)));
              _ ← perform fails (Print (py "All files saved to directory: '"
                                        ++ output_dir ++ py "'"));
              perform fails (Print rule)) : script unit).
  assert (Hall : triple (Q 0%nat) m (λ _, Q 7%nat) (raised_ok output_dir)).
  { unfold m. repeat (eapply triple_step; [apply Hstep; intros; (done || lia)|]).
    apply Hstep; intros; (done || lia). }
  specialize (Hall s0). ospecialize (Hall _).
  { unfold Q. split; [done|]. repeat split; intros; lia. }
  change (summary fails output_dir s0) with (m s0).
  destruct (m s0) as [s' [[]|e]]; [|done].
  destruct Hall as (Hs & Ht & Hc & Hf & P2 & P3 & P4).
  split; [done|]. unfold reported. rewrite Ht, Hc, Hf.
  repeat split; [apply P2|apply P3|apply P4]; lia.
Qed.

End extract_invariant.

Section main_facts.

Import Py ExtractAssembly.

Lemma store_fresh (k : str) (v : Json.value) (d : Json.dict) :
  k ∉ Json.keys d → Json.store k v d = d ++ [(k, v)].
Proof.
  induction d as [|[k' w] d IH]; simpl; [done|].
  intros Hk. apply not_elem_of_cons in Hk as [Hk Hd].
  rewrite decide_False by done. by rewrite IH.
Qed.

Lemma store_store (k : str) (v1 v2 : Json.value) (d : Json.dict) :
  Json.store k v2 (Json.store k v1 d) = Json.store k v2 d.
Proof.
  induction d as [|[k' w] d IH]; simpl.
  - by rewrite decide_True.
  - destruct (decide (k' = k)) as [->|Hk]; simpl.
    + by rewrite decide_True.
    + by rewrite decide_False, IH.
Qed.

Lemma keys_store (k : str) (v : Json.value) (d : Json.dict) :
  Json.keys (Json.store k v d)
  = if bool_decide (k ∈ Json.keys d) then Json.keys d else Json.keys d ++ [k].
Proof.
  induction d as [|[k' w] d IH]; simpl; [done|].
  destruct (decide (k' = k)) as [->|Hk]; simpl.
  - rewrite bool_decide_true by left. done.
  - unfold Json.keys in *. rewrite IH.
    destruct (decide (k ∈ d.*1)) as [Hin|Hin].
    + rewrite !bool_decide_true; [done|by right|done].
    + rewrite !bool_decide_false; [done| |done].
      intros [?|?]%elem_of_cons; congruence.
Qed.

Lemma copy_fields_filter (fields : Json.dict) :
  NoDup (Json.keys fields) →
  copy_fields fields = filter (λ kv, kv.1 ≠ generated_assembly) fields.
Proof.
  unfold copy_fields.
  assert (G : ∀ acc : Json.dict,
             NoDup (Json.keys acc ++ Json.keys fields) →
             foldl (λ sample_info '(key, val),
                      if bool_decide (key ≠ generated_assembly)
                      then Json.store key val sample_info
                      else sample_info) acc fields
             = acc ++ filter (λ kv, kv.1 ≠ generated_assembly) fields).
  { induction fields as [|[k v] fields IH]; intros acc Hnd.
    - simpl. by rewrite app_nil_r.
    - rewrite filter_cons. simpl.
      assert (Hk : k ∉ Json.keys acc).
      { apply NoDup_app in Hnd as (_ & Hd & _). intros Hin.
        apply (Hd k Hin). left. }
      assert (Hnd' : ∀ acc', Json.keys acc' = Json.keys acc ∨
                             Json.keys acc' = Json.keys acc ++ [k] →
                             NoDup (Json.keys acc' ++ Json.keys fields)).
      { intros acc' [->| ->].
        - apply NoDup_app in Hnd as (H1 & H2 & H3). apply NoDup_app.
          split; [done|]. split; [|by apply NoDup_cons in H3 as [_ ?]].
          intros x Hx Hx'. apply (H2 x Hx). by right.
        - rewrite <- (assoc_L (++)). exact Hnd. }
      case_bool_decide as Hga.
      + rewrite decide_True by done. rewrite IH.
        * rewrite store_fresh by done. by rewrite <- (assoc_L (++)).
        * apply Hnd'. right. rewrite store_fresh by done.
          unfold Json.keys. by rewrite fmap_app.
      + rewrite decide_False by (by intros ?). apply IH, Hnd'. by left. }
  intros Hnd. by rewrite (G [] Hnd).
Qed.

Lemma lookup_filter_ne (key k : str) (d : Json.dict) :
  key ≠ k → Json.lookup key (filter (λ kv, kv.1 ≠ k) d) = Json.lookup key d.
Proof.
  intros Hne. induction d as [|[k' w] d IH]; [done|].
  rewrite filter_cons. simpl.
  destruct (decide (k' ≠ k)) as [Hk|Hk]; simpl.
  - by rewrite IH.
  - rewrite IH. apply dec_stable in Hk as ->. by rewrite decide_False.
Qed.

Lemma lookup_filter_eq (k : str) (d : Json.dict) :
  Json.lookup k (filter (λ kv, kv.1 ≠ k) d) = None.
Proof.
  induction d as [|[k' w] d IH]; [done|].
  rewrite filter_cons. simpl.
  destruct (decide (k' ≠ k)) as [Hk|Hk]; simpl; [|done].
  by rewrite decide_False.
Qed.

Lemma path_ok_startswith (out : str) (e : event) (p : str) :
  path_ok out e → path_of e = Some p → Substr.startswith out p = true.
Proof.
  assert (Hdir : ∀ problem_id,
            Substr.startswith out (Substr.join out (problem_folder problem_id)) = true).
  { intros problem_id. by apply join_relative. }
  assert (Hfile : ∀ (names : str → Prop) q,
            (∀ name, names name → Substr.startswith [Substr.slash] name = false) →
            file_in_problem_dir out q names → Substr.startswith out q = true).
  { intros names q Hrel (problem_id & name & -> & Hn).
    eapply startswith_trans; [apply Hdir|]. by apply join_relative, Hrel. }
  assert (Hasm : ∀ name, assembly_name name →
                         Substr.startswith [Substr.slash] name = false).
  { by intros name [->|[sample_id ->]]. }
  destruct e as [q|q|q text|q document|text]; simpl; intros He [= <-].
  - destruct He as [->|[problem_id ->]]; [apply startswith_refl|apply Hdir].
  - apply (Hfile _ _) in He; [done|]. intros name [Hn| ->]; [by apply Hasm|done].
  - by apply (Hfile _ _ Hasm).
  - apply (Hfile _ _) in He; [done|]. by intros name ->.
Qed.

Lemma ends_ok (fails : list event → event → bool) (out : str) (m : script unit)
    (ending : status) (Q : state → Prop) :
  triple (invariant out 0 0) m (λ _ s, invariant out 0 0 s ∧ Q s) (raised_ok out) →
  ending ≠ Crashed KeyError →
  stopped_ok out (ends m ending).1
  ∧ ((ends m ending).2 = Completed → invariant out 0 0 (ends m ending).1
                                     ∧ (ending = Completed → Q (ends m ending).1))
  ∧ (ends m ending).2 ≠ Crashed KeyError.
Proof.
  intros Hm Hend. specialize (Hm initial (initial_ok out)). unfold ends.
  destruct (m initial) as [s [[]|e]]; simpl.
  - destruct Hm as [Hs HQ]. split; [by apply (stopped out 0 0)|]. by auto.
  - destruct Hm as [He Hs]. split; [done|]. split; [done|]. congruence.
Qed.

(** Whatever the command line, the input and the environment. *)
Lemma main_ok (fails : list event → event → bool) (argv : list str)
    (file : str → input) :
  stopped_ok (output_dir argv) (main fails argv file).1
  ∧ ((main fails argv file).2 = Completed
     → invariant (output_dir argv) 0 0 (main fails argv file).1
       ∧ reported (main fails argv file).1)
  ∧ (main fails argv file).2 ≠ Crashed KeyError.
Proof.
  assert (Hprint : ∀ text ending,
            ending ≠ Completed → ending ≠ Crashed KeyError →
            let r := ends (perform fails (Print text)) ending in
            stopped_ok (output_dir argv) r.1
            ∧ (r.2 = Completed → invariant (output_dir argv) 0 0 r.1 ∧ reported r.1)
            ∧ r.2 ≠ Crashed KeyError).
  { intros text ending H1 H2.
    destruct (ends_ok fails (output_dir argv) (perform fails (Print text)) ending
                (λ _, True)) as (Ha & Hb & Hc); [|done|].
    - eapply triple_weaken; [apply print_ok|done|by intros|done].
    - simpl. split; [done|]. split; [|done]. intros Hd.
      unfold ends in Hd. destruct (perform _ _ _) as [s [[]|e]]; simpl in Hd; congruence. }
  unfold main.
  destruct argv as [|a0 [|json_file rest]].
  1,2: destruct (ends_ok fails (output_dir []) (usage fails) (Exited 1) (λ _, True))
         as (Ha & Hb & Hc);
       [repeat (eapply triple_step; [apply print_ok|]);
        eapply triple_weaken; [apply print_ok|done|by intros|done]|done|];
       (split; [exact Ha|]); (split; [|exact Hc]); intros Hd;
       unfold ends in Hd; destruct (usage _ _) as [s [[]|e]]; simpl in Hd; congruence.
  destruct (file json_file) as [| |data].
  - by apply Hprint.
  - by apply Hprint.
  - destruct (ends_ok fails (output_dir (a0 :: json_file :: rest))
                (_ ← perform fails (Print (py "Reading file: " ++ json_file));
                 _ ← extract fails data (output_dir (a0 :: json_file :: rest));
                 summary fails (output_dir (a0 :: json_file :: rest)))
                Completed reported) as (Ha & Hb & Hc); [|done|].
    + eapply triple_step; [apply print_ok|].
      eapply triple_step; [apply extract_ok|]. apply summary_ok.
    + split; [done|]. split; [|done]. intros Hd. destruct (Hb Hd) as [H1 H2]. auto.
Qed.

End main_facts.

Section valid_documents.

Import Py ExtractAssembly.

Local Arguments py : simpl never.

Variable fails : list event → event → bool.
Variable output_dir : str.

(** In this section no call to the operating system or to [print]
    raises. *)
Hypothesis Hcalm : ∀ done e, fails done e = false.

Lemma triple_perform_calm (P : state → Prop) (e : event) R :
  (∀ s e, P s → P (record e s)) → triple P (perform fails e) (λ _, P) R.
Proof. intros HP s Hs. unfold perform. rewrite Hcalm. by apply HP. Qed.

Lemma triple_write_text_calm (P : state → Prop) (path text : str) R :
  (∀ s e, P s → P (record e s)) →
  triple P (write_text fails path (Json.String text)) (λ _, P) R.
Proof.
  intros HP. unfold write_text.
  eapply triple_step; by apply triple_perform_calm.
Qed.

Lemma triple_for_pos {A B} (I : list A → B → state → Prop) (body : B → A → script B)
    (xs : list A) (acc : B) R :
  (∀ pre x acc, x ∈ xs → triple (I pre acc) (body acc x) (I (pre ++ [x])) R) →
  triple (I [] acc) (for_items body xs acc) (I xs) R.
Proof.
  intros Hb.
  assert (G : ∀ post pre acc, (∀ x, x ∈ post → x ∈ xs) →
                triple (I pre acc) (for_items body post acc) (I (pre ++ post)) R).
  { induction post as [|x post IH]; intros pre acc' Hsub; simpl.
    - apply triple_ret. intros s. by rewrite app_nil_r.
    - eapply triple_bind; [apply Hb, Hsub; left|].
      intros acc''. rewrite (cons_middle x pre post), (assoc_L (++)).
      apply IH. intros y Hy. apply Hsub. by right. }
  by apply (G xs []).
Qed.

Lemma process_sample_valid (problem_dir : str) (samples_data : Json.dict)
    (sample : str * Json.value) (t c : Z) :
  valid_sample sample = true →
  triple (λ s, total_problems s = t ∧ compiled_problems s = c)
    (process_sample fails problem_dir samples_data sample)
    (λ _ s, total_problems s = t ∧ compiled_problems s = c)
    (λ _ _, False).
Proof.
  destruct sample as [sample_id sample_data]. unfold valid_sample. simpl.
  destruct sample_data as [| | | | | |fields]; try done. intros Hv.
  unfold process_sample. cbv zeta.
  apply triple_lift; [|done]. intros ? _.
  apply triple_lift; [|done]. intros present Hp.
  destruct present; [|by apply triple_ret].
  simpl in Hp. injection Hp as Hp. apply bool_decide_eq_true in Hp as [asm Hasm].
  rewrite Hasm in Hv.
  apply triple_lift; [|by simpl; rewrite Hasm].
  intros asm'. simpl. rewrite Hasm. intros [= <-].
  destruct asm; try done.
  eapply triple_step; [by apply triple_write_text_calm|].
  eapply triple_step; [by apply triple_perform_calm|].
  eapply triple_step.
  { eapply triple_update
      with (P' := λ s, total_problems s = t ∧ compiled_problems s = c); [done|].
    intros s0 Hs. exact Hs. }
  by apply triple_ret.
Qed.

Lemma strip_code_fence_of_valid (text : Json.value) :
  valid_reference text = true →
  ∃ r, strip_code_fence_of text = Return (Json.String r).
Proof.
  destruct text as [| | | |s| |]; try done.
  unfold valid_reference, strip_code_fence_of.
  rewrite strip_code_fence_eq. unfold Substr.contains.
  destruct (Substr.startswith fence_open s).
  - rewrite orb_false_l. intros [i ->]%bool_decide_eq_true.
    rewrite !bind_Return. eauto.
  - intros _. rewrite !bind_Return. eauto.
Qed.

Lemma process_problem_valid (problem : str * Json.value) (t c : Z) :
  valid_problem problem = true →
  triple (λ s, total_problems s = t ∧ compiled_problems s = c)
    (process_problem fails output_dir problem)
    (λ _ s, total_problems s = t + 1
            ∧ compiled_problems s = c + (if compiled problem then 1 else 0))
    (λ _ _, False).
Proof.
  destruct problem as [problem_id problem_data]. unfold valid_problem, compiled. simpl.
  destruct problem_data as [| | | | | |fields]; try done. intros Hv.
  unfold process_problem. cbv zeta.
  eapply triple_step.
  { eapply triple_update
      with (P' := λ s, total_problems s = t + 1 ∧ compiled_problems s = c); [done|].
    intros s [<- <-]. done. }
  apply triple_lift; [|done]. intros failed [= <-].
  destruct (Json.eq_False _) eqn:Hc.
  2: { apply triple_ret. intros s [-> ->]. split; [done|lia]. }
  simpl in Hv. apply andb_true_iff in Hv as [Hsamples Hunopt].
  eapply triple_step.
  { eapply triple_update
      with (P' := λ s, total_problems s = t + 1 ∧ compiled_problems s = c + 1);
      [done|].
    intros s [<- <-]. done. }
  eapply triple_step; [by apply triple_perform_calm|].
  eapply triple_step; [by apply triple_perform_calm|].
  apply triple_lift; [|done]. intros present [= <-].
  eapply triple_bind
    with (Q' := λ _ s, total_problems s = t + 1 ∧ compiled_problems s = c + 1).
  { destruct (Json.lookup (py "samples") fields) as [samples|] eqn:Hs.
    - rewrite bool_decide_true by eauto.
      destruct samples as [| | | | | |samples]; try done.
      apply triple_lift; [|by simpl; rewrite Hs]. intros ?. simpl. rewrite Hs.
      intros [= <-].
      apply triple_lift; [|done]. intros ? [= <-].
      apply (triple_for (λ _ s, total_problems s = t + 1 ∧ compiled_problems s = c + 1)).
      intros acc x Hx. apply process_sample_valid.
      rewrite forallb_forall in Hsamples. apply Hsamples. by apply list_elem_of_In.
    - rewrite bool_decide_false by (by intros [? ?]). by apply triple_ret. }
  intros samples_data.
  apply triple_lift; [|done]. intros present [= <-].
  eapply triple_bind
    with (Q' := λ _ s, total_problems s = t + 1 ∧ compiled_problems s = c + 1).
  { destruct (Json.lookup unoptimized_assembly fields) as [text|] eqn:Hs.
    - rewrite bool_decide_true by eauto.
      apply triple_lift; [|by simpl; rewrite Hs]. intros ?. simpl. rewrite Hs.
      intros [= <-].
      destruct (strip_code_fence_of_valid text Hunopt) as [r Hr].
      apply triple_lift; [|by rewrite Hr]. intros ?. rewrite Hr. intros [= <-].
      eapply triple_step; [by apply triple_write_text_calm|].
      eapply triple_step; [by apply triple_perform_calm|].
      eapply triple_update; [done|]. intros s0 Hs0. exact Hs0.
    - rewrite bool_decide_false by (by intros [? ?]). by apply triple_ret. }
  intros _.
  apply triple_lift; [|done]. intros ? _.
  apply triple_lift; [|done]. intros ? _.
  apply triple_lift; [|done]. intros ? _.
  apply triple_lift; [|done]. intros ? _.
  eapply triple_step.
  { unfold write_json. eapply triple_step; by apply triple_perform_calm. }
  eapply triple_step; [by apply triple_perform_calm|].
  eapply triple_step.
  { eapply triple_update
      with (P' := λ s, total_problems s = t + 1 ∧ compiled_problems s = c + 1); [done|].
    intros s0 Hs0. exact Hs0. }
  by apply triple_perform_calm.
Qed.

Lemma process_group_valid (group : str * Json.value) (t c : Z) :
  valid_group group = true →
  triple (λ s, total_problems s = t ∧ compiled_problems s = c)
    (process_group fails output_dir group)
    (λ _ s, total_problems s = t + Z.of_nat (length (problems_in group))
            ∧ compiled_problems s = c + Z.of_nat (length (filter compiled (problems_in group))))
    (λ _ _, False).
Proof.
  destruct group as [key value]. unfold valid_group, problems_in. simpl.
  destruct value as [| | | | | |fields]; try done. intros Hv.
  unfold process_group.
  apply triple_lift; [|done]. intros present [= <-].
  destruct (Json.lookup (py "problems") fields) as [problems|] eqn:Hs.
  2: { rewrite bool_decide_false by (by intros [? ?]). apply triple_ret.
       intros s [-> ->]. simpl. lia. }
  rewrite bool_decide_true by eauto.
  destruct problems as [| | | | | |problems]; try done.
  apply triple_lift; [|by simpl; rewrite Hs]. intros ?. simpl. rewrite Hs.
  intros [= <-].
  apply triple_lift; [|done]. intros ? [= <-].
  eapply triple_weaken.
  - apply (triple_for_pos
             (λ pre _ s, total_problems s = t + Z.of_nat (length pre)
                         ∧ compiled_problems s = c + Z.of_nat (length (filter compiled pre)))).
    intros pre x _ Hx.
    eapply triple_weaken; [apply process_problem_valid| | |].
    + rewrite forallb_forall in Hv. apply Hv. by apply list_elem_of_In.
    + intros s Hs0. exact Hs0.
    + intros _ s [-> ->]. rewrite filter_app, !length_app, filter_cons, filter_nil.
      destruct (compiled x) eqn:Hx'; simpl; lia.
    + done.
  - intros s [H1 H2]. simpl. split; lia.
  - intros ? s Hs0. exact Hs0.
  - done.
Qed.

Lemma extract_valid (data : Json.value) :
  valid_document data = true →
  triple (λ s, total_problems s = 0 ∧ compiled_problems s = 0)
    (extract fails data output_dir)
    (λ _ s, total_problems s = Z.of_nat (length (problems_of data))
            ∧ compiled_problems s = Z.of_nat (length (filter compiled (problems_of data))))
    (λ _ _, False).
Proof.
  unfold valid_document, problems_of.
  destruct data as [| | | | | |groups]; try done. intros Hv.
  unfold extract.
  eapply triple_step; [by apply triple_perform_calm|].
  eapply triple_step; [by apply triple_perform_calm|].
  apply triple_lift; [|done]. intros ? [= <-].
  eapply triple_weaken.
  - apply (triple_for_pos
             (λ pre _ s,
                total_problems s = Z.of_nat (length (concat (problems_in <$> pre)))
                ∧ compiled_problems s
                  = Z.of_nat (length (filter compiled (concat (problems_in <$> pre)))))).
    intros pre x _ Hx.
    eapply triple_weaken; [apply process_group_valid| | |].
    + rewrite forallb_forall in Hv. apply Hv. by apply list_elem_of_In.
    + intros s Hs0. exact Hs0.
    + intros _ s [-> ->].
      rewrite fmap_app, concat_app, filter_app, !length_app. simpl.
      rewrite app_nil_r. lia.
    + done.
  - intros s [H1 H2]. simpl. split; lia.
  - intros ? s Hs0. exact Hs0.
  - done.
Qed.

(** The statistics leave the counters as they are. *)
Lemma summary_valid (P : state → Prop) :
  (∀ s e, P s → P (record e s)) →
  triple P (summary fails output_dir) (λ _, P) (λ _ _, False).
Proof.
  intros HP s0 Hs0. unfold summary.
  assert (Hall : ∀ m : script unit, triple P m (λ _, P) (λ _ _, False) →
                 match m s0 with (s', Return _) => P s' | (_, Throw _) => False end).
  { intros m Hm. specialize (Hm s0 Hs0). by destruct (m s0) as [s' [[]|e]]. }
  apply Hall.
  repeat (eapply triple_step; [by apply triple_perform_calm|]).
  by apply triple_perform_calm.
Qed.

End valid_documents.

(** ** Properties of the extraction script *)


(** X1.  A reference assembly wrapped in a markdown code block, that is
    the line [```assembly], the text and a closing [```], is unwrapped
    to exactly the text, whatever the text contains. *)
Theorem strip_code_fence_unwraps (body : str) :
  ExtractAssembly.strip_code_fence
    (ExtractAssembly.fence_open_line ++ body ++ ExtractAssembly.fence)
  = Py.Return body.
Proof.
  unfold ExtractAssembly.strip_code_fence.
  assert (Substr.startswith ExtractAssembly.fence_open
            (ExtractAssembly.fence_open_line ++ body ++ ExtractAssembly.fence) = true)
    as ->.
  { rewrite fence_open_line_eq, <- (assoc_L (++)). apply startswith_app. }
  rewrite split1_app. change (Py.item [[]; ?r] 1) with (Py.Return r).
  rewrite bind_Return, endswith_app, rsplit1_app by done. done.
Qed.

(** X2.  Removing the markers raises [IndexError], and nothing else,
    exactly when the text starts with [```assembly] but nowhere holds
    that marker followed at once by a newline. *)
Theorem strip_code_fence_raises (s : str) :
  (ExtractAssembly.strip_code_fence s = Py.Throw Py.IndexError
   ↔ Substr.startswith ExtractAssembly.fence_open s = true
     ∧ Substr.find ExtractAssembly.fence_open_line s = None)
  ∧ (∀ e, ExtractAssembly.strip_code_fence s = Py.Throw e → e = Py.IndexError).
Proof.
  rewrite strip_code_fence_eq.
  destruct (Substr.startswith ExtractAssembly.fence_open s);
    destruct (Substr.find ExtractAssembly.fence_open_line s);
    rewrite ?bind_Return, ?bind_Throw; split; try split; try done;
    try (by intros [? ?]); by intros e [= <-].
Qed.

(** X3.  What is left after the markers are removed is a contiguous
    part of the text, and the whole text when it neither starts with
    [```assembly] nor ends with [```]. *)
Theorem strip_code_fence_infix (s r : str) :
  ExtractAssembly.strip_code_fence s = Py.Return r →
  (∃ before after, s = before ++ r ++ after)
  ∧ (Substr.startswith ExtractAssembly.fence_open s = false →
     Substr.endswith ExtractAssembly.fence s = false → r = s).
Proof.
  rewrite strip_code_fence_eq.
  assert (H2 : ∀ s1 : str, ∃ after,
             s1 = (if Substr.endswith ExtractAssembly.fence s1
                   then match Substr.rfind ExtractAssembly.fence s1 with
                        | Some i => take i s1
                        | None => s1
                        end
                   else s1) ++ after).
  { intros s1.
    destruct (Substr.endswith ExtractAssembly.fence s1);
      [|by exists []; rewrite app_nil_r].
    destruct (Substr.rfind ExtractAssembly.fence s1) as [i|];
      [|by exists []; rewrite app_nil_r].
    exists (drop i s1). by rewrite take_drop. }
  destruct (Substr.startswith ExtractAssembly.fence_open s) eqn:E1.
  - destruct (Substr.find ExtractAssembly.fence_open_line s) as [i|]; [|done].
    rewrite bind_Return. intros [= <-]. split; [|done].
    change (length ExtractAssembly.fence_open_line) with 12%nat.
    destruct (H2 (drop (i + 12) s)) as [after Ha].
    exists (take (i + 12) s), after.
    by rewrite <- Ha, take_drop.
  - rewrite bind_Return. intros [= <-]. split.
    + destruct (H2 s) as [after Ha]. by exists [], after.
    + intros _ E2. by rewrite E2.
Qed.

Lemma strip_code_fence_infix_witness :
  (∃ before after,
     ExtractAssembly.fenced_text
     = before ++ (py "nop" ++ [Str.newline] ++ ExtractAssembly.ret_text) ++ after)
  ∧ (Substr.startswith ExtractAssembly.fence_open ExtractAssembly.fenced_text = false →
     Substr.endswith ExtractAssembly.fence ExtractAssembly.fenced_text = false →
     py "nop" ++ [Str.newline] ++ ExtractAssembly.ret_text = ExtractAssembly.fenced_text).
Proof.
  apply (strip_code_fence_infix ExtractAssembly.fenced_text
           (py "nop" ++ [Str.newline] ++ ExtractAssembly.ret_text)).
  reflexivity.
Defined.

(** X4.  However the script ends and whatever the operating system and
    the standard output do, its counters follow what it did:
    [files_generated] is the number of completed writes of a file or one
    less (one less only between a write and the increment that follows
    the [print] of the file name), no more problems are counted as
    compiled than were seen, and [compiled_problems] is the number of
    [samples.json] documents written or one more.  When the script
    completes, both counts are exact and the statistics printed at the
    end show them. *)
Theorem counters_agree_with_effects (fails : list ExtractAssembly.event →
                                             ExtractAssembly.event → bool)
    (argv : list str) (file : str → ExtractAssembly.input) :
  let s := (ExtractAssembly.main fails argv file).1 in
  ExtractAssembly.files_generated s ≤ ExtractAssembly.written s
    ≤ ExtractAssembly.files_generated s + 1
  ∧ ExtractAssembly.compiled_problems s ≤ ExtractAssembly.total_problems s
  ∧ ExtractAssembly.documents s ≤ ExtractAssembly.compiled_problems s
      ≤ ExtractAssembly.documents s + 1
  ∧ ((ExtractAssembly.main fails argv file).2 = ExtractAssembly.Completed
     → ExtractAssembly.files_generated s = ExtractAssembly.written s
       ∧ ExtractAssembly.compiled_problems s = ExtractAssembly.documents s
       ∧ ExtractAssembly.Print
           (py "Total files generated: "
            ++ ExtractAssembly.counter (ExtractAssembly.written s))
         ∈ ExtractAssembly.events s
       ∧ ExtractAssembly.Print
           (py "Successfully compiled problems: "
            ++ ExtractAssembly.counter (ExtractAssembly.documents s))
         ∈ ExtractAssembly.events s).
Proof.
  destruct (main_ok fails argv file) as ((p & u & Hp & Hu & H1 & H2 & H3 & _) & Hc & _).
  simpl. split; [lia|]. split; [lia|]. split; [lia|].
  intros Hd. destruct (Hc Hd) as [(H1' & _ & H3' & _) (_ & Hr2 & Hr3)].
  split; [lia|]. split; [lia|].
  replace (ExtractAssembly.written (ExtractAssembly.main fails argv file).1)
    with (ExtractAssembly.files_generated (ExtractAssembly.main fails argv file).1)
    by lia.
  replace (ExtractAssembly.documents (ExtractAssembly.main fails argv file).1)
    with (ExtractAssembly.compiled_problems (ExtractAssembly.main fails argv file).1)
    by lia.
  done.
Qed.

(** X5.  The path arguments of the script: every [os.makedirs] is given
    the output directory or [os.path.join(output_dir, "problem_<id>")],
    and every file is opened at [os.path.join] of the latter and
    [unoptimized.s], [samples.json] or [sample_<id>_generated.s].  As
    strings, all of them begin with the output directory. *)
Theorem paths_under_output_dir (fails : list ExtractAssembly.event →
                                        ExtractAssembly.event → bool)
    (argv : list str) (file : str → ExtractAssembly.input) :
  Forall (λ e, ExtractAssembly.path_ok (ExtractAssembly.output_dir argv) e
               ∧ ∀ p, ExtractAssembly.path_of e = Some p →
                      Substr.startswith (ExtractAssembly.output_dir argv) p = true)
    (ExtractAssembly.events (ExtractAssembly.main fails argv file).1).
Proof.
  destruct (main_ok fails argv file) as ((p & u & _ & _ & _ & _ & _ & Hev) & _).
  eapply Forall_impl; [exact Hev|]. intros e [He _]. split; [done|].
  intros q Hq. by apply (path_ok_startswith _ e).
Qed.

(** X6.  The script never ends in a [KeyError]: each subscript is
    preceded by a membership test on the same key. *)
Theorem never_key_error (fails : list ExtractAssembly.event →
                                 ExtractAssembly.event → bool)
    (argv : list str) (file : str → ExtractAssembly.input) :
  (ExtractAssembly.main fails argv file).2 ≠ ExtractAssembly.Crashed Py.KeyError.
Proof. by destruct (main_ok fails argv file) as (_ & _ & H). Qed.

(** X7.  Every [samples.json] that the script writes is an object with
    the seven fields of the source in their order, belongs to a problem
    whose [compilation_failed] equals [False], and none of its samples
    holds the assembly text under [generated_assembly]. *)
Theorem documents_without_assembly (fails : list ExtractAssembly.event →
                                            ExtractAssembly.event → bool)
    (argv : list str) (file : str → ExtractAssembly.input) :
  Forall (λ e, match e with
               | ExtractAssembly.WriteJson _ document =>
                   ExtractAssembly.document_ok document
               | _ => True
               end)
    (ExtractAssembly.events (ExtractAssembly.main fails argv file).1).
Proof.
  destruct (main_ok fails argv file) as ((p & u & _ & _ & _ & _ & _ & Hev) & _).
  eapply Forall_impl; [exact Hev|]. by intros e [_ He].
Qed.

(** X8.  A sample that carries its assembly as a string is split
    without loss.  The file [sample_<id>_generated.s] of the problem
    directory is opened, the string is written to it as it is, the file
    name is printed and [files_generated] grows by one; the turn stops
    at the first of the three calls that raises.  The entry recorded
    for [samples.json] has every other field of the sample with its
    value, has no [generated_assembly], and names the file under
    [generated_assembly_file]. *)
Theorem process_sample_splits (fails : list ExtractAssembly.event →
                                       ExtractAssembly.event → bool)
    (problem_dir sample_id asm : str)
    (fields samples_data : Json.dict) (s : ExtractAssembly.state) :
  NoDup (Json.keys fields) →
  Json.lookup ExtractAssembly.generated_assembly fields = Some (Json.String asm) →
  ∃ info,
    (let path := Substr.join problem_dir (ExtractAssembly.sample_file sample_id) in
     let opened := ExtractAssembly.record (ExtractAssembly.Open path) s in
     let written := ExtractAssembly.record (ExtractAssembly.WriteText path asm) opened in
     let printed :=
       ExtractAssembly.record
         (ExtractAssembly.Print (ExtractAssembly.generated_file_line path)) written in
     ExtractAssembly.process_sample fails problem_dir samples_data
       (sample_id, Json.Object fields) s
     = if fails (ExtractAssembly.events s) (ExtractAssembly.Open path)
       then (s, Py.Throw Py.EffectError)
       else if fails (ExtractAssembly.events opened)
                 (ExtractAssembly.WriteText path asm)
       then (opened, Py.Throw Py.EffectError)
       else if fails (ExtractAssembly.events written)
                 (ExtractAssembly.Print (ExtractAssembly.generated_file_line path))
       then (written, Py.Throw Py.EffectError)
       else (ExtractAssembly.State
               (ExtractAssembly.events printed)
               (ExtractAssembly.total_problems s)
               (ExtractAssembly.compiled_problems s)
               (ExtractAssembly.files_generated s + 1),
             Py.Return (Json.store sample_id (Json.Object info) samples_data)))
    ∧ Json.lookup ExtractAssembly.generated_assembly info = None
    ∧ Json.lookup ExtractAssembly.generated_assembly_file info
      = Some (Json.String (ExtractAssembly.sample_file sample_id))
    ∧ ∀ key, key ≠ ExtractAssembly.generated_assembly →
             key ≠ ExtractAssembly.generated_assembly_file →
             Json.lookup key info = Json.lookup key fields.
Proof.
  intros Hnd Hasm.
  exists (Json.store ExtractAssembly.generated_assembly_file
            (Json.String (ExtractAssembly.sample_file sample_id))
            (ExtractAssembly.copy_fields fields)).
  split; [|split; [|split]].
  - cbv zeta.
    unfold ExtractAssembly.process_sample, mbind, ExtractAssembly.script_mbind,
      ExtractAssembly.script_bind, ExtractAssembly.lift.
    cbn [Json.items Json.contains Json.getitem]. rewrite Hasm.
    rewrite bool_decide_true by eauto.
    unfold ExtractAssembly.write_text, mbind, ExtractAssembly.script_mbind,
      ExtractAssembly.script_bind, ExtractAssembly.perform.
    destruct (fails (ExtractAssembly.events s) _); [done|].
    destruct (fails (ExtractAssembly.events (ExtractAssembly.record _ s)) _); [done|].
    destruct (fails (ExtractAssembly.events (ExtractAssembly.record _ _)) _); [done|].
    cbn [ExtractAssembly.count_file]. cbv beta iota.
    cbn [ExtractAssembly.record ExtractAssembly.events ExtractAssembly.total_problems
      ExtractAssembly.compiled_problems ExtractAssembly.files_generated].
    unfold mret, ExtractAssembly.script_mret, ExtractAssembly.script_ret.
    by rewrite store_store.
  - rewrite lookup_store, decide_False by done. apply copy_fields_no_assembly.
  - by rewrite lookup_store, decide_True.
  - intros key H1 H2. rewrite lookup_store, decide_False by done.
    rewrite copy_fields_filter by done. by apply lookup_filter_ne.
Qed.

Lemma process_sample_splits_witness :
  ∃ info,
    ExtractAssembly.process_sample ExtractAssembly.calm (py "out/problem_7") []
      (py "0", Json.Object [(py "correct", Json.Bool true);
                            (py "generated_assembly", Json.String (py "ret"))])
      ExtractAssembly.initial
    = (ExtractAssembly.State
         [ExtractAssembly.Open (py "out/problem_7/sample_0_generated.s");
          ExtractAssembly.WriteText (py "out/problem_7/sample_0_generated.s") (py "ret");
          ExtractAssembly.Print
            (py "  Generated file: out/problem_7/sample_0_generated.s")]
         0 0 1,
       Py.Return [(py "0", Json.Object info)])
    ∧ Json.lookup (py "correct") info = Some (Json.Bool true).
Proof.
  destruct (process_sample_splits ExtractAssembly.calm (py "out/problem_7") (py "0")
              (py "ret")
              [(py "correct", Json.Bool true);
               (py "generated_assembly", Json.String (py "ret"))]
              [] ExtractAssembly.initial) as (info & H1 & H2 & H3 & H4).
  - refine (bool_decide_unpack _ _). vm_compute. exact I.
  - reflexivity.
  - exists info. split; [exact H1|].
    rewrite (H4 (py "correct")); [reflexivity| |];
      refine (bool_decide_unpack _ _); vm_compute; exact I.
Defined.

(** X9.  On a document of the expected shape (an object of groups, each
    an object whose [problems], if any, is an object of problem
    objects; for a problem that compiled, the samples are objects whose
    assembly is a string and the reference assembly is a string whose
    opening marker, if any, is followed by a newline), and in an
    environment in which no call to the operating system or to [print]
    raises, the script runs to completion, [total_problems] is the
    number of problems of the document and [compiled_problems] the
    number of those whose [compilation_failed] equals [False]. *)
Theorem valid_document_completes (fails : list ExtractAssembly.event →
                                          ExtractAssembly.event → bool)
    (argv : list str)
    (file : str → ExtractAssembly.input) (json_file : str) (data : Json.value) :
  (∀ done e, fails done e = false) →
  argv !! 1%nat = Some json_file →
  file json_file = ExtractAssembly.Document data →
  ExtractAssembly.valid_document data = true →
  (ExtractAssembly.main fails argv file).2 = ExtractAssembly.Completed
  ∧ ExtractAssembly.total_problems (ExtractAssembly.main fails argv file).1
    = Z.of_nat (length (ExtractAssembly.problems_of data))
  ∧ ExtractAssembly.compiled_problems (ExtractAssembly.main fails argv file).1
    = Z.of_nat (length (filter ExtractAssembly.compiled
                          (ExtractAssembly.problems_of data))).
Proof.
  intros Hcalm Hargv Hfile Hvalid.
  destruct argv as [|a0 [|json_file' rest]]; try done.
  injection Hargv as ->.
  unfold ExtractAssembly.main. rewrite Hfile. unfold ExtractAssembly.ends.
  set (out := ExtractAssembly.output_dir (a0 :: json_file :: rest)).
  set (P := λ s, ExtractAssembly.total_problems s = 0
                 ∧ ExtractAssembly.compiled_problems s = 0).
  set (Q := λ s, ExtractAssembly.total_problems s
                 = Z.of_nat (length (ExtractAssembly.problems_of data))
                 ∧ ExtractAssembly.compiled_problems s
                   = Z.of_nat (length (filter ExtractAssembly.compiled
                                         (ExtractAssembly.problems_of data)))).
  set (m := (_ ← ExtractAssembly.perform fails
                   (ExtractAssembly.Print (py "Reading file: " ++ json_file));
             _ ← ExtractAssembly.extract fails data out;
             ExtractAssembly.summary fails out) : ExtractAssembly.script unit).
  assert (H : ExtractAssembly.triple P m (λ _, Q) (λ _ _, False)).
  { eapply triple_step; [by apply (triple_perform_calm fails Hcalm P)|].
    eapply triple_step; [by apply extract_valid|].
    by apply summary_valid. }
  specialize (H ExtractAssembly.initial). ospecialize (H _); [done|].
  destruct (m ExtractAssembly.initial) as [s [[]|e]]; [|done].
  simpl. split; [done|]. exact H.
Qed.

Lemma valid_document_completes_witness :
  (ExtractAssembly.main ExtractAssembly.calm ExtractAssembly.command_line
     ExtractAssembly.dump_file).2
  = ExtractAssembly.Completed
  ∧ ExtractAssembly.total_problems
      (ExtractAssembly.main ExtractAssembly.calm ExtractAssembly.command_line
         ExtractAssembly.dump_file).1
    = Z.of_nat (length (ExtractAssembly.problems_of ExtractAssembly.dump))
  ∧ ExtractAssembly.compiled_problems
      (ExtractAssembly.main ExtractAssembly.calm ExtractAssembly.command_line
         ExtractAssembly.dump_file).1
    = Z.of_nat (length (filter ExtractAssembly.compiled
                          (ExtractAssembly.problems_of ExtractAssembly.dump))).
Proof.
  apply (valid_document_completes ExtractAssembly.calm ExtractAssembly.command_line
           ExtractAssembly.dump_file (py "dump.json") ExtractAssembly.dump);
    reflexivity.
Defined.

(** ** Facts about the batch driver *)

Section update_facts.

Import Py.

Local Arguments py : simpl never.

Lemma update_sample_object (sample_key : str) (similarity : Json.value)
    (d ss sample : Json.dict) :
  Json.lookup (py "samples") d = Some (Json.Object ss) →
  Json.lookup sample_key ss = Some (Json.Object sample) →
  update_sample sample_key similarity (Json.Object d)
  = Return
      (Json.Object
         (Json.store (py "samples")
            (Json.Object
               (Json.store sample_key
                  (Json.Object (Json.store (py "similarity") similarity sample)) ss))
            d),
       default (Json.Bool false) (Json.lookup (py "correct") sample)).
Proof.
  intros Hs Hk. unfold update_sample.
  repeat (rewrite ?bind_Return; cbn [Json.contains Json.getitem Json.setitem];
          rewrite ?Hs, ?Hk; rewrite ?bool_decide_true by eauto).
  unfold correct_flag. cbn [Json.get].
  rewrite lookup_store, decide_True by done. cbn [default from_option id]. rewrite bind_Return.
  cbn [Json.get]. rewrite lookup_store, decide_True by done.
  cbn [default from_option id]. rewrite bind_Return. cbn [Json.get].
  rewrite lookup_store, decide_False by done. by rewrite bind_Return.
Qed.

(** Without the sample, nothing is changed. *)
Lemma update_sample_cases (sample_key : str) (similarity : Json.value)
    (data data' correct : Json.value) :
  update_sample sample_key similarity data = Return (data', correct) →
  (data' = data ∧ correct = Json.Bool false)
  ∨ ∃ d ss sample,
      data = Json.Object d
      ∧ Json.lookup (py "samples") d = Some (Json.Object ss)
      ∧ Json.lookup sample_key ss = Some (Json.Object sample).
Proof.
  unfold update_sample.
  destruct (Json.contains (py "samples") data) as [[]|] eqn:H1;
    rewrite ?bind_Return, ?bind_Throw; [| |done].
  2: { intros [= <- <-]. by left. }
  destruct (Json.getitem (py "samples") data) as [samples|] eqn:H2;
    rewrite ?bind_Return, ?bind_Throw; [|done].
  destruct (Json.contains sample_key samples) as [[]|] eqn:H3;
    rewrite ?bind_Return, ?bind_Throw; [| |done].
  2: { intros [= <- <-]. by left. }
  destruct (Json.getitem sample_key samples) as [sample|] eqn:H4;
    rewrite ?bind_Return, ?bind_Throw; [|done].
  destruct (Json.setitem (py "similarity") similarity sample) as [sample'|] eqn:H5;
    rewrite ?bind_Return, ?bind_Throw; [|done].
  intros _. right.
  destruct data as [| | | | | |d]; try done.
  destruct samples as [| | | | | |ss]; try done.
  destruct sample as [| | | | | |sample]; try done.
  exists d, ss, sample. split; [done|].
  cbn [Json.getitem] in H2, H4.
  destruct (Json.lookup (py "samples") d) as [v|]; [|done].
  destruct (Json.lookup sample_key ss) as [w|]; [|done].
  by injection H2 as ->; injection H4 as ->.
Qed.

Lemma correct_flag_object (sample_key : str) (d ss sample : Json.dict) :
  Json.lookup (py "samples") d = Some (Json.Object ss) →
  Json.lookup sample_key ss = Some (Json.Object sample) →
  correct_flag sample_key (Json.Object d)
  = Return (default (Json.Bool false) (Json.lookup (py "correct") sample)).
Proof.
  intros Hs Hk. unfold correct_flag. cbn [Json.get].
  rewrite Hs. cbn [default from_option id]. rewrite bind_Return. cbn [Json.get].
  rewrite Hk. cbn [default from_option id]. by rewrite bind_Return.
Qed.

(** The flag that the read-only branch finds. *)
Lemma correct_flag_cases (sample_key : str) (data correct : Json.value) :
  correct_flag sample_key data = Return correct →
  correct = Json.Bool false
  ∨ ∃ d ss sample,
      data = Json.Object d
      ∧ Json.lookup (py "samples") d = Some (Json.Object ss)
      ∧ Json.lookup sample_key ss = Some (Json.Object sample).
Proof.
  unfold correct_flag.
  destruct data as [| | | | | |d]; try done. cbn [Json.get]. rewrite bind_Return.
  destruct (Json.lookup (py "samples") d) as [samples|] eqn:H1; cbn [default from_option id].
  2: { cbn [Json.get Json.lookup default from_option id]. rewrite bind_Return.
       cbn [Json.get Json.lookup default from_option id]. intros [= <-]. by left. }
  destruct samples as [| | | | | |ss]; try done. cbn [Json.get]. rewrite bind_Return.
  destruct (Json.lookup sample_key ss) as [sample|] eqn:H2; cbn [default from_option id].
  2: { cbn [Json.get Json.lookup default from_option id]. intros [= <-]. by left. }
  destruct sample as [| | | | | |sample]; try done.
  intros _. right. by exists d, ss, sample.
Qed.

End update_facts.

Section batch_facts.

Import Py.

Local Arguments py : simpl never.

Context {path : Type}.
Context (Path : str → path) (child : path → str → path) (path_str : path → str).
Context (iterdir : path → res (list str)).
Context (json_load : list str → option Json.value).
Context (json_dump : Json.value → list str).
Context (writable : str → bool).

Lemma str_le_refl (a : str) : str_le a a = true.
Proof.
  induction a as [|x a IH]; simpl; [done|].
  rewrite N.eqb_refl, IH. by rewrite orb_true_r.
Qed.

Lemma str_le_trans (a b c : str) :
  str_le a b = true → str_le b c = true → str_le a c = true.
Proof.
  revert b c. induction a as [|x a IH]; intros [|y b] [|z c]; simpl; try done.
  rewrite !orb_true_iff, !andb_true_iff, !N.ltb_lt, !N.eqb_eq.
  intros [H1|[-> H1]] [H2|[-> H2]]; try (left; lia); try (by left).
  right. split; [done|]. by apply (IH b).
Qed.

Lemma str_le_total (a b : str) : str_le a b = true ∨ str_le b a = true.
Proof.
  revert b. induction a as [|x a IH]; intros [|y b]; simpl; auto.
  rewrite !orb_true_iff, !andb_true_iff, !N.ltb_lt, !N.eqb_eq.
  destruct (N.lt_trichotomy x y) as [?|[->|?]]; auto.
  destruct (IH b); auto.
Qed.

#[global] Instance str_le_transitive : Transitive (λ a b : str, str_le a b).
Proof.
  intros a b c H1 H2. apply Is_true_true. apply Is_true_true in H1, H2.
  by apply (str_le_trans a b c).
Qed.

#[global] Instance str_le_is_total : Total (λ a b : str, str_le a b).
Proof.
  intros a b. destruct (str_le_total a b) as [H|H]; [left|right]; by apply Is_true_true.
Qed.

Lemma StronglySorted_sublist {A} (R : relation A) (l1 l2 : list A) :
  StronglySorted R l2 → l1 `sublist_of` l2 → StronglySorted R l1.
Proof.
  intros Hs Hsub. induction Hsub as [|x l1 l2 Hsub IH|x l1 l2 Hsub IH].
  - constructor.
  - apply StronglySorted_inv in Hs as [Hs Hx]. constructor; [by apply IH|].
    rewrite Forall_forall in Hx |- *. intros y Hy. apply Hx.
    by eapply elem_of_sublist.
  - apply StronglySorted_inv in Hs as [Hs Hx]. by apply IH.
Qed.

Lemma calculate_similarity_agree (fs1 fs2 : filesystem) (p1 p2 : str) :
  fs1 p1 = fs2 p1 → fs1 p2 = fs2 p2 →
  calculate_similarity fs1 p1 p2 = calculate_similarity fs2 p1 p2.
Proof.
  intros H1 H2. unfold calculate_similarity, open_readlines. by rewrite H1, H2.
Qed.

(** The flag is the same whether the document is updated or only read. *)
Lemma flag_agreement (sample_key : str) (similarity data : Json.value) :
  match update_sample sample_key similarity data with
  | Return (_, correct) => correct
  | Throw _ => Json.Bool false
  end
  = match correct_flag sample_key data with
    | Return correct => correct
    | Throw _ => Json.Bool false
    end.
Proof.
  destruct (update_sample sample_key similarity data) as [[data' c]|e] eqn:Hu;
    destruct (correct_flag sample_key data) as [c2|e2] eqn:Hc; [| | |done].
  - destruct (correct_flag_cases _ _ _ Hc) as [->|(d & ss & sample & -> & Hs & Hk)].
    + destruct (update_sample_cases _ _ _ _ _ Hu)
        as [[_ ->]|(d & ss & sample & -> & Hs & Hk)]; [done|].
      rewrite (correct_flag_object _ _ _ _ Hs Hk) in Hc.
      rewrite (update_sample_object _ _ _ _ _ Hs Hk) in Hu. congruence.
    + rewrite (correct_flag_object _ _ _ _ Hs Hk) in Hc.
      rewrite (update_sample_object _ _ _ _ _ Hs Hk) in Hu. congruence.
  - destruct (update_sample_cases _ _ _ _ _ Hu)
      as [[_ ->]|(d & ss & sample & -> & Hs & Hk)]; [done|].
    by rewrite (correct_flag_object _ _ _ _ Hs Hk) in Hc.
  - destruct (correct_flag_cases _ _ _ Hc) as [->|(d & ss & sample & -> & Hs & Hk)];
      [done|].
    by rewrite (update_sample_object _ _ _ _ _ Hs Hk) in Hu.
Qed.

Lemma update_json_file_flag (fs : filesystem) (p sample_key : str)
    (similarity : SimilarityResult) :
  (update_json_file json_load json_dump writable fs p sample_key similarity).2
  = read_json_file json_load fs p sample_key.
Proof.
  unfold update_json_file, read_json_file.
  destruct (fs p) as [text|]; [|done].
  destruct (json_load text) as [data|]; [|done].
  rewrite <- (flag_agreement sample_key (similarity_json similarity) data).
  by destruct (update_sample _ _ data) as [[data' c]|e].
Qed.

(** The file system after the update: unchanged, or the document
    written to the path. *)
Lemma update_json_file_frame (fs : filesystem) (p sample_key : str)
    (similarity : SimilarityResult) :
  (update_json_file json_load json_dump writable fs p sample_key similarity).1 = fs
  ∨ writable p = true
    ∧ ∃ data, (update_json_file json_load json_dump writable fs p sample_key
                 similarity).1
              = write_lines fs p (json_dump data).
Proof.
  unfold update_json_file.
  destruct (fs p) as [text|]; [|by left].
  destruct (json_load text) as [data|]; [|by left].
  destruct (update_sample _ _ data) as [[data' c]|e]; [|by left].
  destruct (writable p) eqn:Hw; [|by left].
  right. split; [done|]. by exists data'.
Qed.

End batch_facts.

Section loop_facts.

Import Py.

Local Arguments py : simpl never.

Context {path : Type}.
Context (child : path → str → path) (path_str : path → str).
Context (json_load : list str → option Json.value).
Context (json_dump : Json.value → list str).
Context (writable : str → bool).
Context (base_path : path).
Context (generated_file unoptimized_file samples_json sample_key : str).

Local Abbreviation step fs update_json name :=
  (process_dir child path_str json_load json_dump writable fs base_path
     generated_file unoptimized_file samples_json sample_key update_json name).

Local Abbreviation loop fs update_json dirs results :=
  (process_dirs child path_str json_load json_dump writable fs base_path
     generated_file unoptimized_file samples_json sample_key update_json dirs results).

Local Abbreviation gen_path name := (path_str (child (child base_path name) generated_file)).
Local Abbreviation unopt_path name :=
  (path_str (child (child base_path name) unoptimized_file)).
Local Abbreviation json_path name := (path_str (child (child base_path name) samples_json)).

Local Abbreviation paths name :=
  (dir_paths child path_str base_path generated_file unoptimized_file samples_json name).

(** What one turn appends, in terms of the file system it starts from:
    it does not depend on [update_json]. *)
Lemma process_dir_result (fs : filesystem) (update_json : bool) (name : str) :
  (step fs update_json name).2
  = if negb (path_exists fs (gen_path name)) || negb (path_exists fs (unopt_path name))
    then Ok None
    else
      similarity ← calculate_similarity fs (gen_path name) (unopt_path name);
      Ok (Some {| problem_id := name;
                  similarity := similarity;
                  correct := if path_exists fs (json_path name)
                             then read_json_file json_load fs (json_path name) sample_key
                             else Json.Bool false |}).
Proof.
  unfold process_dir. cbv zeta.
  destruct (negb _ || negb _); [done|].
  destruct (calculate_similarity fs _ _) as [sim| |]; [|done..].
  cbn [mbind res_mbind res_bind].
  destruct (path_exists fs (json_path name)); cbn [andb].
  - destruct update_json.
    + rewrite <- (update_json_file_flag json_load json_dump writable fs
                    (json_path name) sample_key sim).
      by destruct (update_json_file _ _ _ _ _ _ _).
    + done.
  - done.
Qed.

Lemma process_dir_frame (fs : filesystem) (update_json : bool) (name : str) :
  (step fs update_json name).1 = fs
  ∨ update_json = true ∧ writable (json_path name) = true
    ∧ path_exists fs (gen_path name) = true
    ∧ path_exists fs (unopt_path name) = true
    ∧ ∃ data, (step fs update_json name).1
              = write_lines fs (json_path name) (json_dump data).
Proof.
  unfold process_dir. cbv zeta.
  destruct (path_exists fs (gen_path name)); [|by left].
  destruct (path_exists fs (unopt_path name)); [|by left].
  cbn [negb orb].
  destruct (calculate_similarity fs _ _) as [sim| |]; [|by left..].
  destruct (path_exists fs (json_path name)); cbn [andb]; [|by left].
  destruct update_json; [|by left].
  destruct (update_json_file_frame json_load json_dump writable fs (json_path name)
              sample_key sim) as [H|(Hw & data & H)].
  - left. by destruct (update_json_file _ _ _ _ _ _ _).
  - right. repeat split; try done. exists data.
    by destruct (update_json_file _ _ _ _ _ _ _).
Qed.

Lemma process_dir_agree (fs1 fs2 : filesystem) (update_json : bool) (name : str) :
  (∀ p, p ∈ paths name → fs1 p = fs2 p) →
  (step fs1 update_json name).2 = (step fs2 update_json name).2.
Proof.
  intros H. rewrite !process_dir_result.
  assert (H1 : fs1 (gen_path name) = fs2 (gen_path name)).
  { apply H. apply list_elem_of_here. }
  assert (H2 : fs1 (unopt_path name) = fs2 (unopt_path name)).
  { apply H. apply list_elem_of_further, list_elem_of_here. }
  assert (H3 : fs1 (json_path name) = fs2 (json_path name)).
  { apply H. do 2 apply list_elem_of_further. apply list_elem_of_here. }
  unfold path_exists, read_json_file. rewrite H1, H2, H3.
  by rewrite (calculate_similarity_agree fs1 fs2) by done.
Qed.

(** The loop appends to [results] what the turns give. *)
Lemma process_dirs_app (fs : filesystem) (update_json : bool) (dirs : list str)
    (results : list problem_result) :
  (loop fs update_json dirs results).2
  = rs ← (loop fs update_json dirs []).2; Ok (results ++ rs).
Proof.
  revert fs results. induction dirs as [|name dirs IH]; intros fs results; simpl.
  - by rewrite app_nil_r.
  - destruct (step fs update_json name) as [fs' [[r|]| |]]; [| |done..].
    + rewrite (IH fs' (results ++ [r])), (IH fs' [r]).
      destruct (loop fs' update_json dirs []).2; [|done..].
      cbn [mbind res_mbind res_bind]. by rewrite <- (assoc_L (++)).
    + apply IH.
Qed.

(** When the paths of the directories are pairwise distinct, every
    turn sees the files of its directory as they were at the start. *)
Lemma process_dirs_independent (fs0 fs : filesystem) (update_json : bool)
    (dirs : list str) :
  NoDup (dirs ≫= λ name, paths name) →
  (∀ name p, name ∈ dirs → p ∈ paths name → fs p = fs0 p) →
  (loop fs update_json dirs []).2
  = collect (λ name, (step fs0 false name).2) dirs.
Proof.
  revert fs. induction dirs as [|name dirs IH]; intros fs Hnd Hfs; [done|].
  cbn [process_dirs collect].
  assert (Hstep : (step fs update_json name).2 = (step fs0 false name).2).
  { rewrite (process_dir_result fs update_json), <- (process_dir_result fs false).
    apply process_dir_agree. intros p Hp. apply (Hfs name); [left|done]. }
  rewrite <- Hstep.
  cbn [mbind list_bind] in Hnd. apply NoDup_app in Hnd as (Hnd1 & Hnd2 & Hnd3).
  assert (Hrest : ∀ name' p, name' ∈ dirs → p ∈ paths name' →
                   (step fs update_json name).1 p = fs0 p).
  { intros name' p Hn Hp.
    destruct (process_dir_frame fs update_json name)
      as [->|(_ & _ & _ & _ & data & ->)].
    - apply (Hfs name'); [by right|done].
    - unfold write_lines. destruct (decide (p = json_path name)) as [->|Hne].
      + exfalso. apply (Hnd2 (json_path name)).
        * do 2 apply list_elem_of_further. apply list_elem_of_here.
        * apply list_elem_of_bind. by exists name'.
      + apply (Hfs name'); [by right|done]. }
  destruct (step fs update_json name) as [fs' [[r|]| |]]; simpl in *; [| |done..].
  - rewrite process_dirs_app, (IH fs' Hnd3 Hrest).
    by destruct (collect _ dirs).
  - rewrite (IH fs' Hnd3 Hrest). by destruct (collect _ dirs).
Qed.

(** With both files present, the scorer returns the score of their
    texts or raises what reading one of them raises. *)
Lemma calculate_similarity_present (fs : filesystem) (p1 p2 : str) :
  path_exists fs p1 = true → path_exists fs p2 = true →
  (∃ l1 l2 r, fs p1 = Lines l1 ∧ fs p2 = Lines l2
              ∧ calculate_similarity fs p1 p2 = Ok r
              ∧ score l1 l2 = Ok r ∧ in_unit_interval r)
  ∨ (∃ e, e ≠ FileNotFoundError ∧ calculate_similarity fs p1 p2 = Raise e
          ∧ (fs p1 = Unreadable e ∨ fs p2 = Unreadable e)).
Proof.
  unfold path_exists. intros H1 H2.
  destruct (fs p1) as [l1|e1] eqn:E1.
  - destruct (fs p2) as [l2|e2] eqn:E2.
    + left. destruct (score_total l1 l2) as (lr & ir & _ & _ & _ & _ & Hs).
      exists l1, l2. eexists. split; [done|]. split; [done|].
      rewrite (calculate_similarity_readable fs p1 p2 l1 l2 E1 E2).
      split; [exact Hs|]. split; [exact Hs|]. by eapply score_in_unit_interval.
    + right. exists e2. split; [by intros ->|].
      split; [|by right].
      unfold calculate_similarity, open_readlines. rewrite E1, E2.
      by destruct e2.
  - right. exists e1. split; [by intros ->|].
    split; [|by left].
    unfold calculate_similarity, open_readlines. rewrite E1.
    by destruct e1.
Qed.

Lemma process_dir_cases (fs : filesystem) (update_json : bool) (name : str) :
  (step fs update_json name = (fs, Ok None)
   ∧ (path_exists fs (gen_path name) = false
      ∨ path_exists fs (unopt_path name) = false))
  ∨ (∃ fs' r l1 l2,
       step fs update_json name = (fs', Ok (Some r))
       ∧ problem_id r = name
       ∧ fs (gen_path name) = Lines l1 ∧ fs (unopt_path name) = Lines l2
       ∧ score l1 l2 = Ok (similarity r)
       ∧ in_unit_interval (similarity r))
  ∨ (∃ e, step fs update_json name = (fs, Raise e)
          ∧ e ≠ FileNotFoundError
          ∧ (fs (gen_path name) = Unreadable e ∨ fs (unopt_path name) = Unreadable e)).
Proof.
  unfold process_dir. cbv zeta.
  destruct (path_exists fs (gen_path name)) eqn:H1; [|left; by auto].
  destruct (path_exists fs (unopt_path name)) eqn:H2; [|left; by auto].
  cbn [negb orb]. right.
  destruct (calculate_similarity_present fs _ _ H1 H2)
    as [(l1 & l2 & r & E1 & E2 & -> & Hs & Hu)|(e & He & -> & Hr)].
  - left.
    destruct (if path_exists fs (json_path name) && update_json
              then update_json_file json_load json_dump writable fs
                     (json_path name) sample_key r
              else if path_exists fs (json_path name)
                   then (fs, read_json_file json_load fs (json_path name) sample_key)
                   else (fs, Json.Bool false)) as [fs' c].
    by eexists fs', _, l1, l2.
  - right. by exists e.
Qed.

Lemma process_dirs_frame (fs : filesystem) (update_json : bool) (dirs : list str)
    (results : list problem_result) (p : str) :
  (loop fs update_json dirs results).1 p = fs p
  ∨ update_json = true ∧ writable p = true
    ∧ ∃ name data, name ∈ dirs ∧ p = json_path name
                   ∧ (loop fs update_json dirs results).1 p = Lines (json_dump data).
Proof.
  revert fs results. induction dirs as [|name dirs IH]; intros fs results; [by left|].
  cbn [process_dirs].
  pose proof (process_dir_frame fs update_json name) as Hf.
  pose proof (process_dir_cases fs update_json name) as Hc.
  destruct (step fs update_json name) as [fs' [[r|]| |]]; simpl in Hf.
  - destruct (IH fs' (results ++ [r])) as [H|(Hu & Hw & name' & data & Hn & -> & H)].
    + destruct Hf as [->|(Hu & Hw & _ & _ & data & ->)]; [by left|].
      destruct (decide (p = json_path name)) as [->|Hne].
      * right. split; [done|]. split; [done|]. exists name, data.
        split; [left|]. split; [done|].
        rewrite H. unfold write_lines. by rewrite decide_True.
      * left. rewrite H. unfold write_lines. by rewrite decide_False.
    + right. split; [done|]. split; [done|]. exists name', data.
      split; [by right|]. done.
  - destruct (IH fs' results) as [H|(Hu & Hw & name' & data & Hn & -> & H)].
    + destruct Hf as [->|(Hu & Hw & _ & _ & data & ->)]; [by left|].
      destruct (decide (p = json_path name)) as [->|Hne].
      * right. split; [done|]. split; [done|]. exists name, data.
        split; [left|]. split; [done|].
        rewrite H. unfold write_lines. by rewrite decide_True.
      * left. rewrite H. unfold write_lines. by rewrite decide_False.
    + right. split; [done|]. split; [done|]. exists name', data.
      split; [by right|]. done.
  - destruct Hc as [[[= ?] _]|[(? & ? & ? & ? & [= ? ?] & _)|(e' & [= <- <-] & _)]].
    by left.
  - destruct Hc as [[[= ?] _]|[(? & ? & ? & ? & [= ? ?] & _)|(e' & [= ? ?] & _)]].
Qed.

(** The entries come in the order of the directories and carry their
    names; their ratios lie in the unit interval. *)
Lemma process_dirs_results (fs fs' : filesystem) (update_json : bool) (dirs : list str)
    (results rs : list problem_result) :
  loop fs update_json dirs results = (fs', Ok rs) →
  ∃ kept, rs = results ++ kept
          ∧ (problem_id <$> kept) `sublist_of` dirs
          ∧ Forall (λ r, in_unit_interval (similarity r)) kept.
Proof.
  revert fs results. induction dirs as [|name dirs IH]; intros fs results.
  - intros [= <- <-]. exists []. by rewrite app_nil_r.
  - cbn [process_dirs].
    destruct (process_dir_cases fs update_json name)
      as [[-> _]|[(fs1 & r & l1 & l2 & -> & Hid & _ & _ & _ & Hu)|(e & -> & _)]].
    + intros (kept & -> & Hsub & Hall)%IH. exists kept.
      split; [done|]. split; [by apply sublist_cons|done].
    + intros (kept & -> & Hsub & Hall)%IH. exists (r :: kept).
      split; [by rewrite <- (assoc_L (++))|].
      split; [|by constructor].
      rewrite fmap_cons, Hid. by apply sublist_skip.
    + done.
Qed.

(** An exception of the loop is the one that reading an assembly file
    of some directory raises; the loop always ends. *)
Lemma process_dirs_errors (fs : filesystem) (update_json : bool) (dirs : list str)
    (results : list problem_result) :
  (loop fs update_json dirs results).2 ≠ Diverge
  ∧ ∀ e, (loop fs update_json dirs results).2 = Raise e →
         e ≠ FileNotFoundError
         ∧ ∃ name, name ∈ dirs
                   ∧ ((loop fs update_json dirs results).1 (gen_path name)
                      = Unreadable e
                      ∨ (loop fs update_json dirs results).1 (unopt_path name)
                        = Unreadable e).
Proof.
  revert fs results. induction dirs as [|name dirs IH]; intros fs results; [done|].
  cbn [process_dirs].
  destruct (process_dir_cases fs update_json name)
    as [[-> _]|[(fs1 & r & l1 & l2 & -> & _)|(e & -> & He & Hr)]].
  - destruct (IH fs results) as [H1 H2]. split; [done|].
    intros e (He & name' & Hn & Hr)%H2. split; [done|]. exists name'.
    split; [by right|done].
  - destruct (IH fs1 (results ++ [r])) as [H1 H2]. split; [done|].
    intros e (He & name' & Hn & Hr)%H2. split; [done|]. exists name'.
    split; [by right|done].
  - split; [done|]. intros e' [= <-]. split; [done|]. exists name.
    split; [left|done].
Qed.

End loop_facts.

(** ** Properties of the batch driver *)

(** X10.  The update of the loaded document either leaves it as it is,
    with the flag [False], or finds an object under [samples] and in it
    an object under the sample key; then every key of the document, of
    [samples] and of the sample keeps its place and its value, except
    that the sample has the new [similarity] (last, when it had none),
    and the flag is the [correct] of the sample, [False] by default. *)
Theorem update_preserves_other_fields (sample_key : str)
    (similarity data data' flag : Json.value) :
  update_sample sample_key similarity data = Py.Return (data', flag) →
  (data' = data ∧ flag = Json.Bool false)
  ∨ ∃ d ss sample d' ss' sample',
      data = Json.Object d ∧ data' = Json.Object d'
      ∧ Json.lookup (py "samples") d = Some (Json.Object ss)
      ∧ Json.lookup sample_key ss = Some (Json.Object sample)
      ∧ Json.keys d' = Json.keys d
      ∧ (∀ k, k ≠ py "samples" → Json.lookup k d' = Json.lookup k d)
      ∧ Json.lookup (py "samples") d' = Some (Json.Object ss')
      ∧ Json.keys ss' = Json.keys ss
      ∧ (∀ k, k ≠ sample_key → Json.lookup k ss' = Json.lookup k ss)
      ∧ Json.lookup sample_key ss' = Some (Json.Object sample')
      ∧ (∀ k, k ≠ py "similarity" → Json.lookup k sample' = Json.lookup k sample)
      ∧ Json.lookup (py "similarity") sample' = Some similarity
      ∧ (Json.keys sample' = Json.keys sample
         ∨ Json.keys sample' = Json.keys sample ++ [py "similarity"])
      ∧ flag = default (Json.Bool false) (Json.lookup (py "correct") sample).
Proof.
  intros Hu.
  destruct (update_sample_cases _ _ _ _ _ Hu) as [?|(d & ss & sample & -> & Hs & Hk)];
    [by left|].
  right. rewrite (update_sample_object _ _ _ _ _ Hs Hk) in Hu.
  injection Hu as <- <-.
  eexists d, ss, sample, _, _, _.
  split; [done|]. split; [done|]. split; [done|]. split; [done|].
  assert (Hin : ∀ k (m : Json.dict) v, Json.lookup k m = Some v → k ∈ Json.keys m).
  { intros k m v. induction m as [|[k' w] m IH]; simpl; [done|].
    destruct (decide (k' = k)) as [->|?]; [left|right; auto]. }
  split. { rewrite keys_store, bool_decide_true by eauto. done. }
  split. { intros k Hne. by rewrite lookup_store, decide_False. }
  split. { by rewrite lookup_store, decide_True. }
  split. { rewrite keys_store, bool_decide_true by eauto. done. }
  split. { intros k Hne. by rewrite lookup_store, decide_False. }
  split. { by rewrite lookup_store, decide_True. }
  split. { intros k Hne. by rewrite lookup_store, decide_False. }
  split. { by rewrite lookup_store, decide_True. }
  split; [|done].
  rewrite keys_store. case_bool_decide; auto.
Qed.

Lemma update_preserves_other_fields_witness :
  (Json.Object
     [(py "problem_id", Json.String (py "1"));
      (py "samples",
       Json.Object
         [(py "0",
           Json.Object
             [(py "correct", Json.Bool true);
              (py "generated_assembly_file", Json.String (py "sample_0_generated.s"));
              (py "similarity", Json.String (py "s"))])])]
   = sidecar ∧ Json.Bool true = Json.Bool false)
  ∨ ∃ d ss sample d' ss' sample',
      sidecar = Json.Object d
      ∧ Json.Object
          [(py "problem_id", Json.String (py "1"));
           (py "samples",
            Json.Object
              [(py "0",
                Json.Object
                  [(py "correct", Json.Bool true);
                   (py "generated_assembly_file",
                    Json.String (py "sample_0_generated.s"));
                   (py "similarity", Json.String (py "s"))])])]
        = Json.Object d'
      ∧ Json.lookup (py "samples") d = Some (Json.Object ss)
      ∧ Json.lookup (py "0") ss = Some (Json.Object sample)
      ∧ Json.keys d' = Json.keys d
      ∧ (∀ k, k ≠ py "samples" → Json.lookup k d' = Json.lookup k d)
      ∧ Json.lookup (py "samples") d' = Some (Json.Object ss')
      ∧ Json.keys ss' = Json.keys ss
      ∧ (∀ k, k ≠ py "0" → Json.lookup k ss' = Json.lookup k ss)
      ∧ Json.lookup (py "0") ss' = Some (Json.Object sample')
      ∧ (∀ k, k ≠ py "similarity" → Json.lookup k sample' = Json.lookup k sample)
      ∧ Json.lookup (py "similarity") sample' = Some (Json.String (py "s"))
      ∧ (Json.keys sample' = Json.keys sample
         ∨ Json.keys sample' = Json.keys sample ++ [py "similarity"])
      ∧ Json.Bool true = default (Json.Bool false) (Json.lookup (py "correct") sample).
Proof.
  apply (update_preserves_other_fields (py "0") (Json.String (py "s")) sidecar).
  reflexivity.
Defined.

Section batch_properties.

Context {path : Type}.
Context (Path : str → path) (child : path → str → path) (path_str : path → str).
Context (iterdir : path → res (list str)).
Context (json_load : list str → option Json.value).
Context (json_dump : Json.value → list str).
Context (writable : str → bool).

Lemma problem_dirs_elem (fs : filesystem) (base_path : path) (dir_prefix : str)
    (names : list str) (name : str) :
  name ∈ problem_dirs child path_str fs base_path dir_prefix names ↔
  name ∈ names
  ∧ is_dir fs (path_str (child base_path name)) = true
  ∧ Substr.startswith dir_prefix name = true.
Proof.
  unfold problem_dirs. rewrite merge_sort_Permutation, list_elem_of_filter.
  rewrite <- andb_true_iff. split.
  - intros [H ?]. split; [done|]. by apply Is_true_true.
  - intros [? H]. split; [by apply Is_true_true|done].
Qed.

Lemma problem_dirs_sorted (fs : filesystem) (base_path : path) (dir_prefix : str)
    (names : list str) :
  StronglySorted (λ a b, str_le a b)
    (problem_dirs child path_str fs base_path dir_prefix names).
Proof. apply StronglySorted_merge_sort; apply _. Qed.





(** X15.  The entries that the batch returns carry the names of listed
    directories that start with the prefix, in ascending order of the
    names, and the three ratios of every entry lie between 0.0 and
    1.0. *)
Theorem results_sorted_by_name (fs : filesystem)
    (base_dir dir_prefix generated_file unoptimized_file samples_json sample_key : str)
    (update_json : bool) :
  match (process_all_problems Path child path_str iterdir json_load json_dump writable
           fs base_dir dir_prefix generated_file unoptimized_file samples_json
           sample_key update_json).2 with
  | Ok results =>
      StronglySorted (λ a b, str_le a b) (problem_id <$> results)
      ∧ Forall (λ r, Substr.startswith dir_prefix (problem_id r) = true
                     ∧ is_dir fs (path_str (child (Path base_dir) (problem_id r))) = true
                     ∧ in_unit_interval (similarity r)) results
  | _ => True
  end.
Proof.
  unfold process_all_problems. cbv zeta.
  destruct (negb _); [by split; constructor|].
  destruct (iterdir (Path base_dir)) as [names| |] eqn:Hn; [|done..].
  case_bool_decide as Hd; [by split; constructor|].
  destruct (process_dirs _ _ _ _ _ _ _ _ _ _ _ _ _ _) as [fs' [results| |]] eqn:Hl;
    [|done..].
  apply process_dirs_results in Hl as (kept & -> & Hsub & Hall). simpl.
  split.
  - eapply StronglySorted_sublist; [|exact Hsub]. apply problem_dirs_sorted.
  - apply Forall_forall. intros r Hr.
    assert (Hin : problem_id r ∈ problem_dirs child path_str fs (Path base_dir)
                                   dir_prefix names).
    { eapply elem_of_sublist; [|exact Hsub]. by apply list_elem_of_fmap_2. }
    apply problem_dirs_elem in Hin as (_ & ? & ?).
    rewrite Forall_forall in Hall. auto.
Qed.

(** X25.  When the document of a directory is an object whose
    [samples] is an object that holds an object under the sample key,
    and the document can be written, the turn with [update_json] writes
    a document whose sample has as [similarity] the very ratios of the
    entry it appends, and the [correct] of the entry is the [correct]
    of that sample, [False] by default. *)
Theorem stored_similarity_is_reported (fs fs' : filesystem) (base_path : path)
    (generated_file unoptimized_file samples_json sample_key name : str)
    (result : problem_result) (text : list str) (d ss sample : Json.dict) :
  process_dir child path_str json_load json_dump writable fs base_path
    generated_file unoptimized_file samples_json sample_key true name
  = (fs', Ok (Some result)) →
  fs (path_str (child (child base_path name) samples_json)) = Lines text →
  json_load text = Some (Json.Object d) →
  Json.lookup (py "samples") d = Some (Json.Object ss) →
  Json.lookup sample_key ss = Some (Json.Object sample) →
  writable (path_str (child (child base_path name) samples_json)) = true →
  ∃ d' ss' sample',
    fs' (path_str (child (child base_path name) samples_json))
    = Lines (json_dump (Json.Object d'))
    ∧ Json.lookup (py "samples") d' = Some (Json.Object ss')
    ∧ Json.lookup sample_key ss' = Some (Json.Object sample')
    ∧ Json.lookup (py "similarity") sample'
      = Some (similarity_json (similarity result))
    ∧ correct result = default (Json.Bool false) (Json.lookup (py "correct") sample).
Proof.
  intros Hstep Hfs Hload Hs Hk Hw. unfold process_dir in Hstep. cbv zeta in Hstep.
  destruct (negb _ || negb _); [done|].
  destruct (calculate_similarity fs _ _) as [sim| |]; [|done..].
  unfold path_exists in Hstep. rewrite Hfs in Hstep. cbn [andb] in Hstep.
  unfold update_json_file in Hstep. rewrite Hfs, Hload in Hstep.
  rewrite (update_sample_object _ _ _ _ _ Hs Hk), Hw in Hstep.
  injection Hstep as <- <-. simpl.
  eexists _, _, _. split.
  { unfold write_lines. by rewrite decide_True. }
  split. { by rewrite lookup_store, decide_True. }
  split. { by rewrite lookup_store, decide_True. }
  split; [|done]. by rewrite lookup_store, decide_True.
Qed.

End batch_properties.

Lemma stored_similarity_is_reported_witness :
  ∃ d' ss' sample',
    (process_runs true).1 (py "runs/problem_1/samples.json")
    = Lines (runs_dump (Json.Object d'))
    ∧ Json.lookup (py "samples") d' = Some (Json.Object ss')
    ∧ Json.lookup (py "0") ss' = Some (Json.Object sample')
    ∧ Json.lookup (py "similarity") sample'
      = Some (similarity_json
                {| line_similarity := Float.rnd (8571 # 10000);
                   instruction_similarity := Float.rnd (8 # 10);
                   overall_similarity := Float.rnd (8343 # 10000) |})
    ∧ Json.Bool true
      = default (Json.Bool false)
          (Json.lookup (py "correct")
             [(py "correct", Json.Bool true);
              (py "generated_assembly_file", Json.String (py "sample_0_generated.s"))]).
Proof.
  destruct (stored_similarity_is_reported slash_child (λ p, p) runs_load runs_dump
              (λ _, true) runs
              (write_lines runs (py "runs/problem_1/samples.json")
                 (py "sidecar, updated" :: nil))
              (py "runs") (py "sample_0_generated.s") (py "unoptimized.s")
              (py "samples.json") (py "0") (py "problem_1")
              {| problem_id := py "problem_1";
                 similarity :=
                   {| line_similarity := Float.rnd (8571 # 10000);
                      instruction_similarity := Float.rnd (8 # 10);
                      overall_similarity := Float.rnd (8343 # 10000) |};
                 correct := Json.Bool true |}
              [py "sidecar"]
              [(py "problem_id", Json.String (py "1"));
               (py "samples",
                Json.Object
                  [(py "0",
                    Json.Object
                      [(py "correct", Json.Bool true);
                       (py "generated_assembly_file",
                        Json.String (py "sample_0_generated.s"))])])]
              [(py "0",
                Json.Object
                  [(py "correct", Json.Bool true);
                   (py "generated_assembly_file",
                    Json.String (py "sample_0_generated.s"))])]
              [(py "correct", Json.Bool true);
               (py "generated_assembly_file", Json.String (py "sample_0_generated.s"))])
    as (d' & ss' & sample' & H1 & H2 & H3 & H4 & H5).
  - vm_compute. reflexivity.
  - reflexivity.
  - reflexivity.
  - reflexivity.
  - reflexivity.
  - reflexivity.
  - exists d', ss', sample'. split; [|by auto].
    rewrite <- H1. vm_compute. reflexivity.
Defined.


(** ** Facts about the batch driver in its environment *)

Section driver_facts.

Import Driver.

Local Arguments py : simpl never.

Context {path : Type}.
Context (Path : str → path) (child : path → str → path) (path_str : path → str).
Context (iterdir : path → res (list str)).
Context (json_load : list str → option Json.value).
Context (json_dump : Json.value → list str).
Context (writable : str → bool).
Context (exists_ : filesystem → str → res bool).
Context (is_dir_ : filesystem → str → res bool).
Context (print_raises : list message → message → option exn).
Context (base_path : path).
Context (dir_prefix generated_file unoptimized_file samples_json sample_key : str).

Local Abbreviation step update_json name :=
  (process_dir child path_str json_load json_dump writable exists_ print_raises
     base_path generated_file unoptimized_file samples_json sample_key update_json name).

Local Abbreviation loop update_json dirs results :=
  (process_dirs child path_str json_load json_dump writable exists_ print_raises
     base_path generated_file unoptimized_file samples_json sample_key update_json
     dirs results).

Local Abbreviation gen_path name := (path_str (child (child base_path name) generated_file)).
Local Abbreviation unopt_path name :=
  (path_str (child (child base_path name) unoptimized_file)).

(** The scorer raises only what reading one of the two files raises,
    and never [FileNotFoundError]. *)
Lemma calculate_similarity_raises (fs : filesystem) (p1 p2 : str) :
  match calculate_similarity fs p1 p2 with
  | Ok _ => True
  | Raise e => e ≠ FileNotFoundError ∧ (fs p1 = Unreadable e ∨ fs p2 = Unreadable e)
  | Diverge => False
  end.
Proof.
  destruct (fs p1) as [l1|e1] eqn:E1.
  - destruct (fs p2) as [l2|e2] eqn:E2.
    + rewrite (calculate_similarity_readable fs p1 p2 l1 l2 E1 E2).
      by destruct (score_total l1 l2) as (lr & ir & _ & _ & _ & _ & ->).
    + unfold calculate_similarity, open_readlines. rewrite E1, E2.
      destruct e2; simpl; try done; split; by auto.
  - unfold calculate_similarity, open_readlines. rewrite E1.
    destruct e1; simpl; try done; split; by auto.
Qed.

Lemma accounted_ret {A} E D (a : A) : accounted E D (mret a).
Proof. by intros w. Qed.

Lemma accounted_bind {A B} E D (m : action A) (f : A → action B) :
  accounted E D m → (∀ a, accounted E D (f a)) → accounted E D (m ≫= f).
Proof.
  intros Hm Hf w. specialize (Hm w).
  unfold mbind, action_mbind, action_bind.
  destruct (m w) as [w' [a|e|]]; [apply Hf|done..].
Qed.

Lemma accounted_print E D (m : message) :
  (∀ fs done e, print_raises done m = Some e → E fs e) →
  accounted E D (print print_raises m).
Proof.
  intros HE w. unfold print.
  destruct (print_raises (printed w) m) as [e|] eqn:Hp; [|done]. by eapply HE.
Qed.

Lemma accounted_reads {A} E D (f : filesystem → res A) :
  (∀ fs e, f fs = Raise e → E fs e) → (∀ fs, f fs = Diverge → D) →
  accounted E D (reads f).
Proof.
  intros HE HD w. unfold reads.
  destruct (f (files w)) as [a|e|] eqn:Hf; [done|by apply HE|by eapply HD].
Qed.

Lemma accounted_writes {A} E D (f : filesystem → filesystem * A) :
  accounted E D (writes f).
Proof. by intros w. Qed.

Local Abbreviation from_environment e :=
  (raised_by_environment child path_str iterdir exists_ is_dir_ print_raises
     base_path e).

Local Abbreviation from_reading fs e :=
  (raised_by_reading child path_str iterdir base_path dir_prefix generated_file
     unoptimized_file fs e).

Local Abbreviation may_diverge := (diverges iterdir exists_ is_dir_ base_path).

Local Abbreviation E := (λ fs e, from_environment e ∨ from_reading fs e).

Lemma exists_accounted (p : str) :
  accounted E may_diverge (reads (λ fs, exists_ fs p)).
Proof.
  apply accounted_reads.
  - intros fs e He. left. right. left. eauto.
  - intros fs He. right. left. eauto.
Qed.

Lemma print_accounted (m : message) : accounted E may_diverge (print print_raises m).
Proof. apply accounted_print. intros fs done e He. left. do 3 right. eauto. Qed.

Lemma process_dir_accounted (update_json : bool) (names : list str) (name : str) :
  iterdir base_path = Ok names → name ∈ names →
  Substr.startswith dir_prefix name = true →
  accounted E may_diverge (step update_json name).
Proof.
  intros Hn Hin Hpre. unfold process_dir. cbv zeta.
  apply accounted_bind; [apply exists_accounted|]. intros gen_exists.
  apply accounted_bind.
  { destruct gen_exists; [apply exists_accounted|apply accounted_ret]. }
  intros both_exist. destruct both_exist; cbn [negb].
  2: { apply accounted_bind; [apply print_accounted|]. intros _. apply accounted_ret. }
  apply accounted_bind.
  { apply accounted_reads.
    - intros fs e He. right.
      pose proof (calculate_similarity_raises fs (gen_path name) (unopt_path name)) as H.
      rewrite He in H. destruct H as [Hne Hr]. split; [done|]. by exists names, name.
    - intros fs He.
      pose proof (calculate_similarity_raises fs (gen_path name) (unopt_path name)) as H.
      by rewrite He in H. }
  intros similarity.
  apply accounted_bind; [apply exists_accounted|]. intros json_exists.
  apply accounted_bind.
  { destruct (json_exists && update_json).
    - apply accounted_bind; [by apply accounted_reads|]. intros raised.
      apply accounted_bind; [apply accounted_writes|]. intros correct.
      destruct raised; [|apply accounted_ret].
      apply accounted_bind; [apply print_accounted|]. intros _. apply accounted_ret.
    - apply accounted_bind; [apply exists_accounted|]. intros json_exists'.
      destruct json_exists'; [by apply accounted_reads|apply accounted_ret]. }
  intros correct.
  apply accounted_bind; [apply print_accounted|]. intros _. apply accounted_ret.
Qed.

Lemma process_dirs_accounted (update_json : bool) (names dirs : list str)
    (results : list problem_result) :
  iterdir base_path = Ok names →
  (∀ name, name ∈ dirs → name ∈ names ∧ Substr.startswith dir_prefix name = true) →
  accounted E may_diverge (loop update_json dirs results).
Proof.
  intros Hn. revert results. induction dirs as [|name dirs IH]; intros results Hd.
  { apply accounted_ret. }
  cbn [process_dirs]. apply accounted_bind.
  - destruct (Hd name) as [Hin Hpre]; [left|]. by eapply process_dir_accounted.
  - intros entry. apply IH. intros name' Hin. apply Hd. by right.
Qed.

(** The entries that the list comprehension keeps are listed and have
    the prefix. *)
Lemma select_spec (all names : list str) (w : world) :
  iterdir base_path = Ok all → (∀ name, name ∈ names → name ∈ all) →
  match select child path_str is_dir_ base_path dir_prefix names w with
  | (w', Ok kept) =>
      w' = w
      ∧ ∀ name, name ∈ kept →
                name ∈ names ∧ Substr.startswith dir_prefix name = true
  | (w', Raise e) => w' = w ∧ from_environment e
  | (w', Diverge) => may_diverge
  end.
Proof.
  intros Hall. induction names as [|name names IH]; intros Hsub.
  { simpl. split; [done|]. by intros ? ?%elem_of_nil. }
  cbn [select]. unfold mbind, action_mbind, action_bind, reads.
  destruct (is_dir_ (files w) (path_str (child base_path name))) as [d|e|] eqn:Hd.
  - ospecialize (IH _). { intros name' Hin. apply Hsub. by right. }
    destruct (select _ _ _ _ _ names w) as [w' [kept|e|]]; [|done..].
    destruct IH as [-> Hk]. simpl. split; [done|].
    intros name'. destruct (d && Substr.startswith dir_prefix name) eqn:Hc.
    + intros [->|Hin]%elem_of_cons.
      * split; [left|]. by apply andb_true_iff in Hc as [_ ?].
      * destruct (Hk name' Hin). split; [by right|done].
    + intros Hin. destruct (Hk name' Hin). split; [by right|done].
  - split; [done|]. right. right. left. exists (files w), all, name.
    split; [done|]. split; [apply Hsub; left|done].
  - right. right. eauto.
Qed.

Lemma process_all_problems_accounted (base_dir : str) (update_json : bool) :
  base_path = Path base_dir →
  accounted E may_diverge
    (process_all_problems Path child path_str iterdir json_load json_dump writable
       exists_ is_dir_ print_raises base_dir dir_prefix generated_file
       unoptimized_file samples_json sample_key update_json).
Proof.
  intros Hbase. unfold process_all_problems. cbv zeta. rewrite <- Hbase.
  apply accounted_bind; [apply exists_accounted|]. intros base_exists.
  destruct base_exists; cbn [negb].
  2: { apply accounted_bind; [apply print_accounted|]. intros _. apply accounted_ret. }
  assert (Hrest : ∀ all, iterdir base_path = Ok all →
            accounted E may_diverge
              (selected ← select child path_str is_dir_ base_path dir_prefix all;
               if bool_decide (merge_sort (λ a b, str_le a b) selected = [])
               then _ ← print print_raises (NoDirectories dir_prefix base_dir); mret []
               else _ ← print print_raises
                          (Found (length (merge_sort (λ a b, str_le a b) selected)));
                    loop update_json (merge_sort (λ a b, str_le a b) selected) [])).
  { intros all Hall w. unfold mbind at 1. unfold action_mbind, action_bind.
    pose proof (select_spec all all w Hall (λ _ H, H)) as Hs.
    destruct (select _ _ _ _ _ all w) as [w' [kept|e|]]; [|by left; apply Hs|done].
    destruct Hs as [-> Hk].
    assert (Hbranch : accounted E may_diverge
              (if bool_decide (merge_sort (λ a b, str_le a b) kept = [])
               then _ ← print print_raises (NoDirectories dir_prefix base_dir); mret []
               else _ ← print print_raises
                          (Found (length (merge_sort (λ a b, str_le a b) kept)));
                    loop update_json (merge_sort (λ a b, str_le a b) kept) []));
      [|apply Hbranch].
    case_bool_decide.
    - apply accounted_bind; [apply print_accounted|]. intros _. apply accounted_ret.
    - apply accounted_bind; [apply print_accounted|]. intros _.
      apply (process_dirs_accounted update_json all); [done|].
      intros name Hin. destruct (Hk name) as [H1 H2]; [|done].
      by rewrite merge_sort_Permutation in Hin. }
  intros w. unfold mbind at 1. unfold action_mbind, action_bind, reads.
  destruct (iterdir base_path) as [all|e|] eqn:Hall.
  - by apply Hrest.
  - left. by left.
  - by left.
Qed.

End driver_facts.

(** ** The driver in an environment that raises nothing *)

Section quiet_environment.

Local Arguments py : simpl never.

Context {path : Type}.
Context (Path : str → path) (child : path → str → path) (path_str : path → str).
Context (iterdir : path → res (list str)).
Context (json_load : list str → option Json.value).
Context (json_dump : Json.value → list str).
Context (writable : str → bool).
Context (exists_ : filesystem → str → res bool).
Context (is_dir_ : filesystem → str → res bool).
Context (print_raises : list Driver.message → Driver.message → option exn).

(** [exists] and [is_dir] answer as the files tell, and no [print]
    raises. *)
Hypothesis Hexists : ∀ fs p, exists_ fs p = Ok (path_exists fs p).
Hypothesis His_dir : ∀ fs p, is_dir_ fs p = Ok (is_dir fs p).
Hypothesis Hprint : ∀ done m, print_raises done m = None.

Lemma quiet_select (base_path : path) (dir_prefix : str) (names : list str)
    (w : Driver.world) :
  Driver.select child path_str is_dir_ base_path dir_prefix names w
  = (w, Ok (filter (λ name, is_dir (Driver.files w) (path_str (child base_path name))
                            && Substr.startswith dir_prefix name) names)).
Proof.
  induction names as [|name names IH]; [done|].
  cbn [Driver.select].
  unfold mbind, Driver.action_mbind, Driver.action_bind, Driver.reads.
  rewrite His_dir, IH. unfold mret, Driver.action_mret, Driver.action_ret.
  rewrite filter_cons.
  by destruct (is_dir _ _ && _).
Qed.

Lemma quiet_print (m : Driver.message) (w : Driver.world) :
  Driver.print print_raises m w
  = (Driver.World (Driver.files w) (Driver.printed w ++ [m]), Ok ()).
Proof. unfold Driver.print. by rewrite Hprint. Qed.

Lemma quiet_process_dir (base_path : path)
    (generated_file unoptimized_file samples_json sample_key : str)
    (update_json : bool) (name : str) (w : Driver.world) :
  ∃ done,
    Driver.process_dir child path_str json_load json_dump writable exists_ print_raises
      base_path generated_file unoptimized_file samples_json sample_key update_json
      name w
    = (Driver.World
         (process_dir child path_str json_load json_dump writable (Driver.files w)
            base_path generated_file unoptimized_file samples_json sample_key
            update_json name).1
         done,
       (process_dir child path_str json_load json_dump writable (Driver.files w)
          base_path generated_file unoptimized_file samples_json sample_key
          update_json name).2).
Proof.
  destruct w as [fs done0].
  unfold Driver.process_dir, process_dir. cbv zeta.
  unfold mbind, Driver.action_mbind, Driver.action_bind, Driver.reads, Driver.writes,
    mret, Driver.action_mret, Driver.action_ret, Driver.print.
  cbn [Driver.files Driver.printed]. rewrite !Hexists.
  destruct (path_exists fs (path_str (child (child base_path name) generated_file)));
    cbn [negb orb Driver.files Driver.printed]; rewrite ?Hprint, ?Hexists; [|eauto].
  destruct (path_exists fs (path_str (child (child base_path name) unoptimized_file)));
    cbn [negb orb Driver.files Driver.printed]; rewrite ?Hprint, ?Hexists; [|eauto].
  destruct (calculate_similarity fs _ _) as [similarity|e|]; [|eauto..].
  destruct (path_exists fs (path_str (child (child base_path name) samples_json)))
    eqn:Hj; cbn [andb Driver.files Driver.printed].
  - destruct update_json.
    + destruct (update_json_file json_load json_dump writable fs _ sample_key similarity)
        as [fs' correct] eqn:Hu.
      cbn [fst snd Driver.files Driver.printed].
      destruct (Driver.update_raises _ _ _ _ _ _);
        cbn [Driver.files Driver.printed]; rewrite ?Hprint;
        cbn [Driver.files Driver.printed]; rewrite ?Hprint, ?Hu;
        cbn [fst snd]; eauto.
    + rewrite Hexists. cbn [Driver.files Driver.printed]. rewrite Hj.
      cbn [Driver.files Driver.printed]. rewrite ?Hprint. eauto.
  - rewrite Hexists. cbn [Driver.files Driver.printed]. rewrite Hj.
    cbn [Driver.files Driver.printed]. rewrite ?Hprint. eauto.
Qed.

Lemma quiet_process_dirs (base_path : path)
    (generated_file unoptimized_file samples_json sample_key : str)
    (update_json : bool) (dirs : list str) (results : list problem_result)
    (w : Driver.world) :
  ∃ done,
    Driver.process_dirs child path_str json_load json_dump writable exists_
      print_raises base_path generated_file unoptimized_file samples_json sample_key
      update_json dirs results w
    = (Driver.World
         (process_dirs child path_str json_load json_dump writable (Driver.files w)
            base_path generated_file unoptimized_file samples_json sample_key
            update_json dirs results).1
         done,
       (process_dirs child path_str json_load json_dump writable (Driver.files w)
          base_path generated_file unoptimized_file samples_json sample_key
          update_json dirs results).2).
Proof.
  revert results w. induction dirs as [|name dirs IH]; intros results w.
  { destruct w as [fs done]. by exists done. }
  cbn [Driver.process_dirs process_dirs].
  unfold mbind, Driver.action_mbind, Driver.action_bind.
  destruct (quiet_process_dir base_path generated_file unoptimized_file samples_json
              sample_key update_json name w) as [done ->].
  destruct (process_dir child path_str json_load json_dump writable (Driver.files w)
              base_path generated_file unoptimized_file samples_json sample_key
              update_json name) as [fs' [[r|]|e|]]; cbn [fst snd option_list].
  - apply (IH (results ++ [r]) (Driver.World fs' done)).
  - change (option_list None) with (@nil problem_result). rewrite app_nil_r.
    apply (IH results (Driver.World fs' done)).
  - eauto.
  - eauto.
Qed.

(** In such an environment the function returns what
    [process_all_problems] of the section above returns, and leaves the
    files as that one leaves them. *)
Lemma quiet_process_all_problems
    (base_dir dir_prefix generated_file unoptimized_file samples_json sample_key : str)
    (update_json : bool) (w : Driver.world) :
  ∃ done,
    Driver.process_all_problems Path child path_str iterdir json_load json_dump
      writable exists_ is_dir_ print_raises base_dir dir_prefix generated_file
      unoptimized_file samples_json sample_key update_json w
    = (Driver.World
         (process_all_problems Path child path_str iterdir json_load json_dump
            writable (Driver.files w) base_dir dir_prefix generated_file
            unoptimized_file samples_json sample_key update_json).1
         done,
       (process_all_problems Path child path_str iterdir json_load json_dump
          writable (Driver.files w) base_dir dir_prefix generated_file
          unoptimized_file samples_json sample_key update_json).2).
Proof.
  unfold Driver.process_all_problems, process_all_problems. cbv zeta.
  unfold mbind at 1. unfold Driver.action_mbind, Driver.action_bind, Driver.reads.
  rewrite Hexists.
  destruct (path_exists (Driver.files w) (path_str (Path base_dir))); cbn [negb].
  2: { unfold mbind, Driver.action_mbind, Driver.action_bind. rewrite quiet_print.
       cbn [Driver.files]. eauto. }
  unfold mbind at 1. unfold Driver.action_mbind, Driver.action_bind.
  destruct (iterdir (Path base_dir)) as [names|e|]; [|destruct w; eauto..].
  unfold mbind at 1. unfold Driver.action_mbind, Driver.action_bind.
  rewrite quiet_select. unfold problem_dirs.
  case_bool_decide.
  - unfold mbind, Driver.action_mbind, Driver.action_bind. rewrite quiet_print.
    cbn [Driver.files]. eauto.
  - unfold mbind at 1. unfold Driver.action_mbind, Driver.action_bind.
    rewrite quiet_print.
    match goal with |- context [Driver.process_dirs _ _ _ _ _ _ _ ?b ?g ?u ?j ?k ?up ?d ?r ?w0] =>
      destruct (quiet_process_dirs b g u j k up d r w0) as [done' ->] end.
    cbn [Driver.files]. eauto.
Qed.

End quiet_environment.

(** ** Properties of the batch driver in its environment *)

(** X16.  Whatever the environment does, an exception that
    [process_all_problems] raises is one raised by the listing of the
    base directory, by [exists] or [is_dir], by a [print], or, never a
    [FileNotFoundError], by the reading of the generated or the
    reference assembly of a listed entry whose name has the prefix.
    Nothing that goes wrong while a document is loaded, changed or
    written reaches the caller, and the function ends unless the
    listing, [exists] or [is_dir] do not. *)
Theorem batch_exceptions {path : Type}
    (Path : str → path) (child : path → str → path) (path_str : path → str)
    (iterdir : path → res (list str))
    (json_load : list str → option Json.value) (json_dump : Json.value → list str)
    (writable : str → bool)
    (exists_ is_dir_ : filesystem → str → res bool)
    (print_raises : list Driver.message → Driver.message → option exn)
    (base_dir dir_prefix generated_file unoptimized_file samples_json sample_key : str)
    (update_json : bool) (w : Driver.world) :
  match Driver.process_all_problems Path child path_str iterdir json_load json_dump
          writable exists_ is_dir_ print_raises base_dir dir_prefix generated_file
          unoptimized_file samples_json sample_key update_json w with
  | (w', Ok _) => True
  | (w', Raise e) =>
      Driver.raised_by_environment child path_str iterdir exists_ is_dir_ print_raises
        (Path base_dir) e
      ∨ Driver.raised_by_reading child path_str iterdir (Path base_dir) dir_prefix
          generated_file unoptimized_file (Driver.files w') e
  | (w', Diverge) => Driver.diverges iterdir exists_ is_dir_ (Path base_dir)
  end.
Proof.
  by apply (process_all_problems_accounted Path child path_str iterdir json_load
              json_dump writable exists_ is_dir_ print_raises (Path base_dir)).
Qed.

(** ** Facts about the report *)

Section report_facts.

Local Arguments py : simpl never.

Lemma insert_by_Permutation {A} (key : A → Float.float) (x : A) (l : list A) :
  insert_by key x l ≡ₚ x :: l.
Proof.
  induction l as [|y l IH]; simpl; [done|].
  destruct (Qle_bool (key x) (key y)); [done|].
  rewrite IH. apply Permutation_swap.
Qed.

Lemma sorted_by_Permutation {A} (key : A → Float.float) (l : list A) :
  sorted_by key l ≡ₚ l.
Proof.
  induction l as [|x l IH]; simpl; [done|].
  by rewrite insert_by_Permutation, IH.
Qed.

Lemma insert_by_sorted {A} (key : A → Float.float) (x : A) (l : list A) :
  StronglySorted (λ a b, (key a <= key b)%Q) l →
  StronglySorted (λ a b, (key a <= key b)%Q) (insert_by key x l).
Proof.
  induction 1 as [|y l Hs IH Hy]; simpl.
  - repeat constructor.
  - destruct (Qle_bool (key x) (key y)) eqn:Hxy.
    + apply Qle_bool_iff in Hxy. constructor; [by constructor|].
      constructor; [done|].
      eapply Forall_impl; [exact Hy|]. simpl. intros z Hz.
      by apply (Qle_trans _ (key y)).
    + constructor; [done|].
      rewrite insert_by_Permutation. constructor; [|done].
      destruct (Qlt_le_dec (key y) (key x)) as [Hlt|Hle].
      * by apply Qlt_le_weak.
      * apply Qle_bool_iff in Hle. congruence.
Qed.

Lemma sorted_by_sorted {A} (key : A → Float.float) (l : list A) :
  StronglySorted (λ a b, (key a <= key b)%Q) (sorted_by key l).
Proof.
  induction l as [|x l IH]; simpl; [constructor|]. by apply insert_by_sorted.
Qed.

(** Entries with equal keys keep their order. *)
Lemma insert_by_stable {A} (key : A → Float.float) (k : Float.float) (x : A)
    (l : list A) :
  filter (λ y, Qeq_bool (key y) k) (insert_by key x l)
  = filter (λ y, Qeq_bool (key y) k) (x :: l).
Proof.
  induction l as [|y l IH]; simpl; [done|].
  destruct (Qle_bool (key x) (key y)) eqn:Hxy; [done|].
  rewrite (filter_cons _ y), IH, !filter_cons.
  destruct (decide (Qeq_bool (key x) k)) as [Hx|Hx]; [|done].
  destruct (decide (Qeq_bool (key y) k)) as [Hy|Hy]; [|done].
  apply Is_true_true, Qeq_bool_iff in Hx. apply Is_true_true, Qeq_bool_iff in Hy.
  assert (Qle_bool (key x) (key y) = true); [|congruence].
  apply Qle_bool_iff. rewrite Hx, Hy. apply Qle_refl.
Qed.

Lemma sorted_by_stable {A} (key : A → Float.float) (k : Float.float) (l : list A) :
  filter (λ y, Qeq_bool (key y) k) (sorted_by key l)
  = filter (λ y, Qeq_bool (key y) k) l.
Proof.
  induction l as [|x l IH]; simpl; [done|].
  by rewrite insert_by_stable, !filter_cons, IH.
Qed.

Lemma statistics_line_total (sum : list Float.float → Float.float) (title : str)
    (sims : list Float.float) :
  sims ≠ [] → ∃ line, statistics_line sum title sims = Ok line.
Proof.
  destruct sims as [|x xs]; [done|]. intros _. unfold statistics_line.
  assert (1 <= Float.of_int (Z.of_nat (length (x :: xs))))%Q as Hn.
  { apply of_int_pos. simpl. lia. }
  unfold Float.div.
  destruct (Qeq_bool _ 0) eqn:Hz.
  { apply Qeq_bool_iff in Hz. rewrite Hz in Hn. by apply Qle_not_lt in Hn. }
  cbn [mbind res_mbind res_bind]. eauto.
Qed.

Lemma report_lines_total (sum : list Float.float → Float.float)
    (results : list problem_result) :
  results ≠ [] →
  ∃ head foot,
    report_lines sum results
    = Ok (head
          ++ (row <$> sorted_by (λ x, instruction_similarity (similarity x)) results)
          ++ foot)
    ∧ length head = 6%nat ∧ length foot = 8%nat.
Proof.
  intros Hne. unfold report_lines. cbv zeta.
  destruct (statistics_line_total sum (py "  Overall Similarity")
              ((λ r, overall_similarity (similarity r)) <$> results)) as [l1 ->].
  { by destruct results. }
  destruct (statistics_line_total sum (py "  Line Similarity")
              ((λ r, line_similarity (similarity r)) <$> results)) as [l2 ->].
  { by destruct results. }
  destruct (statistics_line_total sum (py "  Instruction Similarity")
              ((λ r, instruction_similarity (similarity r)) <$> results)) as [l3 ->].
  { by destruct results. }
  cbn [mbind res_mbind res_bind]. eexists _, _. split; [reflexivity|]. done.
Qed.

Lemma decimal_short (m : N) :
  (m < 10000)%N → (length (Format.decimal m) ≤ 4)%nat.
Proof.
  intros Hm.
  assert (H : forallb (λ k, Nat.leb (length (Format.decimal (Z.to_N k))) 4)
                (seqZ 0 10000) = true) by (vm_compute; reflexivity).
  rewrite forallb_forall in H. specialize (H (Z.of_N m)).
  rewrite N2Z.id in H. apply Nat.leb_le, H, list_elem_of_In, elem_of_seqZ. lia.
Qed.

Lemma length_ljust (width : nat) (s : str) :
  length (Format.ljust width s) = (width `max` length s)%nat.
Proof. unfold Format.ljust. rewrite length_app, length_replicate. lia. Qed.

(** A ratio between 0.0 and 1.0 is printed with six characters. *)
Lemma length_fixed4 (x : Float.float) :
  (0 <= x <= 1)%Q → length (Format.fixed4 x) = 6%nat.
Proof.
  intros [H0 H1]. unfold Format.fixed4. cbv zeta.
  assert (Qle_bool 0 x = true) as -> by by apply Qle_bool_iff.
  assert (0 ≤ Float.rne (x * inject_Z 10000) ≤ 10000) as [Hn0 Hn1].
  { split.
    - apply rne_ge_Z. change (inject_Z 0) with 0%Q.
      apply Qmult_le_0_compat; [done|done].
    - apply rne_le_Z. rewrite <- (Qmult_1_l (inject_Z 10000)) at 2.
      by apply Qmult_le_compat_r. }
  set (n := Z.to_N (Float.rne (x * inject_Z 10000))).
  assert (Hn : (n ≤ 10000)%N) by lia.
  assert (length (Format.decimal (n / 10000)) = 1%nat) as Hint.
  { destruct (decide (n = 10000%N)) as [->|Hne]; [done|].
    rewrite N.div_small by lia. done. }
  pose proof (decimal_short (n mod 10000)) as Hfrac.
  rewrite !length_app, Hint, length_replicate.
  change (length (py ".")) with 1%nat. simpl length at 1.
  assert ((n mod 10000 < 10000)%N) by (apply N.mod_lt; lia).
  specialize (Hfrac ltac:(done)). lia.
Qed.

End report_facts.

(** ** Properties of the report *)

(** X17.  [generate_report] raises nothing of its own, whatever [sum]
    returns: the averages are taken of lists that are not empty.  It
    ends by returning, or in the exception of the first [print], [open]
    or [write] that raised, with the effects before that call done.  A
    file is written only when there is a result and [output_file] is a
    string that is not empty; it is then the file [output_file], opened
    after the report was printed, and its text is the report that the
    first [print] shows after a newline.  When [generate_report]
    returns in that case, its effects are that [print], the [open], the
    [write] and the [print] of the file name. *)
Theorem report_saved_as_printed (sum : list Float.float → Float.float)
    (raises : list effect → effect → option exn)
    (results : list problem_result) (output_file : option str) :
  let run := generate_report sum raises results output_file in
  (run.2 = Ok () ∨ ∃ e x, raises run.1 e = Some x ∧ run.2 = Raise x)
  ∧ (∀ path text, Written path text ∈ run.1 →
       results ≠ [] ∧ output_file = Some path ∧ path ≠ []
       ∧ run.1 !! 0%nat = Some (Printed ([Str.newline] ++ text))
       ∧ run.1 !! 1%nat = Some (Opened path)
       ∧ run.1 !! 2%nat = Some (Written path text))
  ∧ (∀ path, run.2 = Ok () → results ≠ [] → output_file = Some path → path ≠ [] →
       ∃ text, run.1 = [Printed ([Str.newline] ++ text); Opened path; Written path text;
                        Printed ([Str.newline] ++ py "Report saved to: " ++ path)]).
Proof.
  unfold generate_report. case_bool_decide as Hr.
  { unfold attempt. destruct (raises [] _) as [x|] eqn:Hx; simpl.
    - split; [right; eauto|]. split; [by intros ? ? ?%elem_of_nil|done].
    - split; [by left|]. split; [|done].
      intros path text Hin. apply list_elem_of_singleton in Hin. done. }
  destruct (report_lines_total sum results Hr) as (head & foot & -> & _).
  set (text := Format.join [Str.newline] _).
  unfold and_then, attempt.
  destruct (raises [] (Printed ([Str.newline] ++ text))) as [x|] eqn:H0; simpl.
  { split; [right; eauto|]. split; [by intros ? ? ?%elem_of_nil|done]. }
  destruct output_file as [path|]; [case_bool_decide as Hp|]; simpl.
  - split; [by left|]. split; [|by intros ? _ _ [= <-]].
    intros p t Hin. apply list_elem_of_singleton in Hin. done.
  - destruct (raises [Printed _] (Opened path)) as [x|] eqn:H1; simpl.
    { split; [right; eauto|]. split; [|done].
      intros p t Hin. apply list_elem_of_singleton in Hin. done. }
    destruct (raises [Printed _; Opened path] (Written path text)) as [x|] eqn:H2; simpl.
    { split; [right; eauto|]. split; [|done].
      intros p t Hin. apply elem_of_cons in Hin as [|Hin]; [done|].
      apply list_elem_of_singleton in Hin. done. }
    destruct (raises [Printed _; Opened path; Written path text] _) as [x|] eqn:H3; simpl.
    + split; [right; eauto|]. split; [|done].
      intros p t Hin. apply elem_of_cons in Hin as [|Hin]; [done|].
      apply elem_of_cons in Hin as [|Hin]; [done|].
      apply list_elem_of_singleton in Hin as [= <- <-]. done.
    + split; [by left|]. split.
      * intros p t Hin. apply elem_of_cons in Hin as [|Hin]; [done|].
        apply elem_of_cons in Hin as [|Hin]; [done|].
        apply elem_of_cons in Hin as [[= <- <-]|Hin]; [done|].
        apply list_elem_of_singleton in Hin. done.
      * intros p _ _ [= <-] _. by exists text.
  - split; [by left|]. split; [|done].
    intros p t Hin. apply list_elem_of_singleton in Hin. done.
Qed.

(** X18.  The lines of the report are six lines of heading, one line
    for each result, and eight lines of statistics.  The lines of the
    table show every result once, in ascending order of
    [instruction_similarity], results with equal
    [instruction_similarity] in the order in which they were given. *)
Theorem report_table_sorted (sum : list Float.float → Float.float)
    (results : list problem_result) :
  results ≠ [] →
  ∃ head table foot,
    report_lines sum results = Ok (head ++ (row <$> table) ++ foot)
    ∧ length head = 6%nat ∧ length foot = 8%nat
    ∧ table ≡ₚ results
    ∧ StronglySorted
        (λ a b, (instruction_similarity (similarity a)
                 <= instruction_similarity (similarity b))%Q) table
    ∧ ∀ k, filter (λ r, Qeq_bool (instruction_similarity (similarity r)) k) table
           = filter (λ r, Qeq_bool (instruction_similarity (similarity r)) k) results.
Proof.
  intros Hr.
  destruct (report_lines_total sum results Hr) as (head & foot & -> & Hh & Hf).
  exists head, (sorted_by (λ x, instruction_similarity (similarity x)) results), foot.
  split; [done|]. split; [done|]. split; [done|].
  split; [apply sorted_by_Permutation|].
  split; [apply (sorted_by_sorted (λ x, instruction_similarity (similarity x)))|].
  intros k. apply (sorted_by_stable (λ x, instruction_similarity (similarity x))).
Qed.

Lemma report_table_sorted_witness :
  ∃ head table foot,
    report_lines sum_left three_results = Ok (head ++ (row <$> table) ++ foot)
    ∧ length head = 6%nat ∧ length foot = 8%nat
    ∧ table ≡ₚ three_results
    ∧ StronglySorted
        (λ a b, (instruction_similarity (similarity a)
                 <= instruction_similarity (similarity b))%Q) table
    ∧ ∀ k, filter (λ r, Qeq_bool (instruction_similarity (similarity r)) k) table
           = filter (λ r, Qeq_bool (instruction_similarity (similarity r)) k)
               three_results.
Proof. apply (report_table_sorted sum_left three_results). discriminate. Defined.

(** X19.  The line of the table for a result whose three ratios lie
    between 0.0 and 1.0 has 48 characters after the problem id, which
    is padded to 15 characters: each ratio is printed with six
    characters, so the columns stand under their headings whenever the
    ids have at most 15 characters. *)
Theorem row_width (result : problem_result) :
  in_unit_interval (similarity result) →
  length (row result) = (15 `max` length (problem_id result) + 48)%nat.
Proof.
  intros (Hl & Hi & Ho). unfold row. cbv zeta.
  rewrite !length_app, !length_ljust, !length_fixed4 by done.
  change (length (py " ")) with 1%nat.
  destruct (Json.truthy (correct result)); cbn [length check_mark cross_mark]; lia.
Qed.

Lemma row_width_witness :
  length (row {| problem_id := py "problem_10";
                 similarity := {| line_similarity := Float.rnd (8571 # 10000);
                                  instruction_similarity := Float.rnd (8 # 10);
                                  overall_similarity := Float.rnd (8343 # 10000) |};
                 correct := Json.Bool false |})
  = (15 `max` length (py "problem_10") + 48)%nat.
Proof.
  apply (row_width {| problem_id := py "problem_10";
                      similarity := {| line_similarity := Float.rnd (8571 # 10000);
                                       instruction_similarity := Float.rnd (8 # 10);
                                       overall_similarity := Float.rnd (8343 # 10000) |};
                      correct := Json.Bool false |}).
  repeat split; vm_compute; discriminate.
Defined.

(** ** More properties of the scorer *)

Section mnemonic_facts.

Lemma ratio_disjoint {A} `{Countable A} (a b : list A) :
  (∀ x, x ∈ a → x ∉ b) → a ≠ [] ∨ b ≠ [] → Difflib.ratio a b = Ok 0%Q.
Proof.
  intros Hab Hne. unfold Difflib.ratio. rewrite matches_disjoint by done.
  cbn [of_option mbind res_mbind res_bind].
  apply calculate_ratio_none.
  destruct Hne as [Hne|Hne]; [destruct a|destruct b]; try done; simpl; lia.
Qed.

Lemma instruction_ratio_disjoint (ins1 ins2 : list str) :
  (∀ x, x ∈ ins1 → x ∉ ins2) → instruction_ratio ins1 ins2 = Ok 0%Q.
Proof.
  intros Hd. unfold instruction_ratio.
  destruct (bool_decide (ins1 ≠ []) || bool_decide (ins2 ≠ [])) eqn:Hne; [|done].
  apply ratio_disjoint; [done|].
  apply orb_true_iff in Hne as [Hne|Hne]; apply bool_decide_eq_true in Hne; auto.
Qed.

Lemma instruction_ratio_same (ins : list str) :
  ins ≠ [] → instruction_ratio ins ins = Ok 1%Q.
Proof.
  intros Hne. unfold instruction_ratio. rewrite bool_decide_true by done.
  by apply ratio_same.
Qed.

Lemma round_0 : Float.round 0%Q 4 = 0%Q.
Proof. vm_compute. reflexivity. Qed.

Lemma round_1 : Float.round 1%Q 4 = 1%Q.
Proof. vm_compute. reflexivity. Qed.

(** The instruction field of the score of two texts. *)
Lemma score_instruction (l1 l2 : list str) (ir : Float.float) :
  instruction_ratio (instruction_tokens l1) (instruction_tokens l2) = Ok ir →
  ∃ r, score l1 l2 = Ok r ∧ instruction_similarity r = Float.round ir 4.
Proof.
  intros Hi. destruct (score_total l1 l2) as (lr & ir' & _ & Hi' & _ & _ & ->).
  rewrite Hi in Hi'. injection Hi' as <-. by eexists.
Qed.

Lemma first_token_shape (line : str) :
  is_instruction_line line = true →
  first_token (normal_form line) ≠ []
  ∧ Forall (λ c, Str.isspace c = false ∧ c ≠ Str.hash ∧ c ≠ Str.semicolon)
      (first_token (normal_form line))
  ∧ head (first_token (normal_form line)) ≠ Some Str.dot.
Proof.
  unfold is_instruction_line. rewrite !andb_true_iff, !negb_true_iff.
  intros [[Hne _] Hdot]. apply bool_decide_eq_false in Hne.
  set (n := normal_form line) in *.
  assert (Hhead : ∀ x, head n = Some x → Str.isspace x = false).
  { intros x. apply strip_head. }
  assert (Hnh : (Str.hash ∉ n) ∧ (Str.semicolon ∉ n)).
  { split.
    - intros Hin. apply (before_not_elem Str.hash line).
      eapply elem_of_sublist; [|apply before_sublist].
      eapply elem_of_sublist; [|apply strip_sublist]. exact Hin.
    - intros Hin.
      apply (before_not_elem Str.semicolon (before Str.hash line)).
      eapply elem_of_sublist; [|apply strip_sublist]. exact Hin. }
  unfold first_token, Str.lstrip. rewrite drop_while_head_id by done.
  destruct n as [|c n']; [done|].
  assert (Hc : Str.isspace c = false) by by apply Hhead.
  cbn [Str.take_while]. rewrite Hc. cbn [negb].
  split; [done|]. split.
  - assert (G : ∀ s : str, (Str.hash ∉ s) ∧ (Str.semicolon ∉ s) →
                 Forall (λ c, Str.isspace c = false ∧ c ≠ Str.hash ∧ c ≠ Str.semicolon)
                   (Str.take_while (λ c, negb (Str.isspace c)) s)).
    { induction s as [|x s IH]; intros [H1 H2]; simpl; [constructor|].
      apply not_elem_of_cons in H1 as [H1 H1'].
      apply not_elem_of_cons in H2 as [H2 H2'].
      destruct (Str.isspace x) eqn:Hx; simpl; [constructor|].
      constructor; [by auto|]. by apply IH. }
    destruct Hnh as [H1 H2].
    apply not_elem_of_cons in H1 as [H1 H1'].
    apply not_elem_of_cons in H2 as [H2 H2'].
    constructor; [by auto|]. by apply G.
  - simpl. intros [= ->]. unfold Str.startswith in Hdot.
    by rewrite bool_decide_true in Hdot.
Qed.

End mnemonic_facts.

(** X20.  The instruction similarity of two readable files depends on
    their two mnemonic sequences alone: files with the same sequences
    of extracted instructions get the same [instruction_similarity],
    whatever their labels, directives, comments, blank lines and
    operands. *)
Theorem instruction_similarity_from_mnemonics (fs : filesystem)
    (p1 p2 p1' p2' : str) (A B A' B' : list str) :
  fs p1 = Lines A → fs p2 = Lines B → fs p1' = Lines A' → fs p2' = Lines B' →
  extract_instructions A' = extract_instructions A →
  extract_instructions B' = extract_instructions B →
  ∃ r r', calculate_similarity fs p1 p2 = Ok r
          ∧ calculate_similarity fs p1' p2' = Ok r'
          ∧ instruction_similarity r' = instruction_similarity r.
Proof.
  intros H1 H2 H1' H2' HA HB.
  rewrite (extract_instructions_eq A), (extract_instructions_eq A') in HA.
  rewrite (extract_instructions_eq B), (extract_instructions_eq B') in HB.
  injection HA as HA. injection HB as HB.
  rewrite (calculate_similarity_readable fs p1 p2 A B H1 H2).
  rewrite (calculate_similarity_readable fs p1' p2' A' B' H1' H2').
  destruct (instruction_ratio_unit (instruction_tokens A) (instruction_tokens B))
    as (ir & Hi & _).
  destruct (score_instruction A B ir Hi) as (r & -> & Hr).
  rewrite <- HA, <- HB in Hi.
  destruct (score_instruction A' B' ir Hi) as (r' & -> & Hr').
  exists r, r'. split; [done|]. split; [done|]. congruence.
Qed.

Lemma instruction_similarity_from_mnemonics_witness :
  ∃ r r',
    calculate_similarity
      (three_files [py "nop"] [py "foo:"; py "  nop"; py ".text"] [py "  nop"])
      generated_path unoptimized_path = Ok r
    ∧ calculate_similarity
        (three_files [py "nop"] [py "foo:"; py "  nop"; py ".text"] [py "  nop"])
        edited_path unoptimized_path = Ok r'
    ∧ instruction_similarity r' = instruction_similarity r.
Proof.
  apply (instruction_similarity_from_mnemonics
           (three_files [py "nop"] [py "foo:"; py "  nop"; py ".text"] [py "  nop"])
           generated_path unoptimized_path edited_path unoptimized_path
           [py "nop"] [py "  nop"] [py "foo:"; py "  nop"; py ".text"] [py "  nop"]);
    reflexivity.
Defined.

(** X21.  Two readable files from which the same instructions, at least
    one, are extracted have [instruction_similarity] 1.0. *)
Theorem same_mnemonics_score_one (fs : filesystem) (p1 p2 : str) (A B : list str) :
  fs p1 = Lines A → fs p2 = Lines B →
  extract_instructions A = extract_instructions B →
  extract_instructions A ≠ Ok [] →
  ∃ r, calculate_similarity fs p1 p2 = Ok r
       ∧ instruction_similarity r = Float.c1_0.
Proof.
  intros H1 H2 HAB Hne.
  rewrite (extract_instructions_eq A), (extract_instructions_eq B) in HAB.
  rewrite (extract_instructions_eq A) in Hne.
  injection HAB as HAB.
  assert (Ht : instruction_tokens A ≠ []) by congruence.
  rewrite (calculate_similarity_readable fs p1 p2 A B H1 H2).
  destruct (score_instruction A B 1%Q) as (r & -> & Hr).
  { rewrite <- HAB. by apply instruction_ratio_same. }
  exists r. split; [done|]. by rewrite Hr, round_1.
Qed.

Lemma same_mnemonics_score_one_witness :
  ∃ r, calculate_similarity
         (two_files [py "f:"; py "  mov eax, 1 # one"; py "  ret"]
            [py "  mov ebx, 2"; py ".text"; py "ret"])
         generated_path unoptimized_path = Ok r
       ∧ instruction_similarity r = Float.c1_0.
Proof.
  apply (same_mnemonics_score_one
           (two_files [py "f:"; py "  mov eax, 1 # one"; py "  ret"]
              [py "  mov ebx, 2"; py ".text"; py "ret"])
           generated_path unoptimized_path
           [py "f:"; py "  mov eax, 1 # one"; py "  ret"]
           [py "  mov ebx, 2"; py ".text"; py "ret"]).
  - reflexivity.
  - reflexivity.
  - reflexivity.
  - vm_compute. discriminate.
Defined.

(** X22.  Two readable files whose extracted instructions have no
    mnemonic in common have [instruction_similarity] 0.0, also when one
    of them or both have no instruction at all. *)
Theorem disjoint_mnemonics_score_zero (fs : filesystem) (p1 p2 : str)
    (A B ins1 ins2 : list str) :
  fs p1 = Lines A → fs p2 = Lines B →
  extract_instructions A = Ok ins1 → extract_instructions B = Ok ins2 →
  (∀ x, x ∈ ins1 → x ∉ ins2) →
  ∃ r, calculate_similarity fs p1 p2 = Ok r
       ∧ instruction_similarity r = Float.c0_0.
Proof.
  intros H1 H2 HA HB Hd.
  rewrite (extract_instructions_eq A) in HA. rewrite (extract_instructions_eq B) in HB.
  injection HA as <-. injection HB as <-.
  rewrite (calculate_similarity_readable fs p1 p2 A B H1 H2).
  destruct (score_instruction A B 0%Q) as (r & -> & Hr).
  { by apply instruction_ratio_disjoint. }
  exists r. split; [done|]. by rewrite Hr, round_0.
Qed.

Lemma disjoint_mnemonics_score_zero_witness :
  ∃ r, calculate_similarity
         (two_files [py "push rbp"; py "ret"] [py "nop"; py "leave"])
         generated_path unoptimized_path = Ok r
       ∧ instruction_similarity r = Float.c0_0.
Proof.
  apply (disjoint_mnemonics_score_zero
           (two_files [py "push rbp"; py "ret"] [py "nop"; py "leave"])
           generated_path unoptimized_path
           [py "push rbp"; py "ret"] [py "nop"; py "leave"]
           [py "push"; py "ret"] [py "nop"; py "leave"]).
  - reflexivity.
  - reflexivity.
  - reflexivity.
  - reflexivity.
  - intros x Hx. refine (bool_decide_unpack _ _).
    apply list_elem_of_In in Hx. simpl in Hx.
    destruct Hx as [<-|[<-|[]]]; vm_compute; exact I.
Defined.

(** X23.  [extract_instructions] never raises; it returns at most one
    token for each line, and every token is non-empty, holds no
    whitespace, no [#] and no [;], and does not start with a dot. *)
Theorem extracted_tokens_shape (lines : list str) :
  ∃ tokens,
    extract_instructions lines = Ok tokens
    ∧ (length tokens ≤ length lines)%nat
    ∧ Forall (λ token,
                token ≠ []
                ∧ Forall (λ c, Str.isspace c = false
                               ∧ c ≠ Str.hash ∧ c ≠ Str.semicolon) token
                ∧ head token ≠ Some Str.dot)
        tokens.
Proof.
  exists (instruction_tokens lines). split; [apply extract_instructions_eq|].
  unfold instruction_tokens. split.
  - rewrite length_fmap. apply length_filter.
  - apply Forall_fmap, Forall_forall. intros line Hin.
    apply list_elem_of_filter in Hin as [Hi _]. simpl.
    apply first_token_shape. by apply Is_true_true.
Qed.

(** X24.  The instructions of a text in two parts are those of the
    first part followed by those of the second. *)
Theorem extract_instructions_app (lines1 lines2 : list str) :
  extract_instructions (lines1 ++ lines2)
  = (instructions1 ← extract_instructions lines1;
     instructions2 ← extract_instructions lines2;
     Ok (instructions1 ++ instructions2)).
Proof.
  rewrite !extract_instructions_eq. cbn [mbind res_mbind res_bind].
  unfold instruction_tokens. by rewrite filter_app, fmap_app.
Qed.
